(** * GeoStationNote: a shallow embedding of the host application, the
      station form, the sheet and captioning services and the map container,
      with the properties of the specification stated over it.

    Conventions of the embedding.
    - A JavaScript [number] is a binary64 float ([PrimFloat.float]).
    - A JavaScript string is a [string]; every character stands for one
      code unit in the range 0..255.
    - React state is a record; a handler created by a render closes over the
      state of that render, so a handler takes the render's snapshot [r] and
      the live state [w] it updates.
    - An [async] handler is split at its [await]: what it does up to the
      request, and what it does once the request has settled; other
      handlers may run in between.
    - The platform (number and date formatting) is an interface,
      [JSRuntime]; random identities, the clock and the outcome of network
      calls are inputs of the handlers that consume them. *)

From Stdlib Require Import ZArith Lia List String Ascii Bool.
From Stdlib Require Import Floats.PrimFloat.
From stdpp Require Import gmap strings list pretty.
Import ListNotations.
Open Scope string_scope.

Set Warnings "-inexact-float".

(** String concatenation computes on a literal prefix under [simpl]. *)
Arguments String.append !_ _ / : simpl nomatch.

(* ===================================================================== *)
(** ** JavaScript values and string primitives                            *)
(* ===================================================================== *)

Definition number := float.

(** The double quote, the backslash and the newline as code units. *)
Definition dquote : ascii := Ascii.ascii_of_nat 34.
Definition backslash : ascii := Ascii.ascii_of_nat 92.
Definition newline : ascii := Ascii.ascii_of_nat 10.

Definition str1 (c : ascii) : string := String c EmptyString.

(** Truthiness of a string: the empty string is falsy. *)
Definition truthy (s : string) : bool :=
  match s with EmptyString => false | String _ _ => true end.

(** [Array.prototype.join]. *)
Fixpoint join (sep : string) (l : list string) : string :=
  match l with
  | [] => EmptyString
  | [x] => x
  | x :: rest => x ++ sep ++ join sep rest
  end.

(** [s.replace] of every double quote (a global regular expression) by two
    double quotes. *)
Fixpoint replace_dquote (s : string) : string :=
  match s with
  | EmptyString => EmptyString
  | String c rest =>
      if Ascii.eqb c dquote
      then String dquote (String dquote (replace_dquote rest))
      else String c (replace_dquote rest)
  end.

(** [prefix p s]: [Some rest] when [s = p ++ rest]. *)
Fixpoint strip_prefix (p s : string) : option string :=
  match p, s with
  | EmptyString, _ => Some s
  | String a p', String b s' => if Ascii.eqb a b then strip_prefix p' s' else None
  | String _ _, EmptyString => None
  end.

(** The first occurrence of a non-empty separator [sep] in [s]: the text
    before it and the text after it. *)
Fixpoint cut (sep s : string) : option (string * string) :=
  match strip_prefix sep s with
  | Some rest => Some (EmptyString, rest)
  | None =>
      match s with
      | EmptyString => None
      | String c s' =>
          match cut sep s' with
          | Some (b, a) => Some (String c b, a)
          | None => None
          end
      end
  end.

(** [s.includes(sep)]. *)
Definition includes (sep s : string) : bool :=
  match cut sep s with Some _ => true | None => false end.

(** [s.split(sep)[1]]: the piece between the first and the second
    occurrence of [sep]; [None] is [undefined] (no occurrence). *)
Definition split_at1 (sep s : string) : option string :=
  match cut sep s with
  | None => None
  | Some (_, a) =>
      match cut sep a with
      | Some (b, _) => Some b
      | None => Some a
      end
  end.

(** The platform functions the sources call and do not define. *)
Class JSRuntime := {
  (** [Number.prototype.toString] on a finite number. *)
  Number_toString : number -> string;
  (** The text [new Date(t).toISOString()] returns on a valid time
      value [t]. *)
  Date_toISOString : number -> string
}.

(** A completion of a JavaScript statement list: normal, or an exception. *)
Inductive Completion (A : Type) : Type :=
| Normal (a : A)
| Throw (err : string).
Arguments Normal {A} a.
Arguments Throw {A} err.

Definition bind {A B : Type} (c : Completion A) (k : A -> Completion B) : Completion B :=
  match c with
  | Normal a => k a
  | Throw err => Throw err
  end.

(** [new Date(t)] holds a valid time value when [t] is finite and at most
    8.64e15 in absolute value (TimeClip); otherwise it holds NaN. *)
Definition valid_time (t : number) : bool :=
  PrimFloat.leb (PrimFloat.abs t) 8.64e15%float.

(** [new Date(t).toISOString()]: a RangeError on an invalid time value. *)
Definition toISOString `{JSRuntime} (t : number) : Completion string :=
  if valid_time t then Normal (Date_toISOString t)
  else Throw "RangeError: Invalid time value".

(* ===================================================================== *)
(** ** types.ts                                                           *)
(* ===================================================================== *)

Record Location := { lat : number; lng : number }.

Record StationData := {
  id : string;
  name : string;
  address : string;
  location : Location;
  description : string;
  images : list string;
  timestamp : number
}.

Inductive AppView := MAP | LIST | SETTINGS.

Record AppConfig := {
  googleMapsApiKey : string;
  googleSheetScriptUrl : string
}.

Definition AppView_eqb (a b : AppView) : bool :=
  match a, b with
  | MAP, MAP | LIST, LIST | SETTINGS, SETTINGS => true
  | _, _ => false
  end.

(* ===================================================================== *)
(** ** JSON text, as [JSON.stringify] writes it and [JSON.parse] reads it  *)
(* ===================================================================== *)

Module JSON.
Local Open Scope nat_scope.

Definition hex_digit (n : nat) : ascii :=
  match n with
  | 0 => "0" | 1 => "1" | 2 => "2" | 3 => "3" | 4 => "4" | 5 => "5"
  | 6 => "6" | 7 => "7" | 8 => "8" | 9 => "9" | 10 => "a" | 11 => "b"
  | 12 => "c" | 13 => "d" | 14 => "e" | _ => "f"
  end%char.

Definition hex_val (c : ascii) : option nat :=
  let n := nat_of_ascii c in
  if (48 <=? n) && (n <=? 57) then Some (n - 48)
  else if (97 <=? n) && (n <=? 102) then Some (n - 87)
  else if (65 <=? n) && (n <=? 70) then Some (n - 55)
  else None.

(** QuoteJSONString, one code unit: the short escapes, [\u00xx] for the
    other control characters, the unit itself otherwise. *)
Definition quote_char (c : ascii) : string :=
  let n := nat_of_ascii c in
  if n =? 8 then String backslash "b"
  else if n =? 9 then String backslash "t"
  else if n =? 10 then String backslash "n"
  else if n =? 12 then String backslash "f"
  else if n =? 13 then String backslash "r"
  else if n =? 34 then String backslash (str1 dquote)
  else if n =? 92 then String backslash (str1 backslash)
  else if n <? 32 then
    String backslash ("u00" ++ String (hex_digit (n / 16)) (str1 (hex_digit (n mod 16))))
  else str1 c.

Fixpoint quote_body (s : string) : string :=
  match s with
  | EmptyString => EmptyString
  | String c rest => quote_char c ++ quote_body rest
  end.

(** [JSON.stringify] of a string value. *)
Definition quote (s : string) : string :=
  String dquote (quote_body s ++ str1 dquote).

(** The character a one-letter escape stands for. *)
Definition unescape (e : ascii) : option ascii :=
  let n := nat_of_ascii e in
  if n =? 34 then Some dquote
  else if n =? 92 then Some backslash
  else if n =? 47 then Some "/"%char
  else if n =? 98 then Some (ascii_of_nat 8)
  else if n =? 102 then Some (ascii_of_nat 12)
  else if n =? 110 then Some (ascii_of_nat 10)
  else if n =? 114 then Some (ascii_of_nat 13)
  else if n =? 116 then Some (ascii_of_nat 9)
  else None.

Definition hex4 (h1 h2 h3 h4 : ascii) : option nat :=
  match hex_val h1, hex_val h2, hex_val h3, hex_val h4 with
  | Some a, Some b, Some c, Some d => Some (((a * 16 + b) * 16 + c) * 16 + d)
  | _, _, _, _ => None
  end.

Definition push (c : ascii) (r : option (string * string)) : option (string * string) :=
  match r with
  | Some (s, rest) => Some (String c s, rest)
  | None => None
  end.

(** The characters of a JSON string after its opening quote: the decoded
    string and the text after the closing quote. [None] is a SyntaxError
    (or an escape above code unit 255, which a [string] cannot hold). *)
Fixpoint parse_chars (s : string) : option (string * string) :=
  match s with
  | EmptyString => None
  | String c rest =>
      if Ascii.eqb c dquote then Some (EmptyString, rest)
      else if Ascii.eqb c backslash then
        match rest with
        | EmptyString => None
        | String e rest1 =>
            match unescape e with
            | Some d => push d (parse_chars rest1)
            | None =>
                if Ascii.eqb e "u" then
                  match rest1 with
                  | String h1 (String h2 (String h3 (String h4 rest2))) =>
                      match hex4 h1 h2 h3 h4 with
                      | Some n =>
                          if n <? 256 then push (ascii_of_nat n) (parse_chars rest2)
                          else None
                      | None => None
                      end
                  | _ => None
                  end
                else None
            end
        end
      else if nat_of_ascii c <? 32 then None
      else push c (parse_chars rest)
  end.

Definition is_ws (c : ascii) : bool :=
  let n := nat_of_ascii c in
  (n =? 32) || (n =? 9) || (n =? 10) || (n =? 13).

Fixpoint skip_ws (s : string) : string :=
  match s with
  | String c rest => if is_ws c then skip_ws rest else s
  | EmptyString => EmptyString
  end.

(** A JSON string value, opening quote included. *)
Definition parse_string (s : string) : option (string * string) :=
  match s with
  | String c rest => if Ascii.eqb c dquote then parse_chars rest else None
  | EmptyString => None
  end.

(** The members of an object whose values are all strings, after the
    opening brace; the text must end with the object. *)
Fixpoint parse_members (fuel : nat) (s : string) (acc : list (string * string))
  : option (list (string * string)) :=
  match fuel with
  | 0 => None
  | S fuel' =>
      match parse_string (skip_ws s) with
      | None => None
      | Some (k, r1) =>
          match skip_ws r1 with
          | String ":" r2 =>
              match parse_string (skip_ws r2) with
              | None => None
              | Some (v, r3) =>
                  match skip_ws r3 with
                  | String "," r4 => parse_members fuel' r4 ((k, v) :: acc)
                  | String "}" r4 =>
                      match skip_ws r4 with
                      | EmptyString => Some (rev ((k, v) :: acc))
                      | String _ _ => None
                      end
                  | _ => None
                  end
              end
          | _ => None
          end
      end
  end.

(** [JSON.parse] of an object of string members. *)
Definition parse_object (text : string) : option (list (string * string)) :=
  match skip_ws text with
  | String "{" r =>
      match skip_ws r with
      | String "}" r' =>
          match skip_ws r' with EmptyString => Some [] | String _ _ => None end
      | _ => parse_members (String.length text) r []
      end
  | _ => None
  end.

(** Property read on a parsed object: of two members with one key the
    later one wins. *)
Fixpoint get (k : string) (o : list (string * string)) : option string :=
  match o with
  | [] => None
  | (k', v) :: rest =>
      match get k rest with
      | Some v' => Some v'
      | None => if String.eqb k k' then Some v else None
      end
  end.

(** [JSON.stringify] of an [AppConfig]: the members in creation order. *)
Definition stringify_config (c : AppConfig) : string :=
  "{" ++ quote "googleMapsApiKey" ++ ":" ++ quote (googleMapsApiKey c) ++ ","
      ++ quote "googleSheetScriptUrl" ++ ":" ++ quote (googleSheetScriptUrl c) ++ "}".

(** [JSON.parse] read at type [AppConfig]: [None] when the text is not
    JSON or misses a member of the type. *)
Definition parse_config (text : string) : option AppConfig :=
  match parse_object text with
  | None => None
  | Some o =>
      match get "googleMapsApiKey" o, get "googleSheetScriptUrl" o with
      | Some k, Some u => Some {| googleMapsApiKey := k; googleSheetScriptUrl := u |}
      | _, _ => None
      end
  end.

Section Stations.
Context `{JSRuntime}.

(** A number: non-finite values are written [null]. *)
Definition stringify_number (x : number) : string :=
  if (is_nan x || is_infinity x)%bool then "null" else Number_toString x.

Definition stringify_array (items : list string) : string :=
  "[" ++ join "," items ++ "]".

(** A [StationData], members in the order [handleSubmit] creates them. *)
Definition stringify_station (s : StationData) : string :=
  "{" ++ quote "id" ++ ":" ++ quote (id s) ++ ","
      ++ quote "name" ++ ":" ++ quote (name s) ++ ","
      ++ quote "address" ++ ":" ++ quote (address s) ++ ","
      ++ quote "description" ++ ":" ++ quote (description s) ++ ","
      ++ quote "location" ++ ":" ++
           ("{" ++ quote "lat" ++ ":" ++ stringify_number (lat (location s)) ++ ","
                ++ quote "lng" ++ ":" ++ stringify_number (lng (location s)) ++ "}") ++ ","
      ++ quote "images" ++ ":" ++ stringify_array (map quote (images s)) ++ ","
      ++ quote "timestamp" ++ ":" ++ stringify_number (timestamp s) ++ "}".

Definition stringify_stations (l : list StationData) : string :=
  stringify_array (map stringify_station l).
End Stations.

End JSON.

(* ===================================================================== *)
(** ** The world of the host application                                  *)
(* ===================================================================== *)

(** A network call, as issued: [fetch] to the sheet webhook, or
    [ai.models.generateContent]. *)
Inductive NetCall :=
| Fetch (url method mode : string) (body : list (string * string))
| GenerateContent (model : string) (imageParts : list string) (promptText : string).

(** React state of [App], and the globals its handlers write. *)
Record World := {
  config : AppConfig;
  stations : list StationData;
  currentView : AppView;
  mapCenter : Location;
  zoom : number;
  selectedLocation : option Location;
  isSidebarOpen : bool;
  localStorage : gmap string string;
  console : list string;
  alerts : list string;
  network : list NetCall
}.

Definition setConfig (v : AppConfig) (w : World) : World :=
  {| config := v; stations := stations w; currentView := currentView w;
     mapCenter := mapCenter w; zoom := zoom w; selectedLocation := selectedLocation w;
     isSidebarOpen := isSidebarOpen w; localStorage := localStorage w;
     console := console w; alerts := alerts w; network := network w |}.

Definition setStations (v : list StationData) (w : World) : World :=
  {| config := config w; stations := v; currentView := currentView w;
     mapCenter := mapCenter w; zoom := zoom w; selectedLocation := selectedLocation w;
     isSidebarOpen := isSidebarOpen w; localStorage := localStorage w;
     console := console w; alerts := alerts w; network := network w |}.

Definition setCurrentView (v : AppView) (w : World) : World :=
  {| config := config w; stations := stations w; currentView := v;
     mapCenter := mapCenter w; zoom := zoom w; selectedLocation := selectedLocation w;
     isSidebarOpen := isSidebarOpen w; localStorage := localStorage w;
     console := console w; alerts := alerts w; network := network w |}.

Definition setMapCenter (v : Location) (w : World) : World :=
  {| config := config w; stations := stations w; currentView := currentView w;
     mapCenter := v; zoom := zoom w; selectedLocation := selectedLocation w;
     isSidebarOpen := isSidebarOpen w; localStorage := localStorage w;
     console := console w; alerts := alerts w; network := network w |}.

Definition setZoom (v : number) (w : World) : World :=
  {| config := config w; stations := stations w; currentView := currentView w;
     mapCenter := mapCenter w; zoom := v; selectedLocation := selectedLocation w;
     isSidebarOpen := isSidebarOpen w; localStorage := localStorage w;
     console := console w; alerts := alerts w; network := network w |}.

Definition setSelectedLocation (v : option Location) (w : World) : World :=
  {| config := config w; stations := stations w; currentView := currentView w;
     mapCenter := mapCenter w; zoom := zoom w; selectedLocation := v;
     isSidebarOpen := isSidebarOpen w; localStorage := localStorage w;
     console := console w; alerts := alerts w; network := network w |}.

Definition setIsSidebarOpen (v : bool) (w : World) : World :=
  {| config := config w; stations := stations w; currentView := currentView w;
     mapCenter := mapCenter w; zoom := zoom w; selectedLocation := selectedLocation w;
     isSidebarOpen := v; localStorage := localStorage w;
     console := console w; alerts := alerts w; network := network w |}.

(** [localStorage.setItem(k, v)] and [localStorage.getItem(k)]. *)
Definition setItem (k v : string) (w : World) : World :=
  {| config := config w; stations := stations w; currentView := currentView w;
     mapCenter := mapCenter w; zoom := zoom w; selectedLocation := selectedLocation w;
     isSidebarOpen := isSidebarOpen w; localStorage := <[k := v]> (localStorage w);
     console := console w; alerts := alerts w; network := network w |}.

Definition getItem (k : string) (w : World) : option string := localStorage w !! k.

Definition console_error (line : string) (w : World) : World :=
  {| config := config w; stations := stations w; currentView := currentView w;
     mapCenter := mapCenter w; zoom := zoom w; selectedLocation := selectedLocation w;
     isSidebarOpen := isSidebarOpen w; localStorage := localStorage w;
     console := console w ++ [line]; alerts := alerts w; network := network w |}.

Definition alert (line : string) (w : World) : World :=
  {| config := config w; stations := stations w; currentView := currentView w;
     mapCenter := mapCenter w; zoom := zoom w; selectedLocation := selectedLocation w;
     isSidebarOpen := isSidebarOpen w; localStorage := localStorage w;
     console := console w; alerts := alerts w ++ [line]; network := network w |}.

Definition issue (c : NetCall) (w : World) : World :=
  {| config := config w; stations := stations w; currentView := currentView w;
     mapCenter := mapCenter w; zoom := zoom w; selectedLocation := selectedLocation w;
     isSidebarOpen := isSidebarOpen w; localStorage := localStorage w;
     console := console w; alerts := alerts w; network := network w ++ [c] |}.

(* ===================================================================== *)
(** ** services/geminiService.ts                                          *)
(* ===================================================================== *)

Module geminiService.
Section Service.
Context `{JSRuntime}.

(** What [ai.models.generateContent] does once called: it resolves with
    a response whose [text] may be absent, or it rejects. *)
Inductive GenOutcome :=
| GenResolved (text : option string)
| GenRejected (err : string).

Definition fallbackDescription : string :=
  "Could not generate description via AI. Please try again.".

Definition inlineData (img : string) : string :=
  if includes "base64," img
  then match split_at1 "base64," img with Some d => d | None => img end
  else img.

Definition promptText (loc : Location) : string :=
  str1 newline
  ++ "      Analyze these images of a station or facility at coordinates ("
  ++ Number_toString (lat loc) ++ ", " ++ Number_toString (lng loc) ++ ")."
  ++ str1 newline
  ++ "      Provide a concise, professional description of the visual condition, visible equipment, "
  ++ str1 newline
  ++ "      surrounding environment, and any notable features. "
  ++ str1 newline
  ++ "      Keep it under 100 words."
  ++ str1 newline ++ "    ".

(** The statements inside [try]. *)
Definition generate_body (base64Images : list string) (loc : Location)
           (o : GenOutcome) (w : World) : Completion string * World :=
  match base64Images with
  | [] => (Throw "No images provided for analysis.", w)
  | _ :: _ =>
      let parts := map inlineData base64Images in
      let w1 := issue (GenerateContent "gemini-3-flash-preview" parts (promptText loc)) w in
      match o with
      | GenRejected err => (Throw err, w1)
      | GenResolved text =>
          match text with
          | Some (String c t) => (Normal (String c t), w1)
          | _ => (Normal "No description generated.", w1)
          end
      end
  end.

(** [try { ... } catch (error) { console.error(...); return fallback }]. *)
Definition generateStationDescription (base64Images : list string) (loc : Location)
           (o : GenOutcome) (w : World) : Completion string * World :=
  match generate_body base64Images loc o w with
  | (Normal s, w1) => (Normal s, w1)
  | (Throw err, w1) =>
      (Normal fallbackDescription, console_error ("Gemini Analysis Error: " ++ err) w1)
  end.
End Service.
End geminiService.

(* ===================================================================== *)
(** ** services/sheetService.ts                                           *)
(* ===================================================================== *)

Module sheetService.
Section Service.
Context `{JSRuntime}.

Definition headers : list string :=
  ["ID"; "Name"; "Address"; "Latitude"; "Longitude"; "Description"; "Timestamp"].

(** The template that wraps a field in double quotes, its own double
    quotes doubled. *)
Definition quoted (field : string) : string :=
  String dquote (replace_dquote field ++ str1 dquote).

(** One row: the array of a station's cells, each as [join] prints it.
    The last cell throws on an invalid timestamp. *)
Definition row (s : StationData) : Completion (list string) :=
  bind (toISOString (timestamp s)) (fun iso =>
  Normal [ id s;
           quoted (name s);
           quoted (address s);
           Number_toString (lat (location s));
           Number_toString (lng (location s));
           quoted (description s);
           iso ]).

(** [stations.map(s => [...])]: the rows in order, up to the first that
    throws. *)
Fixpoint rows (stations : list StationData) : Completion (list (list string)) :=
  match stations with
  | [] => Normal []
  | s :: rest =>
      bind (row s) (fun r => bind (rows rest) (fun rs => Normal (r :: rs)))
  end.

Definition csvContent (stations : list StationData) : Completion string :=
  bind (rows stations) (fun rs =>
  Normal (join (str1 newline) (join "," headers :: map (join ",") rs))).

(** [exportToCSV]: the name and the content of the file offered for
    download; [today] is the time value of [new Date()] at the export.
    Nothing catches what [toISOString] throws. *)
Definition exportToCSV (stations : list StationData) (today : number)
  : Completion (string * string) :=
  bind (csvContent stations) (fun content =>
  bind (toISOString today) (fun iso =>
  Normal ("stations_export_" ++ String.substring 0 10 iso ++ ".csv", content))).

(** What the [fetch] of the webhook does once issued. *)
Inductive FetchOutcome :=
| FetchResolved
| FetchRejected (err : string).

Definition payload (station : StationData) : list (string * string) :=
  [ ("id", id station);
    ("name", name station);
    ("address", address station);
    ("lat", Number_toString (lat (location station)));
    ("lng", Number_toString (lng (location station)));
    ("description", description station);
    ("imageCount", pretty (length (images station))) ].

(** The statements inside [try]. *)
Definition save_body (station : StationData) (scriptUrl : string)
           (o : FetchOutcome) (w : World) : Completion bool * World :=
  let w1 := issue (Fetch scriptUrl "POST" "no-cors" (payload station)) w in
  match o with
  | FetchResolved => (Normal true, w1)
  | FetchRejected err => (Throw err, w1)
  end.

Definition saveToGoogleSheetScript (station : StationData) (scriptUrl : string)
           (o : FetchOutcome) (w : World) : Completion bool * World :=
  if negb (truthy scriptUrl) then (Normal false, w)
  else
    match save_body station scriptUrl o w with
    | (Normal b, w1) => (Normal b, w1)
    | (Throw err, w1) =>
        (Normal false, console_error ("Failed to sync to sheet " ++ err) w1)
    end.

(** [saveToGoogleSheetScript] called with a URL suspends at
    [await fetch(...)]. [save_request] is what it has done by then;
    [save_settled] is what it does once the request has settled, on the
    state there is at that time. *)
Definition save_request (station : StationData) (scriptUrl : string) (w : World) : World :=
  issue (Fetch scriptUrl "POST" "no-cors" (payload station)) w.

Definition save_settled (o : FetchOutcome) (w : World) : Completion bool * World :=
  match o with
  | FetchResolved => (Normal true, w)
  | FetchRejected err =>
      (Normal false, console_error ("Failed to sync to sheet " ++ err) w)
  end.
End Service.
End sheetService.

(* ===================================================================== *)
(** ** App.tsx                                                            *)
(* ===================================================================== *)

Module App.

Definition DEFAULT_CENTER : Location := {| lat := 21.0285%float; lng := 105.8542%float |}.
Definition STORAGE_KEY_CONFIG : string := "geo_station_config".
Definition STORAGE_KEY_DATA : string := "geo_station_data".

(** The state of the first render, over a given storage. *)
Definition initial (storage : gmap string string) : World :=
  {| config := {| googleMapsApiKey := EmptyString; googleSheetScriptUrl := EmptyString |};
     stations := [];
     currentView := MAP;
     mapCenter := DEFAULT_CENTER;
     zoom := 12%float;
     selectedLocation := None;
     isSidebarOpen := true;
     localStorage := storage;
     console := []; alerts := []; network := [] |}.

Section Handlers.
Context `{JSRuntime}.
(** [JSON.parse] read at type [StationData[]]; [None] is a SyntaxError. *)
Variable JSON_parse_stations : string -> option (list StationData).

(** The effect that loads the persisted data after the first render.
    [JSON.parse_config] reads the texts that [updateConfig] stores; a
    stored text of any other shape is given as [Throw] here, although
    [JSON.parse] throws only on a text that is not JSON and hands any
    other value to [setConfig] as it is, which leaves the typed state. *)
Definition loadPersisted (w : World) : Completion World :=
  let step1 :=
    match getItem STORAGE_KEY_CONFIG w with
    | Some savedConfig =>
        if truthy savedConfig then
          match JSON.parse_config savedConfig with
          | Some c => Normal (setConfig c w)
          | None => Throw "SyntaxError"
          end
        else Normal w
    | None => Normal w
    end in
  match step1 with
  | Throw e => Throw e
  | Normal w1 =>
      match getItem STORAGE_KEY_DATA w1 with
      | Some savedData =>
          if truthy savedData then
            match JSON_parse_stations savedData with
            | Some l => Normal (setStations l w1)
            | None => Throw "SyntaxError"
            end
          else Normal w1
      | None => Normal w1
      end
  end.

Definition updateConfig (newConfig : AppConfig) (w : World) : World :=
  setItem STORAGE_KEY_CONFIG (JSON.stringify_config newConfig) (setConfig newConfig w).

(** [addStation], [deleteStation] and [handleMapClick] read [stations]
    and [isSidebarOpen] of the render [r] that created them. *)
Definition addStation (r : World) (station : StationData) (w : World) : World :=
  let updated := station :: stations r in
  setCurrentView LIST
    (setSelectedLocation None
       (setItem STORAGE_KEY_DATA (JSON.stringify_stations updated)
          (setStations updated w))).

Definition deleteStation (r : World) (i : string) (w : World) : World :=
  let updated := List.filter (fun s => negb (String.eqb (id s) i)) (stations r) in
  setItem STORAGE_KEY_DATA (JSON.stringify_stations updated) (setStations updated w).

Definition handleMapClick (r : World) (loc : Location) (w : World) : World :=
  let w1 := setSelectedLocation (Some loc) w in
  let w2 := if negb (isSidebarOpen r) then setIsSidebarOpen true w1 else w1 in
  setCurrentView MAP w2.

Definition handleMarkerClick (station : StationData) (w : World) : World :=
  setIsSidebarOpen true
    (setCurrentView LIST (setZoom 16%float (setMapCenter (location station) w))).

(** What [navigator.geolocation] does. *)
Inductive GeoOutcome :=
| GeoUnsupported
| GeoPosition (latitude longitude : number)
| GeoError.

Definition handleLocateMe (g : GeoOutcome) (w : World) : World :=
  match g with
  | GeoUnsupported => w
  | GeoPosition la lo =>
      let loc := {| lat := la; lng := lo |} in
      setSelectedLocation (Some loc) (setZoom 15%float (setMapCenter loc w))
  | GeoError => alert "Could not access your location." w
  end.

(** What the sidebar shows. *)
Inductive Sidebar :=
| SettingsPanel (c : AppConfig)
| StationFormPanel (loc : Location) (scriptUrl : string)
| StationListPanel (l : list StationData).

Definition renderSidebar (r : World) : Sidebar :=
  if AppView_eqb (currentView r) SETTINGS then SettingsPanel (config r)
  else
    match selectedLocation r with
    | Some loc =>
        if AppView_eqb (currentView r) MAP
        then StationFormPanel loc (googleSheetScriptUrl (config r))
        else StationListPanel (stations r)
    | None => StationListPanel (stations r)
    end.

(** The button that switches back to the list is rendered only here. *)
Definition viewListButtonShown (r : World) : bool :=
  isSidebarOpen r
  && negb (AppView_eqb (currentView r) LIST)
  && (match selectedLocation r with None => true | Some _ => false end)
  && negb (AppView_eqb (currentView r) SETTINGS).
End Handlers.
End App.

(* ===================================================================== *)
(** ** components/StationForm.tsx                                         *)
(* ===================================================================== *)

Module StationForm.

(** React state of the form, and the [FileReader]s it has started that
    have not finished: [reading] holds the data URL each one delivers
    when its [onloadend] runs. *)
Record FormState := {
  name : string;
  address : string;
  description : string;
  images : list string;
  isAnalyzing : bool;
  isSaving : bool;
  reading : list string
}.

Definition mount : FormState :=
  {| name := EmptyString; address := EmptyString; description := EmptyString;
     images := []; isAnalyzing := false; isSaving := false; reading := [] |}.

Definition setImages (v : list string) (f : FormState) : FormState :=
  {| name := name f; address := address f; description := description f;
     images := v; isAnalyzing := isAnalyzing f; isSaving := isSaving f;
     reading := reading f |}.

Definition setReading (v : list string) (f : FormState) : FormState :=
  {| name := name f; address := address f; description := description f;
     images := images f; isAnalyzing := isAnalyzing f; isSaving := isSaving f;
     reading := v |}.

Definition setDescription (v : string) (f : FormState) : FormState :=
  {| name := name f; address := address f; description := v;
     images := images f; isAnalyzing := isAnalyzing f; isSaving := isSaving f;
     reading := reading f |}.

Definition setIsAnalyzing (v : bool) (f : FormState) : FormState :=
  {| name := name f; address := address f; description := description f;
     images := images f; isAnalyzing := v; isSaving := isSaving f;
     reading := reading f |}.

Definition setIsSaving (v : bool) (f : FormState) : FormState :=
  {| name := name f; address := address f; description := description f;
     images := images f; isAnalyzing := isAnalyzing f; isSaving := v;
     reading := reading f |}.

(** [files.slice(0, e)]: a negative [e] counts from the end. *)
Definition slice0 {A} (files : list A) (e : Z) : list A :=
  let len := Z.of_nat (length files) in
  let final := if (e <? 0)%Z then Z.max (len + e) 0 else Z.min e len in
  take (Z.to_nat final) files.

(** [l.filter((_, i) => p i)], indices counted from [i0]. *)
Fixpoint filteri {A} (p : nat -> bool) (i0 : nat) (l : list A) : list A :=
  match l with
  | [] => []
  | x :: rest => if p i0 then x :: filteri p (S i0) rest else filteri p (S i0) rest
  end.

(** [handleImageUpload], created by render [r]: it counts the free slots
    from the images of that render and starts one reader per kept file.
    A file is given by the data URL its reader will deliver. *)
Definition handleImageUpload (r : FormState) (files : option (list string))
           (f : FormState) : FormState :=
  match files with
  | None => f
  | Some fs =>
      let remainingSlots := (4 - Z.of_nat (length (images r)))%Z in
      let filesToProcess := slice0 fs remainingSlots in
      setReading (reading f ++ filesToProcess) f
  end.

(** [reader.onloadend] of the [i]-th reader in flight: a functional
    update of the live state. *)
Definition onloadend (i : nat) (f : FormState) : FormState :=
  match reading f !! i with
  | Some result => setReading (delete i (reading f)) (setImages (images f ++ [result]) f)
  | None => f
  end.

Definition removeImage (index : nat) (f : FormState) : FormState :=
  setImages (filteri (fun i => negb (Nat.eqb i index)) 0 (images f)) f.

Section Handlers.
Context `{JSRuntime}.

Record Props := {
  location : Location;
  onSave : StationData -> World -> World;
  onCancel : World -> World;
  scriptUrl : string
}.

Definition handleGeminiAnalysis (p : Props) (r : FormState)
           (o : geminiService.GenOutcome) (fw : FormState * World)
  : Completion unit * (FormState * World) :=
  let '(f, w) := fw in
  match images r with
  | [] => (Normal tt, (f, w))
  | _ :: _ =>
      let f1 := setIsAnalyzing true f in
      match geminiService.generateStationDescription (images r) (location p) o w with
      | (Normal desc, w1) => (Normal tt, (setIsAnalyzing false (setDescription desc f1), w1))
      | (Throw e, w1) => (Throw e, (f1, w1))
      end
  end.

(** [handleSubmit], created by render [r]; [uuid] is what
    [crypto.randomUUID()] returns, [now] what [Date.now()] returns and
    [o] what the webhook call does. *)
Definition newStation (p : Props) (r : FormState) (uuid : string) (now : number)
  : StationData :=
  Build_StationData uuid (name r) (address r) (location p) (description r)
                    (images r) now.

Definition handleSubmit (p : Props) (r : FormState) (uuid : string) (now : number)
           (o : sheetService.FetchOutcome) (fw : FormState * World)
  : Completion unit * (FormState * World) :=
  let '(f, w) := fw in
  let f1 := setIsSaving true f in
  let station := newStation p r uuid now in
  let synced :=
    if truthy (scriptUrl p)
    then sheetService.saveToGoogleSheetScript station (scriptUrl p) o w
    else (Normal false, w) in
  match synced with
  | (Throw e, w1) => (Throw e, (f1, w1))
  | (Normal _, w1) => (Normal tt, (setIsSaving false f1, onSave p station w1))
  end.

(** [handleSubmit] around its [await]. With a [scriptUrl] the click runs
    the handler up to the request and suspends it; without one the click
    runs it to its end. *)
Inductive Submission :=
| Suspended (station : StationData) (fw : FormState * World)
| Completed (fw : FormState * World).

Definition handleSubmit_click (p : Props) (r : FormState) (uuid : string) (now : number)
           (fw : FormState * World) : Submission :=
  let '(f, w) := fw in
  let f1 := setIsSaving true f in
  let station := newStation p r uuid now in
  if truthy (scriptUrl p)
  then Suspended station (f1, sheetService.save_request station (scriptUrl p) w)
  else Completed (setIsSaving false f1, onSave p station w).

(** The rest of a suspended [handleSubmit], run when the request has
    settled: [onSave] is the prop of the render that created the handler,
    [fw] the state at the time it resumes. *)
Definition handleSubmit_resume (p : Props) (station : StationData)
           (o : sheetService.FetchOutcome) (fw : FormState * World)
  : Completion unit * (FormState * World) :=
  let '(f, w) := fw in
  match sheetService.save_settled o w with
  | (Throw e, w1) => (Throw e, (f, w1))
  | (Normal _, w1) => (Normal tt, (setIsSaving false f, onSave p station w1))
  end.
End Handlers.
End StationForm.

(* ===================================================================== *)
(** ** components/Settings.tsx                                            *)
(* ===================================================================== *)

Module Settings.
Record SettingsState := { mapsKey : string; scriptUrl : string }.

Definition mount (c : AppConfig) : SettingsState :=
  {| mapsKey := googleMapsApiKey c; scriptUrl := googleSheetScriptUrl c |}.

Definition handleSubmit (onSave : AppConfig -> World -> World) (onClose : World -> World)
           (s : SettingsState) (w : World) : World :=
  onClose (onSave {| googleMapsApiKey := mapsKey s; googleSheetScriptUrl := scriptUrl s |} w).
End Settings.

(* ===================================================================== *)
(** ** The host application as an event system                            *)
(* ===================================================================== *)

Module Host.
Section Events.
Context `{JSRuntime}.

Definition formProps (w : World) (loc : Location) (url : string) : StationForm.Props :=
  {| StationForm.location := loc;
     StationForm.onSave := App.addStation w;
     StationForm.onCancel := setSelectedLocation None;
     StationForm.scriptUrl := url |}.

(** A submission suspended at its [await]: the props and the state of
    the form whose [handleSubmit] runs, and the record it built. *)
Record Pending := {
  props : StationForm.Props;
  form : StationForm.FormState;
  record : StationData
}.

(** The mounted application: the state of [App]; the render whose
    [handleMapClick] the click listener of the map calls ([None]: no map
    is constructed yet); the submissions whose webhook request has not
    settled. The init effects of the map container register [onMapClick]
    when they construct the map, and construct none while one is held. *)
Record State := {
  app : World;
  mapListener : option World;
  inflight : list Pending
}.

Definition setApp (w : World) (st : State) : State :=
  {| app := w; mapListener := mapListener st; inflight := inflight st |}.

(** What the user, the browser and the network can do to the mounted
    application. Apart from the click listener of the map and a resumed
    submission, each handler is the one of the latest render. *)
Inductive Event :=
| MapConstructed               (* the map container constructs its map in the
                                  commit of the latest render *)
| MapClicked (loc : Location)
| MarkerClicked (n : nat)      (* the marker of the [n]-th station *)
| LocateMe (g : App.GeoOutcome)
| OpenSettings
| SaveSettings (s : Settings.SettingsState)
| CancelForm
| SubmitForm (f : StationForm.FormState) (uuid : string) (now : number)
| WebhookSettled (n : nat) (o : sheetService.FetchOutcome)
                               (* the request of the [n]-th suspended
                                  submission settles *)
| DeleteStation (n : nat)      (* the bin of the [n]-th entry of the list *)
| ViewList
| ViewOnMap (n : nat)
| ToggleSidebar (open : bool).

Definition handle (e : Event) (st : State) : State :=
  let w := app st in
  match e with
  | MapConstructed =>
      {| app := w; mapListener := Some w; inflight := inflight st |}
  | MapClicked loc =>
      match mapListener st with
      | Some r => setApp (App.handleMapClick r loc w) st
      | None => st
      end
  | MarkerClicked n =>
      match nth_error (stations w) n with
      | Some station => setApp (App.handleMarkerClick station w) st
      | None => st
      end
  | LocateMe g => setApp (App.handleLocateMe g w) st
  | OpenSettings => setApp (setCurrentView SETTINGS w) st
  | SaveSettings s =>
      match App.renderSidebar w with
      | App.SettingsPanel _ =>
          setApp (Settings.handleSubmit App.updateConfig (setCurrentView MAP) s w) st
      | _ => st
      end
  | CancelForm =>
      match App.renderSidebar w with
      | App.StationFormPanel _ _ => setApp (setSelectedLocation None w) st
      | _ => st
      end
  | SubmitForm f uuid now =>
      match App.renderSidebar w with
      | App.StationFormPanel loc url =>
          let p := formProps w loc url in
          match StationForm.handleSubmit_click p f uuid now (f, w) with
          | StationForm.Completed (_, w1) => setApp w1 st
          | StationForm.Suspended station (f1, w1) =>
              {| app := w1; mapListener := mapListener st;
                 inflight := inflight st
                             ++ [{| props := p; form := f1; record := station |}] |}
          end
      | _ => st
      end
  | WebhookSettled n o =>
      match inflight st !! n with
      | Some s =>
          {| app := snd (snd (StationForm.handleSubmit_resume
                                (props s) (record s) o (form s, w)));
             mapListener := mapListener st;
             inflight := delete n (inflight st) |}
      | None => st
      end
  | DeleteStation n =>
      match App.renderSidebar w, nth_error (stations w) n with
      | App.StationListPanel _, Some station =>
          setApp (App.deleteStation w (id station) w) st
      | _, _ => st
      end
  | ViewList =>
      if App.viewListButtonShown w then setApp (setCurrentView LIST w) st else st
  | ViewOnMap n =>
      match App.renderSidebar w, nth_error (stations w) n with
      | App.StationListPanel _, Some station =>
          setApp (setZoom 16%float (setMapCenter (location station) w)) st
      | _, _ => st
      end
  | ToggleSidebar open => setApp (setIsSidebarOpen open w) st
  end.

Definition run (events : list Event) (st : State) : State :=
  fold_left (fun st e => handle e st) events st.

(** A submission whose request, if there is one, settles before anything
    else happens. *)
Definition submit (f : StationForm.FormState) (uuid : string) (now : number)
           (o : sheetService.FetchOutcome) (st : State) : State :=
  handle (WebhookSettled (length (inflight st)) o) (handle (SubmitForm f uuid now) st).

(** The application on the state [w] of a render, before the map is
    constructed and with no submission suspended. *)
Definition mounted (w : World) : State :=
  {| app := w; mapListener := None; inflight := [] |}.

(** The states the mounted application can be in, from an empty
    storage. *)
Inductive reachable : State -> Prop :=
| reachable_initial : reachable (mounted (App.initial ∅))
| reachable_step e st : reachable st -> reachable (handle e st).
End Events.
End Host.

(* ===================================================================== *)
(** ** components/MapContainer.tsx                                        *)
(* ===================================================================== *)

Module MapContainer.

(** The props of one render. An array, an object or a function is
    compared by identity in a dependency list: [stations_ref],
    [center_ref], [selected_ref], [onMapClick] and [onMarkerClick] are
    the identities of the values passed. *)
Record Props := {
  apiKey : string;
  center : Location;
  center_ref : nat;
  zoom : number;
  stations : list StationData;
  stations_ref : nat;
  onMapClick : nat;
  onMarkerClick : nat;
  selectedLocation : option Location;
  selected_ref : nat
}.

(** One render: its props and the [googleScriptLoaded] it read. *)
Record Render := { props : Props; loaded : bool }.

Inductive Backend := Google | Leaflet.

Definition Backend_eqb (a b : Backend) : bool :=
  match a, b with
  | Google, Google | Leaflet, Leaflet => true
  | _, _ => false
  end.

Definition other (b : Backend) : Backend :=
  match b with Google => Leaflet | Leaflet => Google end.

(** A map object constructed on the container element. *)
Record MapObject := { backend : Backend; map_id : nat }.

Record Marker := { marker_id : nat; marker_map : nat; marker_station : StationData }.

Record TempMarker := { temp_id : nat; temp_map : nat; temp_position : Location }.

(** The calls made to the two map libraries. *)
Inductive LibCall :=
| MapNew (o : MapObject)
| MapRemove (o : MapObject)
| MapListen (map callback : nat)
| MapView (map : nat) (c : Location) (z : number)
| TileLayer (map : nat)
| MarkerAdd (m : Marker)
| MarkerRemove (m : Marker)
| MarkerListen (marker callback : nat)
| TempAdd (t : TempMarker)
| TempRemove (t : TempMarker).

(** State of the component ([googleScriptLoaded] and the render last
    committed), its refs, the globals it reads, and the two things the
    libraries own: [container], the map objects constructed on the
    element of [mapRef] and not destroyed by a call, and [log], the calls
    made so far. [next] numbers the objects created. [mapRef.current] is
    set whenever an effect runs and is not a field. *)
Record MapState := {
  googleScriptLoaded : bool;
  rendered : option Render;
  googleMapRef : option nat;
  googleMarkersRef : list Marker;
  googleTempMarkerRef : option TempMarker;
  leafletMapRef : option nat;
  leafletMarkersRef : list Marker;
  leafletTempMarkerRef : option TempMarker;
  window_google_maps : bool;
  window_L : bool;
  head_scripts : list string;
  container : list MapObject;
  log : list LibCall;
  next : nat
}.

Definition set_googleScriptLoaded (v : bool) (st : MapState) : MapState :=
  {| googleScriptLoaded := v; rendered := rendered st;
     googleMapRef := googleMapRef st; googleMarkersRef := googleMarkersRef st;
     googleTempMarkerRef := googleTempMarkerRef st; leafletMapRef := leafletMapRef st;
     leafletMarkersRef := leafletMarkersRef st;
     leafletTempMarkerRef := leafletTempMarkerRef st;
     window_google_maps := window_google_maps st; window_L := window_L st;
     head_scripts := head_scripts st; container := container st; log := log st;
     next := next st |}.

Definition set_rendered (v : option Render) (st : MapState) : MapState :=
  {| googleScriptLoaded := googleScriptLoaded st; rendered := v;
     googleMapRef := googleMapRef st; googleMarkersRef := googleMarkersRef st;
     googleTempMarkerRef := googleTempMarkerRef st; leafletMapRef := leafletMapRef st;
     leafletMarkersRef := leafletMarkersRef st;
     leafletTempMarkerRef := leafletTempMarkerRef st;
     window_google_maps := window_google_maps st; window_L := window_L st;
     head_scripts := head_scripts st; container := container st; log := log st;
     next := next st |}.

Definition set_googleMapRef (v : option nat) (st : MapState) : MapState :=
  {| googleScriptLoaded := googleScriptLoaded st; rendered := rendered st;
     googleMapRef := v; googleMarkersRef := googleMarkersRef st;
     googleTempMarkerRef := googleTempMarkerRef st; leafletMapRef := leafletMapRef st;
     leafletMarkersRef := leafletMarkersRef st;
     leafletTempMarkerRef := leafletTempMarkerRef st;
     window_google_maps := window_google_maps st; window_L := window_L st;
     head_scripts := head_scripts st; container := container st; log := log st;
     next := next st |}.

Definition set_googleMarkersRef (v : list Marker) (st : MapState) : MapState :=
  {| googleScriptLoaded := googleScriptLoaded st; rendered := rendered st;
     googleMapRef := googleMapRef st; googleMarkersRef := v;
     googleTempMarkerRef := googleTempMarkerRef st; leafletMapRef := leafletMapRef st;
     leafletMarkersRef := leafletMarkersRef st;
     leafletTempMarkerRef := leafletTempMarkerRef st;
     window_google_maps := window_google_maps st; window_L := window_L st;
     head_scripts := head_scripts st; container := container st; log := log st;
     next := next st |}.

Definition set_googleTempMarkerRef (v : option TempMarker) (st : MapState) : MapState :=
  {| googleScriptLoaded := googleScriptLoaded st; rendered := rendered st;
     googleMapRef := googleMapRef st; googleMarkersRef := googleMarkersRef st;
     googleTempMarkerRef := v; leafletMapRef := leafletMapRef st;
     leafletMarkersRef := leafletMarkersRef st;
     leafletTempMarkerRef := leafletTempMarkerRef st;
     window_google_maps := window_google_maps st; window_L := window_L st;
     head_scripts := head_scripts st; container := container st; log := log st;
     next := next st |}.

Definition set_leafletMapRef (v : option nat) (st : MapState) : MapState :=
  {| googleScriptLoaded := googleScriptLoaded st; rendered := rendered st;
     googleMapRef := googleMapRef st; googleMarkersRef := googleMarkersRef st;
     googleTempMarkerRef := googleTempMarkerRef st; leafletMapRef := v;
     leafletMarkersRef := leafletMarkersRef st;
     leafletTempMarkerRef := leafletTempMarkerRef st;
     window_google_maps := window_google_maps st; window_L := window_L st;
     head_scripts := head_scripts st; container := container st; log := log st;
     next := next st |}.

Definition set_leafletMarkersRef (v : list Marker) (st : MapState) : MapState :=
  {| googleScriptLoaded := googleScriptLoaded st; rendered := rendered st;
     googleMapRef := googleMapRef st; googleMarkersRef := googleMarkersRef st;
     googleTempMarkerRef := googleTempMarkerRef st; leafletMapRef := leafletMapRef st;
     leafletMarkersRef := v; leafletTempMarkerRef := leafletTempMarkerRef st;
     window_google_maps := window_google_maps st; window_L := window_L st;
     head_scripts := head_scripts st; container := container st; log := log st;
     next := next st |}.

Definition set_leafletTempMarkerRef (v : option TempMarker) (st : MapState) : MapState :=
  {| googleScriptLoaded := googleScriptLoaded st; rendered := rendered st;
     googleMapRef := googleMapRef st; googleMarkersRef := googleMarkersRef st;
     googleTempMarkerRef := googleTempMarkerRef st; leafletMapRef := leafletMapRef st;
     leafletMarkersRef := leafletMarkersRef st; leafletTempMarkerRef := v;
     window_google_maps := window_google_maps st; window_L := window_L st;
     head_scripts := head_scripts st; container := container st; log := log st;
     next := next st |}.

Definition set_window_google_maps (v : bool) (st : MapState) : MapState :=
  {| googleScriptLoaded := googleScriptLoaded st; rendered := rendered st;
     googleMapRef := googleMapRef st; googleMarkersRef := googleMarkersRef st;
     googleTempMarkerRef := googleTempMarkerRef st; leafletMapRef := leafletMapRef st;
     leafletMarkersRef := leafletMarkersRef st;
     leafletTempMarkerRef := leafletTempMarkerRef st; window_google_maps := v;
     window_L := window_L st; head_scripts := head_scripts st;
     container := container st; log := log st; next := next st |}.

Definition set_window_L (v : bool) (st : MapState) : MapState :=
  {| googleScriptLoaded := googleScriptLoaded st; rendered := rendered st;
     googleMapRef := googleMapRef st; googleMarkersRef := googleMarkersRef st;
     googleTempMarkerRef := googleTempMarkerRef st; leafletMapRef := leafletMapRef st;
     leafletMarkersRef := leafletMarkersRef st;
     leafletTempMarkerRef := leafletTempMarkerRef st;
     window_google_maps := window_google_maps st; window_L := v;
     head_scripts := head_scripts st; container := container st; log := log st;
     next := next st |}.

Definition set_head_scripts (v : list string) (st : MapState) : MapState :=
  {| googleScriptLoaded := googleScriptLoaded st; rendered := rendered st;
     googleMapRef := googleMapRef st; googleMarkersRef := googleMarkersRef st;
     googleTempMarkerRef := googleTempMarkerRef st; leafletMapRef := leafletMapRef st;
     leafletMarkersRef := leafletMarkersRef st;
     leafletTempMarkerRef := leafletTempMarkerRef st;
     window_google_maps := window_google_maps st; window_L := window_L st;
     head_scripts := v; container := container st; log := log st; next := next st |}.

Definition set_container (v : list MapObject) (st : MapState) : MapState :=
  {| googleScriptLoaded := googleScriptLoaded st; rendered := rendered st;
     googleMapRef := googleMapRef st; googleMarkersRef := googleMarkersRef st;
     googleTempMarkerRef := googleTempMarkerRef st; leafletMapRef := leafletMapRef st;
     leafletMarkersRef := leafletMarkersRef st;
     leafletTempMarkerRef := leafletTempMarkerRef st;
     window_google_maps := window_google_maps st; window_L := window_L st;
     head_scripts := head_scripts st; container := v; log := log st; next := next st |}.

Definition set_log (v : list LibCall) (st : MapState) : MapState :=
  {| googleScriptLoaded := googleScriptLoaded st; rendered := rendered st;
     googleMapRef := googleMapRef st; googleMarkersRef := googleMarkersRef st;
     googleTempMarkerRef := googleTempMarkerRef st; leafletMapRef := leafletMapRef st;
     leafletMarkersRef := leafletMarkersRef st;
     leafletTempMarkerRef := leafletTempMarkerRef st;
     window_google_maps := window_google_maps st; window_L := window_L st;
     head_scripts := head_scripts st; container := container st; log := v;
     next := next st |}.

Definition set_next (v : nat) (st : MapState) : MapState :=
  {| googleScriptLoaded := googleScriptLoaded st; rendered := rendered st;
     googleMapRef := googleMapRef st; googleMarkersRef := googleMarkersRef st;
     googleTempMarkerRef := googleTempMarkerRef st; leafletMapRef := leafletMapRef st;
     leafletMarkersRef := leafletMarkersRef st;
     leafletTempMarkerRef := leafletTempMarkerRef st;
     window_google_maps := window_google_maps st; window_L := window_L st;
     head_scripts := head_scripts st; container := container st; log := log st;
     next := v |}.


Definition call (c : LibCall) (st : MapState) : MapState :=
  set_log (log st ++ [c]) st.

Definition fresh (st : MapState) : MapState := set_next (S (next st)) st.

(** *** Statements of the effects, as state transformers *)

(** [script.onload = ...; document.head.appendChild(script)]. *)
Definition appendScript (key : string) (st : MapState) : MapState :=
  set_head_scripts
    (head_scripts st
       ++ ["https://maps.googleapis.com/maps/api/js?key=" ++ key ++ "&libraries=places"]) st.

(** [leafletMapRef.current.remove()]: the library destroys the map [l]. *)
Definition leaflet_remove (l : nat) (st : MapState) : MapState :=
  let o := {| backend := Leaflet; map_id := l |} in
  call (MapRemove o)
    (set_container
       (List.filter (fun o' => negb (Backend_eqb (backend o') Leaflet && Nat.eqb (map_id o') l))
                    (container st)) st).

(** [googleMapRef.current = new window.google.maps.Map(mapRef.current, ...)]. *)
Definition google_new (r : Render) (st : MapState) : MapState :=
  let o := {| backend := Google; map_id := next st |} in
  fresh (set_googleMapRef (Some (next st))
           (call (MapView (next st) (center (props r)) (zoom (props r)))
              (call (MapNew o) (set_container (container st ++ [o]) st)))).

(** [googleMapRef.current.addListener('click', ...)]. *)
Definition google_listen (r : Render) (st : MapState) : MapState :=
  match googleMapRef st with
  | Some g => call (MapListen g (onMapClick (props r))) st
  | None => st
  end.

(** [const map = window.L.map(mapRef.current).setView(...)]. *)
Definition leaflet_new (map : nat) (r : Render) (st : MapState) : MapState :=
  let o := {| backend := Leaflet; map_id := map |} in
  set_next (S map)
    (call (MapView map (center (props r)) (zoom (props r)))
       (call (MapNew o) (set_container (container st ++ [o]) st))).

(** [marker.setMap(null)] and [leafletMapRef.current.removeLayer(m)]. *)
Definition marker_remove (m : Marker) (st : MapState) : MapState :=
  call (MarkerRemove m) st.

(** One turn of [stations.forEach] in the Google effect: a marker is
    created on the map, given its listener and pushed on the ref. *)
Definition google_marker (g : nat) (r : Render) (s : StationData) (st : MapState) : MapState :=
  let m := {| marker_id := next st; marker_map := g; marker_station := s |} in
  fresh (set_googleMarkersRef (googleMarkersRef st ++ [m])
           (call (MarkerListen (next st) (onMarkerClick (props r)))
              (call (MarkerAdd m) st))).

Definition leaflet_marker (l : nat) (r : Render) (s : StationData) (st : MapState) : MapState :=
  let m := {| marker_id := next st; marker_map := l; marker_station := s |} in
  fresh (set_leafletMarkersRef (leafletMarkersRef st ++ [m])
           (call (MarkerListen (next st) (onMarkerClick (props r)))
              (call (MarkerAdd m) st))).

Definition google_temp (g : nat) (loc : Location) (st : MapState) : MapState :=
  let t := {| temp_id := next st; temp_map := g; temp_position := loc |} in
  fresh (set_googleTempMarkerRef (Some t) (call (TempAdd t) st)).

Definition leaflet_temp (l : nat) (loc : Location) (st : MapState) : MapState :=
  let t := {| temp_id := next st; temp_map := l; temp_position := loc |} in
  fresh (set_leafletTempMarkerRef (Some t) (call (TempAdd t) st)).

(** *** The nine effects, in the order of the source

    An effect is the list of the statements it executes from the state
    [st] it starts in; a guard that fails gives the empty list. *)
Inductive Effect :=
| LoadScript | InitGoogle | PanGoogle | GoogleMarkers | GoogleTemp
| InitLeaflet | PanLeaflet | LeafletMarkers | LeafletTemp.

Definition effects : list Effect :=
  [LoadScript; InitGoogle; PanGoogle; GoogleMarkers; GoogleTemp;
   InitLeaflet; PanLeaflet; LeafletMarkers; LeafletTemp].

Definition loadScript (r : Render) (st : MapState) : list (MapState -> MapState) :=
  if negb (truthy (apiKey (props r))) then []
  else if window_google_maps st then [set_googleScriptLoaded true]
  else [appendScript (apiKey (props r))].

Definition initGoogle (r : Render) (st : MapState) : list (MapState -> MapState) :=
  match googleMapRef st with
  | None =>
      if truthy (apiKey (props r)) && loaded r then
        (match leafletMapRef st with
         | Some l => [leaflet_remove l; set_leafletMapRef None]
         | None => []
         end)
        ++ [google_new r; google_listen r]
      else []
  | Some _ => []
  end.

Definition panGoogle (r : Render) (st : MapState) : list (MapState -> MapState) :=
  match googleMapRef st with
  | Some g =>
      if truthy (apiKey (props r))
      then [call (MapView g (center (props r)) (zoom (props r)))]
      else []
  | None => []
  end.

Definition googleMarkers (r : Render) (st : MapState) : list (MapState -> MapState) :=
  match googleMapRef st with
  | Some g =>
      if truthy (apiKey (props r)) then
        map marker_remove (googleMarkersRef st)
        ++ [set_googleMarkersRef []]
        ++ map (google_marker g r) (stations (props r))
      else []
  | None => []
  end.

Definition googleTemp (r : Render) (st : MapState) : list (MapState -> MapState) :=
  match googleMapRef st with
  | Some g =>
      if truthy (apiKey (props r)) then
        (match googleTempMarkerRef st with
         | Some t => [call (TempRemove t)]
         | None => []
         end)
        ++ (match selectedLocation (props r) with
            | Some loc => [google_temp g loc]
            | None => []
            end)
      else []
  | None => []
  end.

Definition initLeaflet (r : Render) (st : MapState) : list (MapState -> MapState) :=
  match leafletMapRef st with
  | None =>
      if negb (truthy (apiKey (props r))) && window_L st then
        let map := next st in
        (match googleMapRef st with
         | Some _ => [set_googleMapRef None]
         | None => []
         end)
        ++ [leaflet_new map r;
            call (TileLayer map);
            call (MapListen map (onMapClick (props r)));
            set_leafletMapRef (Some map)]
      else []
  | Some _ => []
  end.

Definition panLeaflet (r : Render) (st : MapState) : list (MapState -> MapState) :=
  match leafletMapRef st with
  | Some l =>
      if negb (truthy (apiKey (props r)))
      then [call (MapView l (center (props r)) (zoom (props r)))]
      else []
  | None => []
  end.

Definition leafletMarkers (r : Render) (st : MapState) : list (MapState -> MapState) :=
  match leafletMapRef st with
  | Some l =>
      if negb (truthy (apiKey (props r))) && window_L st then
        map marker_remove (leafletMarkersRef st)
        ++ [set_leafletMarkersRef []]
        ++ map (leaflet_marker l r) (stations (props r))
      else []
  | None => []
  end.

Definition leafletTemp (r : Render) (st : MapState) : list (MapState -> MapState) :=
  match leafletMapRef st with
  | Some l =>
      if negb (truthy (apiKey (props r))) && window_L st then
        (match leafletTempMarkerRef st with
         | Some t => [call (TempRemove t); set_leafletTempMarkerRef None]
         | None => []
         end)
        ++ (match selectedLocation (props r) with
            | Some loc => [leaflet_temp l loc]
            | None => []
            end)
      else []
  | None => []
  end.

Definition body (e : Effect) : Render -> MapState -> list (MapState -> MapState) :=
  match e with
  | LoadScript => loadScript
  | InitGoogle => initGoogle
  | PanGoogle => panGoogle
  | GoogleMarkers => googleMarkers
  | GoogleTemp => googleTemp
  | InitLeaflet => initLeaflet
  | PanLeaflet => panLeaflet
  | LeafletMarkers => leafletMarkers
  | LeafletTemp => leafletTemp
  end.

(** *** Running statements and effects *)

(** The states after each statement of a list, in order. *)
Fixpoint states (stmts : list (MapState -> MapState)) (st : MapState) : list MapState :=
  match stmts with
  | [] => []
  | f :: rest => f st :: states rest (f st)
  end.

Definition exec (stmts : list (MapState -> MapState)) (st : MapState) : MapState :=
  fold_left (fun s f => f s) stmts st.

(** Does the dependency list of [e] differ between two renders? *)
Definition fires (e : Effect) (old : option Render) (new : Render) : bool :=
  match old with
  | None => true
  | Some o =>
      let key := negb (String.eqb (apiKey (props o)) (apiKey (props new))) in
      let cen := negb (Nat.eqb (center_ref (props o)) (center_ref (props new)))
                 || negb (PrimFloat.Leibniz.eqb (zoom (props o)) (zoom (props new))) in
      let sts := negb (Nat.eqb (stations_ref (props o)) (stations_ref (props new))) in
      let sel := negb (Nat.eqb (selected_ref (props o)) (selected_ref (props new))) in
      let omc := negb (Nat.eqb (onMapClick (props o)) (onMapClick (props new))) in
      let omk := negb (Nat.eqb (onMarkerClick (props o)) (onMarkerClick (props new))) in
      match e with
      | LoadScript => key
      | InitGoogle => key || negb (Bool.eqb (loaded o) (loaded new)) || omc
      | PanGoogle | PanLeaflet => cen || key
      | GoogleMarkers | LeafletMarkers => sts || key || omk
      | GoogleTemp | LeafletTemp => sel || key
      | InitLeaflet => key || omc
      end
  end.

(** The effects of one commit, run in source order: the states passed
    through, statement by statement. *)
Fixpoint commit_states (es : list Effect) (old : option Render) (r : Render)
         (st : MapState) : list MapState :=
  match es with
  | [] => []
  | e :: rest =>
      let stmts := if fires e old r then body e r st else [] in
      states stmts st ++ commit_states rest old r (exec stmts st)
  end.

Fixpoint commit (es : list Effect) (old : option Render) (r : Render)
         (st : MapState) : MapState :=
  match es with
  | [] => st
  | e :: rest =>
      let stmts := if fires e old r then body e r st else [] in
      commit rest old r (exec stmts st)
  end.

(** One render with props [p], reading the current [googleScriptLoaded],
    followed by its effects. *)
Definition render_states (p : Props) (st : MapState) : list MapState :=
  let r := {| props := p; loaded := googleScriptLoaded st |} in
  let st1 := set_rendered (Some r) st in
  st1 :: commit_states effects (rendered st) r st1.

Definition render (p : Props) (st : MapState) : MapState :=
  let r := {| props := p; loaded := googleScriptLoaded st |} in
  commit effects (rendered st) r (set_rendered (Some r) st).

(** A state update made by an effect ([setGoogleScriptLoaded]) renders the
    component again with the same props. *)
Definition settle_states (st : MapState) : list MapState :=
  match rendered st with
  | Some r =>
      if Bool.eqb (loaded r) (googleScriptLoaded st) then []
      else render_states (props r) st
  | None => []
  end.

Definition settle (st : MapState) : MapState :=
  match rendered st with
  | Some r =>
      if Bool.eqb (loaded r) (googleScriptLoaded st) then st
      else render (props r) st
  | None => st
  end.

(** What happens to the mounted component. *)
Inductive Event :=
| Rendered (p : Props)     (* the parent renders it with props [p] *)
| ScriptOnload             (* the Google script appended to the head loads *)
| LeafletReady.            (* the Leaflet script of the page has run *)

Definition handle_states (e : Event) (st : MapState) : list MapState :=
  match e with
  | Rendered p => render_states p st ++ settle_states (render p st)
  | ScriptOnload =>
      match head_scripts st with
      | [] => []
      | _ :: _ =>
          let st1 := set_googleScriptLoaded true (set_window_google_maps true st) in
          st1 :: settle_states st1
      end
  | LeafletReady => [set_window_L true st]
  end.

Definition handle (e : Event) (st : MapState) : MapState :=
  match e with
  | Rendered p => settle (render p st)
  | ScriptOnload =>
      match head_scripts st with
      | [] => st
      | _ :: _ => settle (set_googleScriptLoaded true (set_window_google_maps true st))
      end
  | LeafletReady => set_window_L true st
  end.

(** Before the first render; [leafletReady] tells whether the Leaflet
    script of the page has already run. *)
Definition unmounted (leafletReady : bool) : MapState :=
  {| googleScriptLoaded := false; rendered := None;
     googleMapRef := None; googleMarkersRef := []; googleTempMarkerRef := None;
     leafletMapRef := None; leafletMarkersRef := []; leafletTempMarkerRef := None;
     window_google_maps := false; window_L := leafletReady;
     head_scripts := []; container := []; log := []; next := 0 |}.

Inductive reachable : MapState -> Prop :=
| reachable_unmounted b : reachable (unmounted b)
| reachable_handle e st : reachable st -> reachable (handle e st).

(** *** Observations *)

(** The backend the refs say is active. *)
Inductive BackendState := Uninitialized | CommercialActive | FallbackActive | BothActive.

Definition backendState (st : MapState) : BackendState :=
  match googleMapRef st, leafletMapRef st with
  | None, None => Uninitialized
  | Some _, None => CommercialActive
  | None, Some _ => FallbackActive
  | Some _, Some _ => BothActive
  end.

(** Does the container hold a map object of backend [b]? *)
Definition holds (b : Backend) (st : MapState) : bool :=
  existsb (fun o => Backend_eqb (backend o) b) (container st).

(** How many map objects of backend [b] the container holds. *)
Definition count (b : Backend) (st : MapState) : nat :=
  length (List.filter (fun o => Backend_eqb (backend o) b) (container st)).

(** A statement that takes [a] to [a'] constructs a map of backend [b]
    when the container gains one. *)
Definition constructs (b : Backend) (a a' : MapState) : bool :=
  Nat.ltb (count b a) (count b a').

(** The pairs of successive states of a run. *)
Fixpoint successive {A} (x : A) (l : list A) : list (A * A) :=
  match l with
  | [] => []
  | y :: rest => (x, y) :: successive y rest
  end.

(** The station-marker calls an event adds to the log: the churn. *)
Definition is_marker_call (c : LibCall) : bool :=
  match c with
  | MarkerAdd _ | MarkerRemove _ => true
  | _ => false
  end.

Definition churn (before after : MapState) : list LibCall :=
  List.filter is_marker_call (drop (length (log before)) (log after)).

End MapContainer.

(* ===================================================================== *)
(** * Vocabulary of the properties                                        *)
(* ===================================================================== *)

Open Scope list_scope.

(** A runtime for the closed examples below: it prints every number and
    every date as one fixed text. No example depends on what it prints. *)
Definition constant_runtime : JSRuntime :=
  {| Number_toString := fun _ => "0";
     Date_toISOString := fun _ => "1970-01-01T00:00:00.000Z" |}.

Definition sample_station (i n : string) : StationData :=
  {| id := i; name := n; address := "B";
     location := {| lat := 21.03%float; lng := 105.85%float |};
     description := EmptyString; images := []; timestamp := 0%float |}.

Definition one_station : list StationData := [sample_station "a" "A"].

Definition clicked : Location := {| lat := 21.03%float; lng := 105.85%float |}.

(** The application after the map is constructed in the first commit and
    the user has clicked on it at [clicked]. *)
Definition form_open : Host.State :=
  Host.run (H := constant_runtime) [Host.MapConstructed; Host.MapClicked clicked]
           (Host.mounted (App.initial ∅)).

(** The settings form with a webhook URL and no map key. *)
Definition webhook_settings : Settings.SettingsState :=
  {| Settings.mapsKey := EmptyString;
     Settings.scriptUrl := "https://script.example/exec" |}.


Definition filled_form : StationForm.FormState :=
  {| StationForm.name := "A"; StationForm.address := "B";
     StationForm.description := EmptyString; StationForm.images := [];
     StationForm.isAnalyzing := false; StationForm.isSaving := false;
     StationForm.reading := [] |}.


Definition tank_name : string := ("Tank " ++ str1 dquote ++ "A" ++ str1 dquote)%string.

Definition keep_other (i : string) (s : StationData) : bool :=
  negb (String.eqb (id s) i).

(** Reading a quoted field back: two double quotes stand for one, a single
    one is malformed. *)
Fixpoint collapse_dquote (s : string) : option string :=
  match s with
  | EmptyString => Some EmptyString
  | String c rest =>
      if Ascii.eqb c dquote then
        match rest with
        | String c' rest' =>
            if Ascii.eqb c' dquote
            then option_map (String dquote) (collapse_dquote rest')
            else None
        | EmptyString => None
        end
      else option_map (String c) (collapse_dquote rest)
  end.

(** Every timestamp of the list is a valid time value, as those that
    [Date.now()] returns are. *)
Definition valid_timestamps (l : list StationData) : Prop :=
  Forall (fun s => valid_time (timestamp s) = true) l.

Section CSVLine.
Context `{JSRuntime}.
Local Open Scope string_scope.

(** The line of one station. *)
Definition csv_line (s : StationData) : string :=
  id s ++ "," ++ sheetService.quoted (name s) ++ ","
       ++ sheetService.quoted (address s) ++ ","
       ++ Number_toString (lat (location s)) ++ ","
       ++ Number_toString (lng (location s)) ++ ","
       ++ sheetService.quoted (description s) ++ ","
       ++ Date_toISOString (timestamp s).
End CSVLine.

(** ** The images of the form *)

(** What happens to the images of a mounted form. An upload is handled by
    the handler of the latest render. *)
Inductive ImageEvent :=
| Upload (files : list string)
| LoadEnd (i : nat)
| Remove (index : nat).

Definition image_step (f : StationForm.FormState) (e : ImageEvent) : StationForm.FormState :=
  match e with
  | Upload files => StationForm.handleImageUpload f (Some files) f
  | LoadEnd i => StationForm.onloadend i f
  | Remove index => StationForm.removeImage index f
  end.

Definition image_run (events : list ImageEvent) : StationForm.FormState :=
  fold_left image_step events StationForm.mount.

(** An upload that starts while no reader is in flight. *)
Definition sequential (f : StationForm.FormState) (e : ImageEvent) : Prop :=
  match e with
  | Upload _ => StationForm.reading f = []
  | _ => True
  end.

Fixpoint all_sequential (f : StationForm.FormState) (events : list ImageEvent) : Prop :=
  match events with
  | [] => True
  | e :: rest => sequential f e /\ all_sequential (image_step f e) rest
  end.

Definition eight_files : list ImageEvent :=
  [ Upload ["a"; "b"; "c"; "d"]; Upload ["e"; "f"; "g"; "h"];
    LoadEnd 0; LoadEnd 0; LoadEnd 0; LoadEnd 0;
    LoadEnd 0; LoadEnd 0; LoadEnd 0; LoadEnd 0 ].

(** ** Marker synchronisation *)

Module MarkerSync.
Import MapContainer.

(** The backend whose marker effect passes its guard, with its map. *)
Definition active (r : Render) (st : MapState) : option (Backend * nat) :=
  if truthy (apiKey (props r)) then
    match googleMapRef st with Some g => Some (Google, g) | None => None end
  else if window_L st then
    match leafletMapRef st with Some l => Some (Leaflet, l) | None => None end
  else None.

Definition markersEffect (b : Backend) : Effect :=
  match b with Google => GoogleMarkers | Leaflet => LeafletMarkers end.

Definition markersRef (b : Backend) (st : MapState) : list Marker :=
  match b with Google => googleMarkersRef st | Leaflet => leafletMarkersRef st end.

(** The markers [forEach] creates for [l] on map [m], numbered from [n]. *)
Fixpoint markers_from (n m : nat) (l : list StationData) : list Marker :=
  match l with
  | [] => []
  | s :: rest =>
      {| marker_id := n; marker_map := m; marker_station := s |}
        :: markers_from (S n) m rest
  end.

Definition added (cb : nat) (ms : list Marker) : list LibCall :=
  flat_map (fun m => [MarkerAdd m; MarkerListen (marker_id m) cb]) ms.

End MarkerSync.

(** ** Switching between the two map backends *)

Module BackendSwitch.
Import MapContainer.

(** What the refs and the container must satisfy between two events: the
    refs are not both set, and a Leaflet map on the container is the one
    [leafletMapRef] holds. *)
Definition Inv (st : MapState) : Prop :=
  (googleMapRef st <> None -> leafletMapRef st = None) /\
  (forall o, In o (container st) -> backend o = Leaflet ->
             leafletMapRef st = Some (map_id o)).

Definition StateOK (a : MapState) : Prop := backendState a <> BothActive.

(** What one statement may do. *)
Definition PairOK (a a' : MapState) : Prop :=
  ~ (backendState a = CommercialActive /\ backendState a' = FallbackActive) /\
  ~ (backendState a = FallbackActive /\ backendState a' = CommercialActive) /\
  (constructs Google a a' = true -> holds Leaflet a = false /\ leafletMapRef a = None) /\
  (constructs Leaflet a a' = true -> googleMapRef a = None /\ leafletMapRef a = None).

Definition RunOK (a : MapState) (l : list MapState) : Prop :=
  Forall StateOK l /\ Forall (fun p => PairOK (fst p) (snd p)) (successive a l).

(** A statement that leaves the map refs and the container alone. *)
Definition frame (f : MapState -> MapState) : Prop :=
  forall a, googleMapRef (f a) = googleMapRef a /\
            leafletMapRef (f a) = leafletMapRef a /\
            container (f a) = container a.

(** Counting the maps of one backend on a container. *)
Definition cnt (b : Backend) (c : list MapObject) : nat :=
  length (List.filter (fun o => Backend_eqb (backend o) b) c).

Definition keep (l : nat) (o : MapObject) : bool :=
  negb (Backend_eqb (backend o) Leaflet && Nat.eqb (map_id o) l).

End BackendSwitch.

(** ** Scenarios *)

(** The props of two successive renders by the parent: the same key, the
    same stations array and the same selection; the callbacks are the new
    functions the parent creates on every render. *)
Definition props_of_render (n : nat) (key : string) (l : list StationData) : MapContainer.Props :=
  {| MapContainer.apiKey := key;
     MapContainer.center := App.DEFAULT_CENTER;
     MapContainer.center_ref := 0;
     MapContainer.zoom := 12%float;
     MapContainer.stations := l;
     MapContainer.stations_ref := 0;
     MapContainer.onMapClick := n;
     MapContainer.onMarkerClick := n;
     MapContainer.selectedLocation := None;
     MapContainer.selected_ref := 0 |}.

(** The component is mounted without a key (Leaflet), the key [K] is
    saved, the Google script loads (Google replaces Leaflet) and the parent
    renders once more (the Google markers are drawn). *)
Definition commercial_state : MapContainer.MapState :=
  MapContainer.handle (MapContainer.Rendered (props_of_render 2 "K" one_station))
    (MapContainer.handle MapContainer.ScriptOnload
       (MapContainer.handle (MapContainer.Rendered (props_of_render 1 "K" one_station))
          (MapContainer.handle
             (MapContainer.Rendered (props_of_render 0 EmptyString one_station))
             (MapContainer.unmounted true)))).

(** The key is cleared in the settings. *)
Definition key_cleared : MapContainer.Event :=
  MapContainer.Rendered (props_of_render 3 EmptyString one_station).

(* ===================================================================== *)
(** * Vocabulary of the further properties                                *)
(* ===================================================================== *)

(** ** The host application *)

Section HostVocabulary.
Context `{JSRuntime}.

(** The storage mirrors the state: a key that was never written goes with
    the initial value, a key that was written holds the JSON text of the
    current value. *)
Definition storage_in_sync (w : World) : Prop :=
  match getItem App.STORAGE_KEY_DATA w with
  | None => stations w = []
  | Some text => text = JSON.stringify_stations (stations w)
  end /\
  match getItem App.STORAGE_KEY_CONFIG w with
  | None => config w = config (App.initial ∅)
  | Some text => text = JSON.stringify_config (config w)
  end.

(** Every submission of a run carries an identity that no record of the
    list has at that time. *)
Fixpoint fresh_identities (events : list Host.Event) (st : Host.State) : Prop :=
  match events with
  | [] => True
  | e :: rest =>
      match e with
      | Host.SubmitForm _ uuid _ => ~ In uuid (map id (stations (Host.app st)))
      | _ => True
      end /\ fresh_identities rest (Host.handle e st)
  end.

(** The events whose handlers write: saving the settings, submitting the
    form, the rest of a submission once its request has settled, and
    deleting a record. *)
Definition writes (e : Host.Event) : bool :=
  match e with
  | Host.SaveSettings _ | Host.SubmitForm _ _ _ | Host.WebhookSettled _ _
  | Host.DeleteStation _ => true
  | _ => false
  end.

(** The suspended submission [s] saves through the [addStation] of the
    render [r]. *)
Definition saves_through (r : World) (s : Host.Pending) : Prop :=
  StationForm.onSave (Host.props s) = App.addStation r.

(** Every suspended submission saves through [addStation] of some
    render. *)
Definition inflight_ok (st : Host.State) : Prop :=
  Forall (fun s => exists r, saves_through r s) (Host.inflight st).

(** Every suspended submission saves through a render whose list, with
    the new record in front, has unique identities. *)
Definition inflight_unique (st : Host.State) : Prop :=
  Forall (fun s => exists r, saves_through r s /\
                    List.NoDup (map id (Host.record s :: stations r)))
         (Host.inflight st).


(** A storage key that is missing, or holds the empty string. *)
Definition absent_or_empty (k : string) (w : World) : Prop :=
  match getItem k w with
  | None => True
  | Some text => text = EmptyString
  end.
End HostVocabulary.

(** ** Strings *)

(** Does the character [c] occur in [s]? *)
Fixpoint has_char (c : ascii) (s : string) : bool :=
  match s with
  | EmptyString => false
  | String x rest => Ascii.eqb c x || has_char c rest
  end.

(** ** Reading a CSV line back

    A reader of one line: fields are separated by commas; a field that
    starts with a double quote runs to its closing double quote, two double
    quotes inside it standing for one; a double quote elsewhere is
    malformed ([None]). *)

Definition new_field (r : option (list string)) : option (list string) :=
  option_map (cons EmptyString) r.

Definition add_char (c : ascii) (r : option (list string)) : option (list string) :=
  match r with
  | Some (f :: fs) => Some (String c f :: fs)
  | _ => None
  end.

Fixpoint read_plain (s : string) : option (list string) :=
  match s with
  | EmptyString => Some [EmptyString]
  | String c rest =>
      if Ascii.eqb c "," then
        new_field
          match rest with
          | String c' rest' =>
              if Ascii.eqb c' dquote then read_quoted rest' else read_plain rest
          | EmptyString => read_plain rest
          end
      else if Ascii.eqb c dquote then None
      else add_char c (read_plain rest)
  end
with read_quoted (s : string) : option (list string) :=
  match s with
  | EmptyString => None
  | String c rest =>
      if Ascii.eqb c dquote then
        match rest with
        | EmptyString => Some [EmptyString]
        | String c' rest' =>
            if Ascii.eqb c' dquote then add_char dquote (read_quoted rest')
            else if Ascii.eqb c' "," then
              new_field
                match rest' with
                | String c'' rest'' =>
                    if Ascii.eqb c'' dquote then read_quoted rest'' else read_plain rest'
                | EmptyString => read_plain rest'
                end
            else None
        end
      else add_char c (read_quoted rest)
  end.

Definition read_line (s : string) : option (list string) :=
  match s with
  | String c rest => if Ascii.eqb c dquote then read_quoted rest else read_plain s
  | EmptyString => read_plain s
  end.

(** A cell that needs no quoting: no comma and no double quote in it. *)
Definition plain (s : string) : Prop :=
  has_char "," s = false /\ has_char dquote s = false.

(** ** The map container *)

Module MapFacts.
Import MapContainer.

(** The kinds of library calls: on a map as a whole (construction,
    removal, listener, tile layer), on its view, on a station marker, on
    the selection marker. *)
Inductive Kind := KMap | KView | KMarker | KTemp.

Definition kind_of (c : LibCall) : Kind :=
  match c with
  | MapNew _ | MapRemove _ | MapListen _ _ | TileLayer _ => KMap
  | MapView _ _ _ => KView
  | MarkerAdd _ | MarkerRemove _ | MarkerListen _ _ => KMarker
  | TempAdd _ | TempRemove _ => KTemp
  end.

(** The calls made between two states. *)
Definition calls_since (before after : MapState) : list LibCall :=
  drop (length (log before)) (log after).

(** A statement that only appends calls of the kinds [ks] to the log. *)
Definition emits (ks : list Kind) (f : MapState -> MapState) : Prop :=
  forall a, exists calls,
    log (f a) = log a ++ calls /\ Forall (fun c => In (kind_of c) ks) calls.

(** A statement that leaves the flags, the map refs, the container, the
    scripts and the committed render alone. *)
Definition inert (f : MapState -> MapState) : Prop :=
  forall a,
    googleScriptLoaded (f a) = googleScriptLoaded a /\
    window_google_maps (f a) = window_google_maps a /\
    window_L (f a) = window_L a /\
    googleMapRef (f a) = googleMapRef a /\
    leafletMapRef (f a) = leafletMapRef a /\
    container (f a) = container a /\
    head_scripts (f a) = head_scripts a /\
    rendered (f a) = rendered a.

(** The map of the backend that the key of [p] selects is constructed. *)
Definition live (p : Props) (st : MapState) : bool :=
  if truthy (apiKey p)
  then match googleMapRef st with Some _ => true | None => false end
  else match leafletMapRef st with Some _ => true | None => false end.

(** The effects that draw the station markers. *)
Definition is_markers_effect (e : Effect) : bool :=
  match e with
  | GoogleMarkers | LeafletMarkers => true
  | _ => false
  end.

(** The kinds of calls an effect makes. *)
Definition kinds (e : Effect) : list Kind :=
  match e with
  | LoadScript => []
  | InitGoogle | InitLeaflet => [KMap; KView]
  | PanGoogle | PanLeaflet => [KView]
  | GoogleMarkers | LeafletMarkers => [KMarker]
  | GoogleTemp | LeafletTemp => [KTemp]
  end.

(** From [a] to [a'] the log grows by calls that satisfy [Q]. *)
Definition grows (Q : LibCall -> Prop) (a a' : MapState) : Prop :=
  exists calls, log a' = log a ++ calls /\ Forall Q calls.

(** The script flag is set only once the library is there, and a Google
    map is held only once the flag is set. *)
Definition library_before_map (st : MapState) : Prop :=
  (googleScriptLoaded st = true -> window_google_maps st = true) /\
  (googleMapRef st <> None -> googleScriptLoaded st = true).
End MapFacts.

(* ===================================================================== *)
(** * Properties                                                          *)
(* ===================================================================== *)

(** ** Strings *)

Lemma append_assoc (a b c : string) : ((a ++ b) ++ c = a ++ (b ++ c))%string.
Proof. induction a as [|x a IH]; simpl; [reflexivity | now rewrite IH]. Qed.

Lemma truthy_true_inv (s : string) :
  truthy s = true -> exists c t, s = String c t.
Proof. destruct s as [|c t]; [discriminate | eauto]. Qed.

(** ** Deleting a station *)

Section Delete.
Context `{JSRuntime}.

Lemma filter_absent (i : string) (l : list StationData) :
  ~ In i (map id l) -> List.filter (keep_other i) l = l.
Proof.
  induction l as [|x l IH]; simpl; intros Hn; [reflexivity|].
  unfold keep_other at 1.
  destruct (String.eqb_spec (id x) i) as [E|E]; simpl.
  - exfalso. apply Hn. now left.
  - f_equal. apply IH. intros Hin. apply Hn. now right.
Qed.

Lemma filter_present (i : string) (l : list StationData) :
  List.NoDup (map id l) -> In i (map id l) ->
  exists before s after,
    l = before ++ s :: after /\ id s = i /\
    ~ In i (map id before) /\ ~ In i (map id after) /\
    List.filter (keep_other i) l = before ++ after.
Proof.
  induction l as [|x l IH]; simpl; intros Hnd Hin; [contradiction|].
  apply List.NoDup_cons_iff in Hnd as [Hx Hnd].
  unfold keep_other at 1.
  destruct (String.eqb_spec (id x) i) as [E|E]; simpl.
  - exists [], x, l. subst i. repeat split; auto.
    now rewrite filter_absent.
  - destruct Hin as [Hin|Hin]; [contradiction|].
    destruct (IH Hnd Hin) as (b & s & a & -> & Hs & Hb & Ha & Hf).
    exists (x :: b), s, a. simpl. repeat split; auto.
    + intros [E'|E']; auto.
    + now rewrite Hf.
Qed.

(** C4. In a list whose identities are unique, deleting by an identity
    that is present removes exactly the entry that carries it: the list
    was [before ++ s :: after] with [s] the only entry of that identity,
    it becomes [before ++ after] (one entry fewer, the others in their
    order), and the storage holds the serialized result. *)
Theorem deleteStation_removes_exactly_one (w : World) (i : string) :
  List.NoDup (map id (stations w)) ->
  In i (map id (stations w)) ->
  exists before s after,
    stations w = before ++ s :: after /\
    id s = i /\
    ~ In i (map id before) /\ ~ In i (map id after) /\
    stations (App.deleteStation w i w) = before ++ after /\
    S (length (stations (App.deleteStation w i w))) = length (stations w) /\
    getItem App.STORAGE_KEY_DATA (App.deleteStation w i w)
      = Some (JSON.stringify_stations (before ++ after)).
Proof.
  intros Hnd Hin.
  destruct (filter_present i (stations w) Hnd Hin) as (b & s & a & El & Hs & Hb & Ha & Hf).
  exists b, s, a.
  assert (Hst : stations (App.deleteStation w i w) = b ++ a) by exact Hf.
  repeat split; auto.
  - rewrite Hst, El. rewrite !length_app. simpl. lia.
  - unfold getItem, App.deleteStation, setItem; simpl.
    fold (keep_other i). rewrite Hf. apply lookup_insert_eq.
Qed.
End Delete.

Lemma deleteStation_removes_exactly_one_witness :
  let w := setStations [sample_station "a" "A"; sample_station "b" "B"; sample_station "c" "C"]
                       (App.initial ∅) in
  exists before s after,
    stations w = before ++ s :: after /\
    id s = "b" /\
    ~ In "b" (map id before) /\ ~ In "b" (map id after) /\
    stations (App.deleteStation (H := constant_runtime) w "b" w) = before ++ after /\
    S (length (stations (App.deleteStation (H := constant_runtime) w "b" w))) = length (stations w) /\
    getItem App.STORAGE_KEY_DATA (App.deleteStation (H := constant_runtime) w "b" w)
      = Some (JSON.stringify_stations (H := constant_runtime) (before ++ after)).
Proof.
  intros w.
  apply (deleteStation_removes_exactly_one (H := constant_runtime) w "b").
  - simpl. repeat constructor; simpl; intuition discriminate.
  - simpl. auto.
Defined.

(** ** Submitting the station form *)

Section Submit.
Context `{JSRuntime}.

Lemma renderSidebar_form (w : World) (s : Location) :
  selectedLocation w = Some s -> currentView w = MAP ->
  App.renderSidebar w = App.StationFormPanel s (googleSheetScriptUrl (config w)).
Proof. intros Hs Hv. unfold App.renderSidebar. now rewrite Hs, Hv. Qed.

(** The two halves of [handleSubmit] give the whole when nothing happens
    between them. *)
Lemma handleSubmit_uninterrupted (p : StationForm.Props) (r f : StationForm.FormState)
      (uuid : string) (now : number) (o : sheetService.FetchOutcome) (w : World) :
  StationForm.handleSubmit p r uuid now o (f, w)
  = match StationForm.handleSubmit_click p r uuid now (f, w) with
    | StationForm.Completed fw => (Normal tt, fw)
    | StationForm.Suspended station fw => StationForm.handleSubmit_resume p station o fw
    end.
Proof.
  unfold StationForm.handleSubmit, StationForm.handleSubmit_click,
    StationForm.handleSubmit_resume, sheetService.saveToGoogleSheetScript,
    sheetService.save_body, sheetService.save_settled, sheetService.save_request.
  destruct (truthy (StationForm.scriptUrl p)); cbn [negb]; [destruct o|]; reflexivity.
Qed.

(** An uninterrupted submission is [handleSubmit] run in one go on the
    state of the latest render. *)
Lemma submit_uninterrupted (st : Host.State) (s : Location) (f : StationForm.FormState)
      (uuid : string) (now : number) (o : sheetService.FetchOutcome) :
  selectedLocation (Host.app st) = Some s -> currentView (Host.app st) = MAP ->
  let w := Host.app st in
  let p := Host.formProps w s (googleSheetScriptUrl (config w)) in
  Host.app (Host.submit f uuid now o st)
    = snd (snd (StationForm.handleSubmit p f uuid now o (f, w))) /\
  Host.mapListener (Host.submit f uuid now o st) = Host.mapListener st /\
  Host.inflight (Host.submit f uuid now o st) = Host.inflight st.
Proof.
  intros Hs Hv w p. unfold Host.submit.
  rewrite handleSubmit_uninterrupted.
  cbn [Host.handle]. rewrite (renderSidebar_form _ s Hs Hv). fold w. fold p.
  unfold StationForm.handleSubmit_click.
  destruct (truthy (StationForm.scriptUrl p)) eqn:Eu.
  - cbn [Host.app Host.inflight Host.mapListener].
    rewrite list_lookup_middle by reflexivity.
    cbn [Host.props Host.record Host.form Host.app Host.inflight Host.mapListener].
    rewrite delete_middle, app_nil_r. repeat split.
  - cbn [Host.app Host.inflight Host.mapListener Host.setApp].
    rewrite lookup_ge_None_2 by (cbn; lia). repeat split.
Qed.

(** What an uninterrupted submission leaves, whatever the webhook
    does. *)
Lemma submit_world (st : Host.State) (s : Location) (f : StationForm.FormState)
      (uuid : string) (now : number) (o : sheetService.FetchOutcome) :
  selectedLocation (Host.app st) = Some s -> currentView (Host.app st) = MAP ->
  let w := Host.app st in
  let w' := Host.app (Host.submit f uuid now o st) in
  let r := StationForm.newStation
             (Host.formProps w s (googleSheetScriptUrl (config w))) f uuid now in
  stations w' = r :: stations w /\
  selectedLocation w' = None /\
  currentView w' = LIST /\
  config w' = config w /\
  localStorage w'
    = <[App.STORAGE_KEY_DATA := JSON.stringify_stations (r :: stations w)]> (localStorage w).
Proof.
  intros Hs Hv w w' r. unfold w'.
  destruct (submit_uninterrupted st s f uuid now o Hs Hv) as (-> & _ & _). fold w.
  unfold StationForm.handleSubmit, sheetService.saveToGoogleSheetScript,
    sheetService.save_body.
  cbn [StationForm.scriptUrl Host.formProps StationForm.onSave].
  destruct (truthy (googleSheetScriptUrl (config w))); cbn [negb];
    [destruct o|]; cbn; auto.
Qed.

(** [addStation] and [deleteStation] start from the list of the render
    that created them, not from the live list: a handler that runs after
    the list has changed (the webhook call of [handleSubmit] is awaited
    first) writes back the list it captured. *)
Lemma handlers_use_render_list (r w : World) (station : StationData) (i : string) :
  stations (App.addStation r station w) = station :: stations r /\
  stations (App.deleteStation r i w)
    = List.filter (fun s => negb (String.eqb (id s) i)) (stations r).
Proof. split; reflexivity. Qed.

End Submit.



(** ** What the sidebar shows *)

Section Sidebar.
Context `{JSRuntime}.

(** C7, as the code has it. With a selection [loc], the sidebar shows the
    station form bound to [loc] when the stored view mode is [MAP]; it
    shows the settings when the mode is [SETTINGS] and the list when the
    mode is [LIST]. *)
Theorem renderSidebar_with_selection (r : World) (loc : Location) :
  selectedLocation r = Some loc ->
  App.renderSidebar r =
    match currentView r with
    | MAP => App.StationFormPanel loc (googleSheetScriptUrl (config r))
    | LIST => App.StationListPanel (stations r)
    | SETTINGS => App.SettingsPanel (config r)
    end.
Proof.
  intros Hs. unfold App.renderSidebar. rewrite Hs.
  destruct (currentView r); reflexivity.
Qed.
End Sidebar.

Lemma renderSidebar_with_selection_witness :
  let r := Host.app form_open in
  App.renderSidebar r =
    match currentView r with
    | MAP => App.StationFormPanel clicked (googleSheetScriptUrl (config r))
    | LIST => App.StationListPanel (stations r)
    | SETTINGS => App.SettingsPanel (config r)
    end.
Proof.
  intros r. apply (renderSidebar_with_selection r clicked). reflexivity.
Defined.

(** C7, as stated, fails: after a click on the map and a click on the
    settings button the selection is set and the sidebar shows the
    settings; after the list is opened and the position of the device is
    taken as the selection, the sidebar still shows the list. *)
Lemma selection_does_not_force_form :
  let st1 := Host.run (H := constant_runtime)
               [Host.MapConstructed; Host.MapClicked clicked; Host.OpenSettings]
               (Host.mounted (App.initial ∅)) in
  let st2 := Host.run (H := constant_runtime)
               [Host.ViewList; Host.LocateMe (App.GeoPosition 21.03%float 105.85%float)]
               (Host.mounted (App.initial ∅)) in
  let w1 := Host.app st1 in
  let w2 := Host.app st2 in
  Host.reachable (H := constant_runtime) st1 /\
  selectedLocation w1 = Some clicked /\
  App.renderSidebar w1 = App.SettingsPanel (config w1) /\
  Host.reachable (H := constant_runtime) st2 /\
  selectedLocation w2 = Some clicked /\
  App.renderSidebar w2 = App.StationListPanel (stations w2).
Proof.
  intros st1 st2 w1 w2. repeat split.
  - unfold st1; cbn [Host.run fold_left]. do 3 apply Host.reachable_step. apply Host.reachable_initial.
  - unfold st2; cbn [Host.run fold_left]. do 2 apply Host.reachable_step. apply Host.reachable_initial.
Qed.

(** ** The webhook *)

Section Webhook.
Context `{JSRuntime}.

(** The webhook call never completes abruptly. *)
Lemma saveToGoogleSheetScript_normal (station : StationData) (url : string)
      (o : sheetService.FetchOutcome) (w : World) :
  exists b, fst (sheetService.saveToGoogleSheetScript station url o w) = Normal b.
Proof.
  unfold sheetService.saveToGoogleSheetScript, sheetService.save_body.
  destruct (truthy url); cbn [negb]; [destruct o|]; cbn; eauto.
Qed.

End Webhook.


(** ** The captioning call *)

Section Captioning.
Context `{JSRuntime}.

(** C10. [generateStationDescription] always completes normally with a
    string; with no image it returns the fixed fallback text, logs the
    error and issues no call. *)
Theorem generateStationDescription_total
        (base64Images : list string) (loc : Location)
        (o : geminiService.GenOutcome) (w : World) :
  (exists s,
     fst (geminiService.generateStationDescription base64Images loc o w) = Normal s) /\
  fst (geminiService.generateStationDescription [] loc o w)
    = Normal "Could not generate description via AI. Please try again." /\
  network (snd (geminiService.generateStationDescription [] loc o w)) = network w /\
  console (snd (geminiService.generateStationDescription [] loc o w))
    = console w ++ ["Gemini Analysis Error: No images provided for analysis."].
Proof.
  repeat split.
  unfold geminiService.generateStationDescription, geminiService.generate_body.
  destruct base64Images as [|img rest]; [cbn; eauto|].
  destruct o as [[[|c t]|]|err]; cbn; eauto.
Qed.
End Captioning.

(** ** Configuration through the storage *)

Module JSONFacts.
Import JSON.
Local Open Scope string_scope.

Lemma parse_quote_char (c : ascii) (t : string) :
  parse_chars (quote_char c ++ t) = push c (parse_chars t).
Proof. destruct c as [[] [] [] [] [] [] [] []]; reflexivity. Qed.

Lemma parse_quote_body (s t : string) :
  parse_chars (quote_body s ++ String dquote t) = Some (s, t).
Proof.
  induction s as [|c s IH]; simpl; [reflexivity|].
  now rewrite append_assoc, parse_quote_char, IH.
Qed.

Lemma quote_app (s t : string) :
  quote s ++ t = String dquote (quote_body s ++ String dquote t).
Proof. unfold quote. simpl. now rewrite append_assoc. Qed.

(** Reading back a string value that [JSON.stringify] wrote. *)
Lemma parse_string_quote (s t : string) :
  parse_string (skip_ws (quote s ++ t)) = Some (s, t).
Proof. rewrite quote_app. cbn. apply parse_quote_body. Qed.

Lemma members_comma (n : nat) (k v t : string) (acc : list (string * string)) :
  parse_members (S n) (quote k ++ ":" ++ quote v ++ "," ++ t) acc
  = parse_members n t ((k, v) :: acc).
Proof.
  cbn [parse_members]. rewrite parse_string_quote.
  cbn [skip_ws String.append]. change (is_ws ":"%char) with false. cbv iota.
  rewrite parse_string_quote.
  cbn [skip_ws String.append]. change (is_ws ","%char) with false. cbv iota.
  reflexivity.
Qed.

Lemma members_last (n : nat) (k v : string) (acc : list (string * string)) :
  parse_members (S n) (quote k ++ ":" ++ quote v ++ "}") acc
  = Some (rev ((k, v) :: acc)).
Proof.
  cbn [parse_members]. rewrite parse_string_quote.
  cbn [skip_ws String.append]. change (is_ws ":"%char) with false. cbv iota.
  rewrite parse_string_quote.
  cbn [skip_ws String.append]. change (is_ws "}"%char) with false. cbv iota.
  reflexivity.
Qed.

Lemma parse_stringify_config (c : AppConfig) :
  parse_config (stringify_config c) = Some c.
Proof.
  destruct c as [k u]. unfold parse_config, parse_object, stringify_config.
  cbn [googleMapsApiKey googleSheetScriptUrl].
  set (body := quote "googleMapsApiKey" ++ ":" ++ quote k ++ ","
               ++ quote "googleSheetScriptUrl" ++ ":" ++ quote u ++ "}").
  change ("{" ++ body) with (String "{" body).
  cbn [skip_ws]. change (is_ws "{"%char) with false. cbv iota.
  assert (Hb : exists t, body = String dquote t).
  { unfold body. rewrite quote_app. eauto. }
  destruct Hb as [t Hb].
  assert (Hskip : skip_ws body = String dquote t).
  { rewrite Hb. cbn [skip_ws]. now change (is_ws dquote) with false. }
  rewrite Hskip.
  change (match String dquote t with
          | String "}"%char r' =>
              match skip_ws r' with EmptyString => Some [] | String _ _ => None end
          | _ => parse_members (String.length (String "{" body)) body []
          end)
    with (parse_members (String.length (String "{" body)) body []).
  assert (Hlen : exists n, String.length (String "{" body) = S (S n)).
  { rewrite Hb. cbn [String.length]. eauto. }
  destruct Hlen as [n ->].
  unfold body. rewrite members_comma, members_last.
  reflexivity.
Qed.
End JSONFacts.

Section ConfigRoundTrip.
Context `{JSRuntime}.
Variable JSON_parse_stations : string -> option (list StationData).

(** C6. Saving a configuration writes its JSON text under the
    configuration key; [JSON.parse] reads that text back to the same two
    strings; and the load effect of a fresh start over the storage so
    written sets the configuration to the saved one, unless the record
    list found in the storage does not parse, in which case the effect
    throws. *)
Theorem config_round_trip (w : World) (key url : string) :
  let c := {| googleMapsApiKey := key; googleSheetScriptUrl := url |} in
  let saved := App.updateConfig c w in
  config saved = c /\
  getItem App.STORAGE_KEY_CONFIG saved = Some (JSON.stringify_config c) /\
  JSON.parse_config (JSON.stringify_config c) = Some c /\
  match App.loadPersisted JSON_parse_stations (App.initial (localStorage saved)) with
  | Normal w' =>
      googleMapsApiKey (config w') = key /\ googleSheetScriptUrl (config w') = url
  | Throw _ =>
      exists data, getItem App.STORAGE_KEY_DATA w = Some data /\
                   JSON_parse_stations data = None
  end.
Proof.
  intros c saved.
  assert (Hget : getItem App.STORAGE_KEY_CONFIG saved = Some (JSON.stringify_config c)).
  { unfold saved, getItem, App.updateConfig, setItem; simpl. apply lookup_insert_eq. }
  assert (Hdata : getItem App.STORAGE_KEY_DATA
                     (setConfig c (App.initial (localStorage saved)))
                   = getItem App.STORAGE_KEY_DATA w).
  { unfold saved, getItem, App.updateConfig, setItem; simpl.
    apply lookup_insert_ne. discriminate. }
  repeat split; auto.
  - apply JSONFacts.parse_stringify_config.
  - unfold App.loadPersisted.
    change (getItem App.STORAGE_KEY_CONFIG (App.initial (localStorage saved)))
      with (getItem App.STORAGE_KEY_CONFIG saved).
    rewrite Hget.
    change (truthy (JSON.stringify_config c)) with true. cbv iota.
    rewrite JSONFacts.parse_stringify_config.
    rewrite Hdata.
    destruct (getItem App.STORAGE_KEY_DATA w) as [data|]; [|now split].
    destruct (truthy data); [|now split].
    destruct (JSON_parse_stations data) as [l|] eqn:E; [now split|].
    eauto.
Qed.
End ConfigRoundTrip.

(** ** CSV export *)

Lemma collapse_replace_dquote (s : string) :
  collapse_dquote (replace_dquote s) = Some s.
Proof.
  induction s as [|c s IH]; [reflexivity|].
  cbn [replace_dquote].
  destruct (Ascii.eqb c dquote) eqn:E.
  - apply Ascii.eqb_eq in E. subst c.
    cbn [collapse_dquote]. rewrite Ascii.eqb_refl, IH. reflexivity.
  - cbn [collapse_dquote]. rewrite E, IH. reflexivity.
Qed.

Section CSV.
Context `{JSRuntime}.
Local Open Scope string_scope.

Lemma row_valid (s : StationData) :
  valid_time (timestamp s) = true ->
  sheetService.row s
    = Normal [ id s;
               sheetService.quoted (name s);
               sheetService.quoted (address s);
               Number_toString (lat (location s));
               Number_toString (lng (location s));
               sheetService.quoted (description s);
               Date_toISOString (timestamp s) ]%list.
Proof. intros Hv. unfold sheetService.row, toISOString. now rewrite Hv. Qed.

Lemma row_invalid (s : StationData) :
  valid_time (timestamp s) = false ->
  sheetService.row s = Throw "RangeError: Invalid time value".
Proof. intros Hv. unfold sheetService.row, toISOString. now rewrite Hv. Qed.

Lemma rows_valid (stations : list StationData) :
  valid_timestamps stations ->
  sheetService.rows stations
    = Normal (map (fun s => [ id s;
                              sheetService.quoted (name s);
                              sheetService.quoted (address s);
                              Number_toString (lat (location s));
                              Number_toString (lng (location s));
                              sheetService.quoted (description s);
                              Date_toISOString (timestamp s) ]%list) stations).
Proof.
  induction 1 as [|s l Hs _ IH]; [reflexivity|].
  cbn [sheetService.rows]. rewrite (row_valid s Hs), IH. reflexivity.
Qed.

Lemma rows_invalid (stations : list StationData) :
  ~ valid_timestamps stations ->
  sheetService.rows stations = Throw "RangeError: Invalid time value".
Proof.
  induction stations as [|s l IH]; intros Hn.
  - elim Hn. constructor.
  - cbn [sheetService.rows].
    destruct (valid_time (timestamp s)) eqn:Hs.
    + rewrite (row_valid s Hs). cbn [bind]. rewrite IH; [reflexivity|].
      intros Hl. apply Hn. now constructor.
    + now rewrite (row_invalid s Hs).
Qed.

Lemma rows_completion (stations : list StationData) :
  sheetService.rows stations = Throw "RangeError: Invalid time value"
  \/ exists rs, sheetService.rows stations = Normal rs.
Proof.
  induction stations as [|s l IH]; [right; eexists; reflexivity|].
  cbn [sheetService.rows].
  destruct (valid_time (timestamp s)) eqn:Hs.
  - rewrite (row_valid s Hs). cbn [bind].
    destruct IH as [-> | [rs ->]]; [now left | right; eexists; reflexivity].
  - rewrite (row_invalid s Hs). now left.
Qed.

Lemma exportToCSV_valid (stations : list StationData) (today : number) :
  valid_timestamps stations ->
  valid_time today = true ->
  sheetService.exportToCSV stations today
    = Normal ("stations_export_" ++ String.substring 0 10 (Date_toISOString today)
                                 ++ ".csv",
              join (str1 newline)
                   ("ID,Name,Address,Latitude,Longitude,Description,Timestamp"
                      :: map csv_line stations)).
Proof.
  intros Hv Ht.
  unfold sheetService.exportToCSV, sheetService.csvContent, toISOString.
  rewrite (rows_valid stations Hv), Ht. cbn [bind]. do 3 f_equal.
  rewrite map_map. apply (f_equal (cons _)). apply map_ext. intros s. reflexivity.
Qed.

(** C5, as the code has it. On a list whose timestamps are valid time
    values, the export has one row per record, with the cells ID, name,
    address, latitude, longitude, description and the ISO timestamp in
    this order, under one header line. The name, the address and the
    description are wrapped in double quotes with their own double quotes
    doubled (so that collapsing the doubled quotes gives the field back);
    the ID and the timestamp are written as they are, without quotes. *)
Theorem exportToCSV_rows (stations : list StationData) (today : number) :
  valid_timestamps stations ->
  valid_time today = true ->
  exists rs,
    sheetService.rows stations = Normal rs /\
    length rs = length stations /\
    rs = map (fun s => [ id s;
                         sheetService.quoted (name s);
                         sheetService.quoted (address s);
                         Number_toString (lat (location s));
                         Number_toString (lng (location s));
                         sheetService.quoted (description s);
                         Date_toISOString (timestamp s) ]%list) stations /\
    sheetService.exportToCSV stations today
      = Normal ("stations_export_" ++ String.substring 0 10 (Date_toISOString today)
                                   ++ ".csv",
                join (str1 newline)
                     ("ID,Name,Address,Latitude,Longitude,Description,Timestamp"
                        :: map csv_line stations)) /\
    (forall field,
       sheetService.quoted field = String dquote (replace_dquote field ++ str1 dquote) /\
       collapse_dquote (replace_dquote field) = Some field) /\
    sheetService.quoted tank_name
      = String dquote ("Tank " ++ String dquote (String dquote
                         ("A" ++ String dquote (String dquote (str1 dquote))))).
Proof.
  intros Hv Ht. eexists. split; [exact (rows_valid stations Hv)|].
  split; [apply length_map|].
  split; [reflexivity|].
  split; [exact (exportToCSV_valid stations today Hv Ht)|].
  split; [|reflexivity].
  intros field. split; [reflexivity | apply collapse_replace_dquote].
Qed.

(** X24. The export throws exactly when the timestamp of a record, or the
    clock, is not a valid time value: a RangeError of [toISOString] that
    nothing catches; no file is offered then. *)
Theorem exportToCSV_throws (stations : list StationData) (today : number) :
  (sheetService.exportToCSV stations today = Throw "RangeError: Invalid time value"
   <-> ~ (valid_timestamps stations /\ valid_time today = true)) /\
  (forall s before after,
     stations = (before ++ s :: after)%list ->
     valid_time (timestamp s) = false ->
     sheetService.exportToCSV stations today = Throw "RangeError: Invalid time value").
Proof.
  assert (A : sheetService.exportToCSV stations today
              = Throw "RangeError: Invalid time value"
              <-> ~ (valid_timestamps stations /\ valid_time today = true)).
  { split.
    - intros E [Hv Ht].
      rewrite (exportToCSV_valid stations today Hv Ht) in E. discriminate.
    - intros Hn. unfold sheetService.exportToCSV, sheetService.csvContent.
      destruct (valid_time today) eqn:Ht.
      + rewrite rows_invalid; [reflexivity|]. intros Hv. now apply Hn.
      + destruct (rows_completion stations) as [-> | [rs ->]]; cbn [bind];
          [reflexivity|].
        unfold toISOString. now rewrite Ht. }
  split; [exact A|].
  intros s before after -> Hs. apply A. intros [Hv _].
  unfold valid_timestamps in Hv. rewrite Forall_app, Forall_cons in Hv.
  destruct Hv as (_ & Hs' & _). congruence.
Qed.
End CSV.

Lemma exportToCSV_rows_witness :
  let stations := [sample_station "a" tank_name; sample_station "b" "B"] in
  exists rs,
    sheetService.rows (H := constant_runtime) stations = Normal rs /\
    length rs = length stations /\
    rs = map (fun s => [ id s;
                         sheetService.quoted (name s);
                         sheetService.quoted (address s);
                         Number_toString (JSRuntime := constant_runtime) (lat (location s));
                         Number_toString (JSRuntime := constant_runtime) (lng (location s));
                         sheetService.quoted (description s);
                         Date_toISOString (JSRuntime := constant_runtime) (timestamp s) ])
             stations /\
    sheetService.exportToCSV (H := constant_runtime) stations 0%float
      = Normal (("stations_export_"
                 ++ String.substring 0 10
                      (Date_toISOString (JSRuntime := constant_runtime) 0%float)
                 ++ ".csv")%string,
                join (str1 newline)
                     ("ID,Name,Address,Latitude,Longitude,Description,Timestamp"
                        :: map (csv_line (H := constant_runtime)) stations)) /\
    (forall field,
       sheetService.quoted field = String dquote (replace_dquote field ++ str1 dquote) /\
       collapse_dquote (replace_dquote field) = Some field) /\
    sheetService.quoted tank_name
      = String dquote ("Tank " ++ String dquote (String dquote
                         ("A" ++ String dquote (String dquote (str1 dquote)))))%string.
Proof.
  intros stations.
  apply (exportToCSV_rows (H := constant_runtime) stations 0%float).
  - repeat constructor.
  - reflexivity.
Defined.

(** C5, as stated, fails on the ID, which is a string field: the row of a
    record whose identity is [x] starts with the cell [x], not with that
    text in double quotes, and so does its line. *)
Lemma exportToCSV_id_is_not_quoted :
  let s := sample_station "x" tank_name in
  exists cells,
    sheetService.row (H := constant_runtime) s = Normal cells /\
    nth_error cells 0 = Some "x" /\
    nth_error cells 0 <> Some (sheetService.quoted "x") /\
    sheetService.exportToCSV (H := constant_runtime) [s] 0%float
      = Normal ("stations_export_1970-01-01.csv",
                ("ID,Name,Address,Latitude,Longitude,Description,Timestamp"
                 ++ str1 newline
                 ++ "x," ++ sheetService.quoted tank_name ++ ","
                 ++ sheetService.quoted "B" ++ ",0,0," ++ sheetService.quoted EmptyString
                 ++ ",1970-01-01T00:00:00.000Z")%string).
Proof.
  intros s. eexists. split; [reflexivity|]. repeat split. discriminate.
Qed.

(** ** The images of the form *)

Lemma slice0_length {A} (files : list A) (e : Z) :
  (0 <= e)%Z -> (Z.of_nat (length (StationForm.slice0 files e)) <= e)%Z.
Proof.
  intros He. unfold StationForm.slice0.
  destruct (Z.ltb_spec e 0); [lia|].
  rewrite length_take. lia.
Qed.

Lemma filteri_length {A} (p : nat -> bool) (i0 : nat) (l : list A) :
  length (StationForm.filteri p i0 l) <= length l.
Proof.
  revert i0. induction l as [|x l IH]; intros i0; simpl; [lia|].
  destruct (p i0); simpl; specialize (IH (S i0)); lia.
Qed.

Lemma image_step_bound (f : StationForm.FormState) (e : ImageEvent) :
  sequential f e ->
  length (StationForm.images f) + length (StationForm.reading f) <= 4 ->
  length (StationForm.images (image_step f e))
  + length (StationForm.reading (image_step f e)) <= 4.
Proof.
  intros Hseq Hb. destruct e as [files|i|index]; simpl in *.
  - rewrite Hseq in *. simpl in *.
    pose proof (slice0_length files (4 - Z.of_nat (length (StationForm.images f)))).
    lia.
  - unfold StationForm.onloadend.
    destruct (StationForm.reading f !! i) as [result|] eqn:E; simpl; [|lia].
    rewrite length_app. simpl.
    pose proof (length_delete (StationForm.reading f) i (mk_is_Some _ _ E)) as Hd.
    apply lookup_lt_Some in E. lia.
  - pose proof (filteri_length (fun i => negb (Nat.eqb i index)) 0 (StationForm.images f)).
    lia.
Qed.

(** When every upload starts after the readers of the previous one have
    finished, the form never holds more than four images. *)
Lemma images_bound_sequential (events : list ImageEvent) :
  all_sequential StationForm.mount events ->
  length (StationForm.images (image_run events)) <= 4.
Proof.
  unfold image_run.
  assert (G : forall f, all_sequential f events ->
              length (StationForm.images f) + length (StationForm.reading f) <= 4 ->
              length (StationForm.images (fold_left image_step events f)) <= 4).
  { induction events as [|e rest IH]; intros f Hs Hb; simpl in *; [lia|].
    destruct Hs as [Hse Hs]. apply IH; [assumption|].
    now apply image_step_bound. }
  intros Hs. apply G; [assumption | simpl; lia].
Qed.

(** C9 fails on the code. [handleImageUpload] counts the free slots from
    the images already loaded and ignores the readers still in flight: a
    second upload of four files that arrives before the four readers of
    the first have finished is accepted whole, the form ends with eight
    images and the record submitted from it carries all eight. *)
Theorem two_uploads_exceed_four_images :
  StationForm.images (image_run eight_files) = ["a"; "b"; "c"; "d"; "e"; "f"; "g"; "h"] /\
  length (StationForm.images (image_run eight_files)) = 8 /\
  let p := Host.formProps (H := constant_runtime) (App.initial ∅) clicked EmptyString in
  length (images (StationForm.newStation p (image_run eight_files) "id-1" 0%float)) = 8.
Proof. repeat split. Qed.

(** ** Marker synchronisation *)

Module MarkerSyncFacts.
Import MapContainer MarkerSync.

Lemma markers_from_station (n m : nat) (l : list StationData) :
  map marker_station (markers_from n m l) = l.
Proof. revert n. induction l as [|s l IH]; intros n; simpl; [|rewrite IH]; reflexivity. Qed.

Lemma markers_from_length (n m : nat) (l : list StationData) :
  length (markers_from n m l) = length l.
Proof. revert n. induction l as [|s l IH]; intros n; simpl; [|rewrite IH]; reflexivity. Qed.

Lemma markers_from_fresh (n m : nat) (l : list StationData) :
  Forall (fun x => n <= marker_id x) (markers_from n m l).
Proof.
  revert n. induction l as [|s l IH]; intros n; simpl; constructor; simpl; [lia|].
  eapply Forall_impl; [apply (IH (S n))|]. simpl. intros; lia.
Qed.

Lemma exec_app (a b : list (MapState -> MapState)) (st : MapState) :
  exec (a ++ b) st = exec b (exec a st).
Proof. apply fold_left_app. Qed.

Lemma exec_removals (ms : list Marker) (st : MapState) :
  exec (map marker_remove ms) st = set_log (log st ++ map MarkerRemove ms) st.
Proof.
  revert st. induction ms as [|m ms IH]; intros st.
  - destruct st; cbn. now rewrite app_nil_r.
  - cbn [map exec fold_left]. fold (exec (map marker_remove ms)). rewrite IH.
    destruct st; cbn. now rewrite <- app_assoc.
Qed.

Lemma exec_google_markers (g : nat) (r : Render) (l : list StationData) (st : MapState) :
  exec (map (google_marker g r) l) st
  = set_next (next st + length l)
      (set_googleMarkersRef (googleMarkersRef st ++ markers_from (next st) g l)
         (set_log (log st ++ added (onMarkerClick (props r)) (markers_from (next st) g l)) st)).
Proof.
  revert st. induction l as [|s l IH]; intros st.
  - destruct st; cbn. now rewrite !app_nil_r, Nat.add_0_r.
  - cbn [map exec fold_left]. fold (exec (map (google_marker g r) l)). rewrite IH.
    destruct st; cbn. rewrite <- !app_assoc. cbn.
    now rewrite Nat.add_succ_r.
Qed.

Lemma exec_leaflet_markers (m : nat) (r : Render) (l : list StationData) (st : MapState) :
  exec (map (leaflet_marker m r) l) st
  = set_next (next st + length l)
      (set_leafletMarkersRef (leafletMarkersRef st ++ markers_from (next st) m l)
         (set_log (log st ++ added (onMarkerClick (props r)) (markers_from (next st) m l)) st)).
Proof.
  revert st. induction l as [|s l IH]; intros st.
  - destruct st; cbn. now rewrite !app_nil_r, Nat.add_0_r.
  - cbn [map exec fold_left]. fold (exec (map (leaflet_marker m r) l)). rewrite IH.
    destruct st; cbn. rewrite <- !app_assoc. cbn.
    now rewrite Nat.add_succ_r.
Qed.

Lemma filter_removed (ms : list Marker) :
  List.filter is_marker_call (map MarkerRemove ms) = map MarkerRemove ms.
Proof. induction ms as [|m ms IH]; simpl; [|rewrite IH]; reflexivity. Qed.

Lemma filter_added (cb : nat) (ms : list Marker) :
  List.filter is_marker_call (added cb ms) = map MarkerAdd ms.
Proof. induction ms as [|m ms IH]; simpl; [|rewrite IH]; reflexivity. Qed.

Lemma churn_appended (st st' : MapState) (calls : list LibCall) :
  log st' = log st ++ calls -> churn st st' = List.filter is_marker_call calls.
Proof. intros E. unfold churn. now rewrite E, drop_app_length. Qed.

(** The stations effect of backend [b], run from [st]. *)
Lemma markers_effect_exec (r : Render) (st : MapState) (b : Backend) (m : nat) :
  active r st = Some (b, m) ->
  let st' := exec (body (markersEffect b) r st) st in
  markersRef b st' = markers_from (next st) m (stations (props r)) /\
  log st' = log st ++ (map MarkerRemove (markersRef b st)
                       ++ added (onMarkerClick (props r))
                                (markers_from (next st) m (stations (props r)))).
Proof.
  unfold active. intros Ha.
  destruct (truthy (apiKey (props r))) eqn:Ek.
  - destruct (googleMapRef st) as [g|] eqn:Eg; [|discriminate].
    injection Ha as <- <-.
    cbn [markersEffect body markersRef]. unfold googleMarkers. rewrite Eg, Ek.
    rewrite !exec_app, exec_removals. cbn [exec fold_left].
    rewrite exec_google_markers. destruct st; cbn. now rewrite <- app_assoc.
  - destruct (window_L st) eqn:El; [|discriminate].
    destruct (leafletMapRef st) as [l|] eqn:Em; [|discriminate].
    injection Ha as <- <-.
    cbn [markersEffect body markersRef]. unfold leafletMarkers. rewrite Em, Ek, El.
    cbn [negb andb].
    rewrite !exec_app, exec_removals. cbn [exec fold_left].
    rewrite exec_leaflet_markers. destruct st; cbn. now rewrite <- app_assoc.
Qed.
End MarkerSyncFacts.

Section MarkerSyncClaims.
Import MapContainer MarkerSync MarkerSyncFacts.

(** C2, as the code has it. The stations effect of the active backend
    leaves one marker per record, in the order of the list, whatever was
    rendered before; it gets there by removing every marker rendered
    before and adding a new object per record, so its churn is the old
    markers removed and the new ones added, never empty unless both are.
    React runs the effect unless the stations array, the key and the
    marker callback are the ones of the previous render. *)
Theorem marker_sync_rebuilds (r : Render) (st : MapState) (b : Backend) (m : nat) :
  active r st = Some (b, m) ->
  let st' := exec (body (markersEffect b) r st) st in
  map marker_station (markersRef b st') = stations (props r) /\
  churn st st' = map MarkerRemove (markersRef b st) ++ map MarkerAdd (markersRef b st') /\
  length (churn st st') = length (markersRef b st) + length (stations (props r)) /\
  Forall (fun x => next st <= marker_id x) (markersRef b st') /\
  (forall r' : Render,
     fires (markersEffect b) (Some r) r' = false <->
     stations_ref (props r) = stations_ref (props r') /\
     apiKey (props r) = apiKey (props r') /\
     onMarkerClick (props r) = onMarkerClick (props r')).
Proof.
  intros Ha st'.
  destruct (markers_effect_exec r st b m Ha) as [Href Hlog].
  fold st' in Href, Hlog.
  assert (Hch : churn st st'
                = map MarkerRemove (markersRef b st) ++ map MarkerAdd (markersRef b st')).
  { rewrite (churn_appended _ _ _ Hlog), List.filter_app, filter_removed, filter_added.
    now rewrite Href. }
  split; [rewrite Href; apply markers_from_station|].
  split; [exact Hch|].
  split.
  { rewrite Hch, length_app, !length_map, Href. now rewrite markers_from_length. }
  split; [rewrite Href; apply markers_from_fresh|].
  intros r'.
  assert (Hf : fires (markersEffect b) (Some r) r'
               = negb (Nat.eqb (stations_ref (props r)) (stations_ref (props r')))
                 || negb (String.eqb (apiKey (props r)) (apiKey (props r')))
                 || negb (Nat.eqb (onMarkerClick (props r)) (onMarkerClick (props r')))).
  { destruct b; reflexivity. }
  rewrite Hf.
  destruct (Nat.eqb_spec (stations_ref (props r)) (stations_ref (props r')));
    destruct (String.eqb_spec (apiKey (props r)) (apiKey (props r')));
    destruct (Nat.eqb_spec (onMarkerClick (props r)) (onMarkerClick (props r')));
    cbn; split; try discriminate; intuition congruence.
Qed.
End MarkerSyncClaims.

Lemma marker_sync_rebuilds_witness :
  let st := MapContainer.handle (MapContainer.Rendered (props_of_render 0 EmptyString one_station))
              (MapContainer.unmounted true) in
  let r := {| MapContainer.props := props_of_render 1 EmptyString one_station;
              MapContainer.loaded := false |} in
  let st' := MapContainer.exec
               (MapContainer.body (MarkerSync.markersEffect MapContainer.Leaflet) r st) st in
  map MapContainer.marker_station (MarkerSync.markersRef MapContainer.Leaflet st')
    = MapContainer.stations (MapContainer.props r) /\
  MapContainer.churn st st'
    = map MapContainer.MarkerRemove (MarkerSync.markersRef MapContainer.Leaflet st)
      ++ map MapContainer.MarkerAdd (MarkerSync.markersRef MapContainer.Leaflet st') /\
  length (MapContainer.churn st st')
    = length (MarkerSync.markersRef MapContainer.Leaflet st)
      + length (MapContainer.stations (MapContainer.props r)) /\
  Forall (fun x => MapContainer.next st <= MapContainer.marker_id x)
         (MarkerSync.markersRef MapContainer.Leaflet st') /\
  (forall r' : MapContainer.Render,
     MapContainer.fires (MarkerSync.markersEffect MapContainer.Leaflet) (Some r) r' = false <->
     MapContainer.stations_ref (MapContainer.props r)
       = MapContainer.stations_ref (MapContainer.props r') /\
     MapContainer.apiKey (MapContainer.props r) = MapContainer.apiKey (MapContainer.props r') /\
     MapContainer.onMarkerClick (MapContainer.props r)
       = MapContainer.onMarkerClick (MapContainer.props r')).
Proof.
  intros st r.
  apply (marker_sync_rebuilds r st MapContainer.Leaflet 0).
  reflexivity.
Defined.

(** C2, as stated, fails: the parent renders twice with the same stations
    array and the same selection; the marker rendered for the one record
    is removed and a new one is added. *)
Lemma rerender_churns_markers :
  let p1 := props_of_render 0 EmptyString one_station in
  let p2 := props_of_render 1 EmptyString one_station in
  let st1 := MapContainer.handle (MapContainer.Rendered p1) (MapContainer.unmounted true) in
  let st2 := MapContainer.handle (MapContainer.Rendered p2) st1 in
  MapContainer.reachable st2 /\
  MapContainer.stations p2 = MapContainer.stations p1 /\
  MapContainer.stations_ref p2 = MapContainer.stations_ref p1 /\
  MapContainer.selectedLocation p2 = MapContainer.selectedLocation p1 /\
  map MapContainer.marker_station (MapContainer.leafletMarkersRef st1) = one_station /\
  map MapContainer.marker_station (MapContainer.leafletMarkersRef st2) = one_station /\
  MapContainer.churn st1 st2
    = [ MapContainer.MarkerRemove
          {| MapContainer.marker_id := 1; MapContainer.marker_map := 0;
             MapContainer.marker_station := sample_station "a" "A" |};
        MapContainer.MarkerAdd
          {| MapContainer.marker_id := 2; MapContainer.marker_map := 0;
             MapContainer.marker_station := sample_station "a" "A" |} ].
Proof.
  intros p1 p2 st1 st2. split.
  - do 2 apply MapContainer.reachable_handle. apply MapContainer.reachable_unmounted.
  - repeat split.
Qed.

(** ** Switching between the two map backends *)

Module BackendSwitchFacts.
Import MapContainer BackendSwitch.

Lemma Inv_StateOK (a : MapState) : Inv a -> StateOK a.
Proof.
  intros [H1 _]. unfold StateOK, backendState.
  destruct (googleMapRef a); [|destruct (leafletMapRef a); discriminate].
  rewrite H1; discriminate.
Qed.

Lemma last_cons {A} (x d : A) (l : list A) : List.last (x :: l) d = List.last l x.
Proof.
  revert x d. induction l as [|y l IH]; intros x d; [reflexivity|].
  change (List.last (x :: y :: l) d) with (List.last (y :: l) d).
  now rewrite (IH y d), (IH y x).
Qed.

Lemma last_states (stmts : list (MapState -> MapState)) (a : MapState) :
  List.last (states stmts a) a = exec stmts a.
Proof.
  revert a. induction stmts as [|f rest IH]; intros a; [reflexivity|].
  cbn [states]. rewrite last_cons. apply IH.
Qed.

Lemma successive_app {A} (x : A) (l1 l2 : list A) :
  successive x (l1 ++ l2) = successive x l1 ++ successive (List.last l1 x) l2.
Proof.
  revert x. induction l1 as [|y l1 IH]; intros x; [reflexivity|].
  cbn [app successive]. rewrite IH, last_cons. reflexivity.
Qed.

Lemma last_app_default {A} (x : A) (l1 l2 : list A) :
  List.last (l1 ++ l2) x = List.last l2 (List.last l1 x).
Proof.
  revert x. induction l1 as [|y l1 IH]; intros x; [reflexivity|].
  cbn [app]. rewrite !last_cons. apply IH.
Qed.

Lemma RunOK_nil (a : MapState) : RunOK a [].
Proof. split; constructor. Qed.

Lemma RunOK_app (a : MapState) (l1 l2 : list MapState) :
  RunOK a l1 -> RunOK (List.last l1 a) l2 -> RunOK a (l1 ++ l2).
Proof.
  intros [S1 P1] [S2 P2]. split.
  - apply Forall_app; auto.
  - rewrite successive_app. apply Forall_app; auto.
Qed.

Lemma RunOK_cons (a b : MapState) (l : list MapState) :
  StateOK b -> PairOK a b -> RunOK b l -> RunOK a (b :: l).
Proof. intros Sb Pab [S P]. split; constructor; auto. Qed.

(** A statement that changes neither the refs nor the container is
    harmless. *)
Lemma same_maps_PairOK (a a' : MapState) :
  googleMapRef a' = googleMapRef a -> leafletMapRef a' = leafletMapRef a ->
  container a' = container a -> PairOK a a'.
Proof.
  intros Hg Hl Hc. unfold PairOK, backendState, constructs, count.
  rewrite Hg, Hl, Hc, !Nat.ltb_irrefl.
  destruct (googleMapRef a), (leafletMapRef a); repeat split;
    try discriminate; intros [? ?]; discriminate.
Qed.

Lemma same_maps_Inv (a a' : MapState) :
  googleMapRef a' = googleMapRef a -> leafletMapRef a' = leafletMapRef a ->
  container a' = container a -> Inv a -> Inv a'.
Proof. intros Hg Hl Hc. unfold Inv. now rewrite Hg, Hl, Hc. Qed.

Lemma same_maps_StateOK (a a' : MapState) :
  googleMapRef a' = googleMapRef a -> leafletMapRef a' = leafletMapRef a ->
  StateOK a -> StateOK a'.
Proof. intros Hg Hl. unfold StateOK, backendState. now rewrite Hg, Hl. Qed.

Lemma frame_run (stmts : list (MapState -> MapState)) (a : MapState) :
  Forall frame stmts -> Inv a ->
  RunOK a (states stmts a) /\ Inv (exec stmts a).
Proof.
  intros Hf. revert a. induction Hf as [|f rest Hfr _ IH]; intros a Ha.
  - split; [apply RunOK_nil | exact Ha].
  - destruct (Hfr a) as (Hg & Hl & Hc).
    assert (Ha' : Inv (f a)) by (eapply same_maps_Inv; eauto).
    destruct (IH (f a) Ha') as [Hrun Hinv].
    split; [|exact Hinv].
    cbn [states]. apply RunOK_cons; auto.
    + now apply Inv_StateOK.
    + now apply same_maps_PairOK.
Qed.

(** The statements of the seven effects that do not construct a map. *)
Lemma frame_call (c : LibCall) : frame (call c).
Proof. intros a. now destruct a. Qed.

Lemma frame_set_googleScriptLoaded (v : bool) : frame (set_googleScriptLoaded v).
Proof. intros a. now destruct a. Qed.

Lemma frame_appendScript (k : string) : frame (appendScript k).
Proof. intros a. now destruct a. Qed.

Lemma frame_set_rendered (v : option Render) : frame (set_rendered v).
Proof. intros a. now destruct a. Qed.

Lemma frame_set_googleMarkersRef (v : list Marker) : frame (set_googleMarkersRef v).
Proof. intros a. now destruct a. Qed.

Lemma frame_set_leafletMarkersRef (v : list Marker) : frame (set_leafletMarkersRef v).
Proof. intros a. now destruct a. Qed.

Lemma frame_set_leafletTempMarkerRef (v : option TempMarker) :
  frame (set_leafletTempMarkerRef v).
Proof. intros a. now destruct a. Qed.

Lemma frame_marker_remove (m : Marker) : frame (marker_remove m).
Proof. intros a. now destruct a. Qed.

Lemma frame_google_marker (g : nat) (r : Render) (s : StationData) :
  frame (google_marker g r s).
Proof. intros a. now destruct a. Qed.

Lemma frame_leaflet_marker (l : nat) (r : Render) (s : StationData) :
  frame (leaflet_marker l r s).
Proof. intros a. now destruct a. Qed.

Lemma frame_google_temp (g : nat) (loc : Location) : frame (google_temp g loc).
Proof. intros a. now destruct a. Qed.

Lemma frame_leaflet_temp (l : nat) (loc : Location) : frame (leaflet_temp l loc).
Proof. intros a. now destruct a. Qed.

Lemma frame_google_listen (r : Render) : frame (google_listen r).
Proof.
  intros a. unfold google_listen.
  destruct (googleMapRef a) eqn:E; [|auto].
  destruct a; cbn in *. auto.
Qed.

Lemma Forall_frame_map {A} (f : A -> MapState -> MapState) (l : list A) :
  (forall x, frame (f x)) -> Forall frame (map f l).
Proof. intros Hf. induction l; simpl; constructor; auto. Qed.

Create HintDb frames.
#[local] Hint Resolve frame_call frame_set_googleScriptLoaded frame_appendScript
  frame_set_rendered frame_set_googleMarkersRef frame_set_leafletMarkersRef
  frame_set_leafletTempMarkerRef frame_marker_remove frame_google_marker
  frame_leaflet_marker frame_google_temp frame_leaflet_temp frame_google_listen
  Forall_frame_map : frames.

Ltac frames :=
  repeat match goal with
         | |- Forall _ [] => apply List.Forall_nil
         | |- Forall _ (_ :: _) => apply List.Forall_cons
         | |- Forall _ (_ ++ _) => apply List.Forall_app; split
         | |- Forall _ (map _ _) => apply Forall_frame_map; intro
         | |- frame _ => solve [auto with frames]
         end.

Lemma frame_loadScript r a : Forall frame (loadScript r a).
Proof.
  unfold loadScript.
  destruct (truthy (apiKey (props r))); cbn [negb]; [|frames].
  destruct (window_google_maps a); frames.
Qed.

Lemma frame_panGoogle r a : Forall frame (panGoogle r a).
Proof.
  unfold panGoogle. destruct (googleMapRef a); [|frames].
  destruct (truthy (apiKey (props r))); frames.
Qed.

Lemma frame_googleMarkers r a : Forall frame (googleMarkers r a).
Proof.
  unfold googleMarkers. destruct (googleMapRef a); [|frames].
  destruct (truthy (apiKey (props r))); frames.
Qed.

Lemma frame_googleTemp r a : Forall frame (googleTemp r a).
Proof.
  unfold googleTemp. destruct (googleMapRef a); [|frames].
  destruct (truthy (apiKey (props r))); [|frames].
  destruct (googleTempMarkerRef a), (selectedLocation (props r)); frames.
Qed.

Lemma frame_panLeaflet r a : Forall frame (panLeaflet r a).
Proof.
  unfold panLeaflet. destruct (leafletMapRef a); [|frames].
  destruct (negb (truthy (apiKey (props r)))); frames.
Qed.

Lemma frame_leafletMarkers r a : Forall frame (leafletMarkers r a).
Proof.
  unfold leafletMarkers. destruct (leafletMapRef a); [|frames].
  destruct (negb (truthy (apiKey (props r))) && window_L a); frames.
Qed.

Lemma frame_leafletTemp r a : Forall frame (leafletTemp r a).
Proof.
  unfold leafletTemp. destruct (leafletMapRef a); [|frames].
  destruct (negb (truthy (apiKey (props r))) && window_L a); [|frames].
  destruct (leafletTempMarkerRef a), (selectedLocation (props r)); frames.
Qed.

Lemma cnt_app (b : Backend) (c1 c2 : list MapObject) :
  cnt b (c1 ++ c2) = cnt b c1 + cnt b c2.
Proof. unfold cnt. now rewrite List.filter_app, length_app. Qed.

Lemma cnt_filter_le (b : Backend) (p : MapObject -> bool) (c : list MapObject) :
  cnt b (List.filter p c) <= cnt b c.
Proof.
  unfold cnt. induction c as [|o c IH]; simpl; [lia|].
  destruct (p o); simpl; destruct (Backend_eqb (backend o) b); simpl; lia.
Qed.

Lemma Backend_eqb_eq (x y : Backend) : Backend_eqb x y = true <-> x = y.
Proof. destruct x, y; simpl; split; congruence. Qed.

Lemma existsb_cnt (b : Backend) (c : list MapObject) :
  existsb (fun o => Backend_eqb (backend o) b) c = false <-> cnt b c = 0.
Proof.
  unfold cnt. induction c as [|o c IH]; simpl; [tauto|].
  destruct (Backend_eqb (backend o) b); simpl; [split; discriminate | exact IH].
Qed.

Lemma cnt_zero_no (b : Backend) (c : list MapObject) :
  cnt b c = 0 <-> (forall o, In o c -> backend o <> b).
Proof.
  unfold cnt. induction c as [|o c IH]; simpl.
  - split; [intros _ o [] | reflexivity].
  - destruct (Backend_eqb (backend o) b) eqn:E; simpl.
    + split; [discriminate|]. intros Hn. exfalso.
      apply (Hn o); [now left | now apply Backend_eqb_eq].
    + rewrite IH. split.
      * intros Hn o' [<-|Hin]; [|now apply Hn].
        intros Eb. apply Backend_eqb_eq in Eb. congruence.
      * intros Hn o' Hin. apply Hn. now right.
Qed.

(** Removing the map [l] leaves no Leaflet map when every Leaflet map on
    the container is [l]. *)
Lemma cnt_leaflet_removed (l : nat) (c : list MapObject) :
  (forall o, In o c -> backend o = Leaflet -> Some l = Some (map_id o)) ->
  cnt Leaflet (List.filter (keep l) c) = 0.
Proof.
  intros Hall. apply cnt_zero_no. intros o Hin Eb.
  apply List.filter_In in Hin as [Hin Hk].
  specialize (Hall o Hin Eb). injection Hall as ->.
  unfold keep in Hk. rewrite Eb, Nat.eqb_refl in Hk. discriminate.
Qed.

(** The statements that touch a map ref or the container. *)
Lemma count_cnt (b : Backend) (a : MapState) : count b a = cnt b (container a).
Proof. reflexivity. Qed.

Lemma holds_cnt (b : Backend) (a : MapState) :
  cnt b (container a) = 0 -> holds b a = false.
Proof. intros Hz. now apply existsb_cnt. Qed.

Lemma fields_leaflet_remove (l : nat) (a : MapState) :
  googleMapRef (leaflet_remove l a) = googleMapRef a /\
  leafletMapRef (leaflet_remove l a) = leafletMapRef a /\
  container (leaflet_remove l a) = List.filter (keep l) (container a).
Proof. now destruct a. Qed.

Lemma fields_set_leafletMapRef (v : option nat) (a : MapState) :
  googleMapRef (set_leafletMapRef v a) = googleMapRef a /\
  leafletMapRef (set_leafletMapRef v a) = v /\
  container (set_leafletMapRef v a) = container a.
Proof. now destruct a. Qed.

Lemma fields_set_googleMapRef (v : option nat) (a : MapState) :
  googleMapRef (set_googleMapRef v a) = v /\
  leafletMapRef (set_googleMapRef v a) = leafletMapRef a /\
  container (set_googleMapRef v a) = container a.
Proof. now destruct a. Qed.

Lemma fields_google_new (r : Render) (a : MapState) :
  googleMapRef (google_new r a) = Some (next a) /\
  leafletMapRef (google_new r a) = leafletMapRef a /\
  container (google_new r a)
    = container a ++ [{| backend := Google; map_id := next a |}].
Proof. now destruct a. Qed.

Lemma fields_leaflet_new (map : nat) (r : Render) (a : MapState) :
  googleMapRef (leaflet_new map r a) = googleMapRef a /\
  leafletMapRef (leaflet_new map r a) = leafletMapRef a /\
  container (leaflet_new map r a)
    = container a ++ [{| backend := Leaflet; map_id := map |}].
Proof. now destruct a. Qed.

Ltac no_swap := split; [intros [? ?]; discriminate|].

Lemma pair_leaflet_remove (l : nat) (a : MapState) :
  googleMapRef a = None -> PairOK a (leaflet_remove l a).
Proof.
  intros Eg. destruct (fields_leaflet_remove l a) as (Hg & Hl & Hc).
  unfold PairOK, backendState, constructs. rewrite !count_cnt, Hg, Hl, Hc, Eg.
  pose proof (cnt_filter_le Google (keep l) (container a)).
  pose proof (cnt_filter_le Leaflet (keep l) (container a)).
  destruct (leafletMapRef a); do 2 no_swap;
    split; intros Hlt; apply Nat.ltb_lt in Hlt; lia.
Qed.

Lemma pair_set_leafletMapRef (v : option nat) (a : MapState) :
  googleMapRef a = None -> PairOK a (set_leafletMapRef v a).
Proof.
  intros Eg. destruct (fields_set_leafletMapRef v a) as (Hg & Hl & Hc).
  unfold PairOK, backendState, constructs. rewrite !count_cnt, Hg, Hl, Hc, Eg.
  rewrite !Nat.ltb_irrefl.
  destruct (leafletMapRef a), v; do 2 no_swap; split; discriminate.
Qed.

Lemma pair_set_googleMapRef_None (a : MapState) :
  leafletMapRef a = None -> PairOK a (set_googleMapRef None a).
Proof.
  intros El. destruct (fields_set_googleMapRef None a) as (Hg & Hl & Hc).
  unfold PairOK, backendState, constructs. rewrite !count_cnt, Hg, Hl, Hc, El.
  rewrite !Nat.ltb_irrefl.
  destruct (googleMapRef a); do 2 no_swap; split; discriminate.
Qed.

Lemma pair_google_new (r : Render) (a : MapState) :
  leafletMapRef a = None -> cnt Leaflet (container a) = 0 -> PairOK a (google_new r a).
Proof.
  intros El Hz. destruct (fields_google_new r a) as (Hg & Hl & Hc).
  unfold PairOK, backendState, constructs.
  rewrite !count_cnt, Hg, Hl, Hc, El, !cnt_app, Hz.
  change (cnt Leaflet [{| backend := Google; map_id := next a |}]) with 0.
  rewrite Nat.ltb_irrefl.
  destruct (googleMapRef a); do 2 no_swap;
    (split; [|discriminate]); intros _; (split; [now apply holds_cnt | reflexivity]).
Qed.

Lemma pair_leaflet_new (map : nat) (r : Render) (a : MapState) :
  googleMapRef a = None -> leafletMapRef a = None -> PairOK a (leaflet_new map r a).
Proof.
  intros Eg El. destruct (fields_leaflet_new map r a) as (Hg & Hl & Hc).
  unfold PairOK, backendState, constructs.
  rewrite !count_cnt, Hg, Hl, Hc, Eg, El, !cnt_app.
  change (cnt Google [{| backend := Leaflet; map_id := map |}]) with 0.
  rewrite Nat.add_0_r, Nat.ltb_irrefl.
  do 2 no_swap. split; [discriminate|]. intros _. now split.
Qed.

Lemma frame_PairOK (f : MapState -> MapState) (a : MapState) :
  frame f -> PairOK a (f a).
Proof. intros Hf. destruct (Hf a) as (Hg & Hl & Hc). now apply same_maps_PairOK. Qed.

Ltac state_ok := unfold StateOK, backendState; cbn; discriminate.

Lemma initGoogle_ok (r : Render) (a : MapState) :
  Inv a -> RunOK a (states (initGoogle r a) a) /\ Inv (exec (initGoogle r a) a).
Proof.
  intros Ha. unfold initGoogle.
  destruct (googleMapRef a) as [g|] eqn:Eg; [split; [apply RunOK_nil | exact Ha]|].
  destruct (truthy (apiKey (props r)) && loaded r); [|split; [apply RunOK_nil | exact Ha]].
  destruct Ha as [_ Hc].
  destruct (leafletMapRef a) as [l|] eqn:El.
  - assert (Hz : cnt Leaflet (List.filter (keep l) (container a)) = 0).
    { apply cnt_leaflet_removed. exact Hc. }
    pose proof (proj1 (cnt_zero_no _ _) Hz) as Hno.
    destruct a as [gsl rd gm gms gt lm lms lt wg wl hs c lg nx]; cbn in *; subst.
    split.
    + apply RunOK_cons; [state_ok | apply pair_leaflet_remove; reflexivity |].
      apply RunOK_cons; [state_ok | apply pair_set_leafletMapRef; reflexivity |].
      apply RunOK_cons; [state_ok | apply pair_google_new; [reflexivity | exact Hz] |].
      apply RunOK_cons; [state_ok | | apply RunOK_nil].
      apply (frame_PairOK (call _)), frame_call.
    + split; cbn; [reflexivity|].
      intros o Hin Eb. exfalso.
      apply in_app_or in Hin as [Hin | [<- | []]]; [|discriminate].
      now apply (Hno o Hin).
  - assert (Hz : cnt Leaflet (container a) = 0).
    { apply cnt_zero_no. intros o Hin Eb. specialize (Hc o Hin Eb). congruence. }
    pose proof (proj1 (cnt_zero_no _ _) Hz) as Hno.
    destruct a as [gsl rd gm gms gt lm lms lt wg wl hs c lg nx]; cbn in *; subst.
    split.
    + apply RunOK_cons; [state_ok | apply pair_google_new; [reflexivity | exact Hz] |].
      apply RunOK_cons; [state_ok | | apply RunOK_nil].
      apply (frame_PairOK (call _)), frame_call.
    + split; cbn; [reflexivity|].
      intros o Hin Eb. exfalso.
      apply in_app_or in Hin as [Hin | [<- | []]]; [|discriminate].
      now apply (Hno o Hin).
Qed.

Lemma initLeaflet_ok (r : Render) (a : MapState) :
  Inv a -> RunOK a (states (initLeaflet r a) a) /\ Inv (exec (initLeaflet r a) a).
Proof.
  intros Ha. unfold initLeaflet.
  destruct (leafletMapRef a) as [l|] eqn:El; [split; [apply RunOK_nil | exact Ha]|].
  destruct (negb (truthy (apiKey (props r))) && window_L a);
    [|split; [apply RunOK_nil | exact Ha]].
  destruct Ha as [_ Hc].
  assert (Hz : cnt Leaflet (container a) = 0).
  { apply cnt_zero_no. intros o Hin Eb. specialize (Hc o Hin Eb). congruence. }
  pose proof (proj1 (cnt_zero_no _ _) Hz) as Hno.
  destruct (googleMapRef a) as [g|] eqn:Eg;
    destruct a as [gsl rd gm gms gt lm lms lt wg wl hs c lg nx]; cbn in *; subst.
  - split.
    + apply RunOK_cons; [state_ok | apply pair_set_googleMapRef_None; reflexivity |].
      apply RunOK_cons; [state_ok | apply pair_leaflet_new; reflexivity |].
      apply RunOK_cons; [state_ok | apply (frame_PairOK (call _)), frame_call |].
      apply RunOK_cons; [state_ok | apply (frame_PairOK (call _)), frame_call |].
      apply RunOK_cons; [state_ok | apply pair_set_leafletMapRef; reflexivity | apply RunOK_nil].
    + split; cbn; [intros Hn; now elim Hn|].
      intros o Hin Eb.
      apply in_app_or in Hin as [Hin | [<- | []]]; [|reflexivity].
      exfalso. now apply (Hno o Hin).
  - split.
    + apply RunOK_cons; [state_ok | apply pair_leaflet_new; reflexivity |].
      apply RunOK_cons; [state_ok | apply (frame_PairOK (call _)), frame_call |].
      apply RunOK_cons; [state_ok | apply (frame_PairOK (call _)), frame_call |].
      apply RunOK_cons; [state_ok | apply pair_set_leafletMapRef; reflexivity | apply RunOK_nil].
    + split; cbn; [intros Hn; now elim Hn|].
      intros o Hin Eb.
      apply in_app_or in Hin as [Hin | [<- | []]]; [|reflexivity].
      exfalso. now apply (Hno o Hin).
Qed.

Lemma unit_ok (a : MapState) : Inv a -> RunOK a (states [] a) /\ Inv (exec [] a).
Proof. intros Ha. split; [apply RunOK_nil | exact Ha]. Qed.

Lemma effect_ok (e : Effect) (r : Render) (a : MapState) :
  Inv a -> RunOK a (states (body e r a) a) /\ Inv (exec (body e r a) a).
Proof.
  intros Ha. destruct e; cbn [body].
  - apply frame_run; [apply frame_loadScript | exact Ha].
  - now apply initGoogle_ok.
  - apply frame_run; [apply frame_panGoogle | exact Ha].
  - apply frame_run; [apply frame_googleMarkers | exact Ha].
  - apply frame_run; [apply frame_googleTemp | exact Ha].
  - now apply initLeaflet_ok.
  - apply frame_run; [apply frame_panLeaflet | exact Ha].
  - apply frame_run; [apply frame_leafletMarkers | exact Ha].
  - apply frame_run; [apply frame_leafletTemp | exact Ha].
Qed.

Lemma commit_ok (es : list Effect) (old : option Render) (r : Render) (a : MapState) :
  Inv a ->
  RunOK a (commit_states es old r a) /\
  Inv (commit es old r a) /\
  List.last (commit_states es old r a) a = commit es old r a.
Proof.
  revert a. induction es as [|e rest IH]; intros a Ha.
  - split; [apply RunOK_nil | split; [exact Ha | reflexivity]].
  - cbn [commit_states commit].
    set (stmts := if fires e old r then body e r a else []).
    assert (Hs : RunOK a (states stmts a) /\ Inv (exec stmts a)).
    { unfold stmts. destruct (fires e old r); [now apply effect_ok | now apply unit_ok]. }
    destruct Hs as [Hrun Hinv].
    destruct (IH (exec stmts a) Hinv) as (Hrun' & Hinv' & Hlast).
    split; [|split].
    + apply RunOK_app; [exact Hrun|]. now rewrite last_states.
    + exact Hinv'.
    + now rewrite last_app_default, last_states.
Qed.

Lemma render_ok (p : Props) (a : MapState) :
  Inv a ->
  RunOK a (render_states p a) /\
  Inv (render p a) /\
  List.last (render_states p a) a = render p a.
Proof.
  intros Ha. unfold render_states, render.
  set (r := {| props := p; loaded := googleScriptLoaded a |}).
  destruct (frame_set_rendered (Some r) a) as (Hg & Hl & Hc).
  assert (Ha1 : Inv (set_rendered (Some r) a)) by (eapply same_maps_Inv; eauto).
  destruct (commit_ok effects (rendered a) r _ Ha1) as (Hrun & Hinv & Hlast).
  split; [|split].
  - apply RunOK_cons; [now apply Inv_StateOK | now apply same_maps_PairOK | exact Hrun].
  - exact Hinv.
  - now rewrite last_cons.
Qed.

Lemma settle_ok (a : MapState) :
  Inv a ->
  RunOK a (settle_states a) /\
  Inv (settle a) /\
  List.last (settle_states a) a = settle a.
Proof.
  intros Ha. unfold settle_states, settle.
  destruct (rendered a) as [r|]; [|split; [apply RunOK_nil | now split]].
  destruct (Bool.eqb (loaded r) (googleScriptLoaded a));
    [split; [apply RunOK_nil | now split] | now apply render_ok].
Qed.

Lemma handle_ok (e : Event) (a : MapState) :
  Inv a ->
  RunOK a (handle_states e a) /\
  Inv (handle e a) /\
  List.last (handle_states e a) a = handle e a.
Proof.
  intros Ha. destruct e as [p| |]; cbn [handle_states handle].
  - destruct (render_ok p a Ha) as (Hr & Hi & Hl).
    destruct (settle_ok (render p a) Hi) as (Hr' & Hi' & Hl').
    split; [|split].
    + apply RunOK_app; [exact Hr|]. now rewrite Hl.
    + exact Hi'.
    + now rewrite last_app_default, Hl.
  - destruct (head_scripts a); [split; [apply RunOK_nil | now split]|].
    set (a1 := set_googleScriptLoaded true (set_window_google_maps true a)).
    assert (Hf : googleMapRef a1 = googleMapRef a /\ leafletMapRef a1 = leafletMapRef a
                 /\ container a1 = container a) by now destruct a.
    destruct Hf as (Hg & Hl & Hc).
    assert (Ha1 : Inv a1) by (eapply same_maps_Inv; eauto).
    destruct (settle_ok a1 Ha1) as (Hr' & Hi' & Hl').
    split; [|split].
    + apply RunOK_cons; [now apply Inv_StateOK | now apply same_maps_PairOK | exact Hr'].
    + exact Hi'.
    + now rewrite last_cons.
  - assert (Hf : googleMapRef (set_window_L true a) = googleMapRef a /\
                 leafletMapRef (set_window_L true a) = leafletMapRef a /\
                 container (set_window_L true a) = container a) by now destruct a.
    destruct Hf as (Hg & Hl & Hc).
    assert (Ha1 : Inv (set_window_L true a)) by (eapply same_maps_Inv; eauto).
    split; [|split; [exact Ha1 | reflexivity]].
    apply RunOK_cons; [now apply Inv_StateOK | now apply same_maps_PairOK | apply RunOK_nil].
Qed.

Lemma reachable_Inv (st : MapState) : reachable st -> Inv st.
Proof.
  induction 1 as [b | e st _ IH].
  - split; cbn; [reflexivity | intros o []].
  - now apply handle_ok.
Qed.
End BackendSwitchFacts.

Section BackendSwitchClaims.
Import MapContainer.

(** X25. What the two init effects do keep, on the refs of the component.
    From any state the component can reach, and for any event, along the
    states the effects pass through statement by statement
    ([handle_states], which ends in the state [handle] gives): the two map
    refs are never both set; no statement takes the refs from the
    commercial backend to the fallback one or back, the refs are both
    empty in between; a Google map is constructed only when the container
    holds no Leaflet map (the previous one was removed by its [remove])
    and [leafletMapRef] is empty; a Leaflet map is constructed only when
    both refs are empty. The refs say nothing of what the container
    holds, which is the matter of C1. *)
Theorem backend_switch_through_uninitialized (st : MapState) (e : Event) :
  reachable st ->
  List.last (handle_states e st) st = handle e st /\
  (forall a, In a (st :: handle_states e st) -> backendState a <> BothActive) /\
  (forall a a', In (a, a') (successive st (handle_states e st)) ->
     ~ (backendState a = CommercialActive /\ backendState a' = FallbackActive) /\
     ~ (backendState a = FallbackActive /\ backendState a' = CommercialActive) /\
     (constructs Google a a' = true ->
      holds Leaflet a = false /\ leafletMapRef a = None) /\
     (constructs Leaflet a a' = true ->
      googleMapRef a = None /\ leafletMapRef a = None)).
Proof.
  intros Hr. pose proof (BackendSwitchFacts.reachable_Inv st Hr) as Hinv.
  destruct (BackendSwitchFacts.handle_ok e st Hinv) as ([Hs Hp] & _ & Hlast).
  split; [exact Hlast|]. split.
  - intros a [<-|Hin]; [now apply BackendSwitchFacts.Inv_StateOK|].
    rewrite List.Forall_forall in Hs. now apply Hs.
  - intros a a' Hin. rewrite List.Forall_forall in Hp. exact (Hp (a, a') Hin).
Qed.
End BackendSwitchClaims.

Lemma commercial_state_reachable : MapContainer.reachable commercial_state.
Proof. do 4 apply MapContainer.reachable_handle. apply MapContainer.reachable_unmounted. Qed.

Lemma backend_switch_through_uninitialized_witness :
  List.last (MapContainer.handle_states key_cleared commercial_state) commercial_state
    = MapContainer.handle key_cleared commercial_state /\
  (forall a, In a (commercial_state :: MapContainer.handle_states key_cleared commercial_state) ->
     MapContainer.backendState a <> MapContainer.BothActive) /\
  (forall a a',
     In (a, a') (MapContainer.successive commercial_state
                   (MapContainer.handle_states key_cleared commercial_state)) ->
     ~ (MapContainer.backendState a = MapContainer.CommercialActive /\
        MapContainer.backendState a' = MapContainer.FallbackActive) /\
     ~ (MapContainer.backendState a = MapContainer.FallbackActive /\
        MapContainer.backendState a' = MapContainer.CommercialActive) /\
     (MapContainer.constructs MapContainer.Google a a' = true ->
      MapContainer.holds MapContainer.Leaflet a = false /\ MapContainer.leafletMapRef a = None) /\
     (MapContainer.constructs MapContainer.Leaflet a a' = true ->
      MapContainer.googleMapRef a = None /\ MapContainer.leafletMapRef a = None)).
Proof.
  apply (backend_switch_through_uninitialized commercial_state key_cleared).
  do 4 apply MapContainer.reachable_handle. apply MapContainer.reachable_unmounted.
Defined.

(** C1. The code breaks the claim in the direction from the commercial
    backend to the fallback one, against its own comments (destroy the
    Google map if it exists; the container contents are cleared by
    Leaflet) and unlike the Google init effect, which calls [remove] on
    the Leaflet map. In a reachable state with the Google map active,
    clearing the key runs the Leaflet effect: it empties [googleMapRef] and
    constructs the Leaflet map on a container that still holds the Google
    map, on which no call was made; after the event the container holds a
    map of each backend and the markers of the Google map are still in
    their ref. *)
Lemma google_map_not_torn_down :
  let st := commercial_state in
  let steps := MapContainer.successive st (MapContainer.handle_states key_cleared st) in
  let st' := MapContainer.handle key_cleared st in
  MapContainer.reachable st /\
  MapContainer.backendState st = MapContainer.CommercialActive /\
  (exists a a',
     In (a, a') steps /\
     MapContainer.backendState a = MapContainer.Uninitialized /\
     MapContainer.constructs MapContainer.Leaflet a a' = true /\
     MapContainer.holds MapContainer.Google a = true) /\
  MapContainer.backendState st' = MapContainer.FallbackActive /\
  MapContainer.container st'
    = [ {| MapContainer.backend := MapContainer.Google; MapContainer.map_id := 2 |};
        {| MapContainer.backend := MapContainer.Leaflet; MapContainer.map_id := 4 |} ] /\
  MapContainer.holds MapContainer.Google st' = true /\
  MapContainer.holds MapContainer.Leaflet st' = true /\
  length (MapContainer.googleMarkersRef st') = 1 /\
  List.filter (fun c => match c with MapContainer.MapRemove _ => true | _ => false end)
              (drop (length (MapContainer.log st)) (MapContainer.log st')) = [].
Proof.
  intros st steps st'.
  split; [exact commercial_state_reachable|].
  split; [vm_compute; reflexivity|].
  split.
  { exists (nth 1 (MapContainer.handle_states key_cleared st) st),
           (nth 2 (MapContainer.handle_states key_cleared st) st).
    split; [|repeat split; vm_compute; reflexivity].
    apply (nth_error_In steps 2). vm_compute. reflexivity. }
  repeat split; vm_compute; reflexivity.
Qed.

(* ===================================================================== *)
(** * Further properties of the code                                      *)
(* ===================================================================== *)

(** ** The host application *)

Section HostFacts.
Context `{JSRuntime}.

Lemma addStation_fields (r w : World) (station : StationData) :
  stations (App.addStation r station w) = station :: stations r /\
  config (App.addStation r station w) = config w /\
  localStorage (App.addStation r station w)
    = <[App.STORAGE_KEY_DATA := JSON.stringify_stations (station :: stations r)]>
        (localStorage w) /\
  selectedLocation (App.addStation r station w) = None /\
  currentView (App.addStation r station w) = LIST /\
  isSidebarOpen (App.addStation r station w) = isSidebarOpen w.
Proof. repeat split. Qed.

Lemma deleteStation_fields (r w : World) (i : string) :
  stations (App.deleteStation r i w) = List.filter (keep_other i) (stations r) /\
  config (App.deleteStation r i w) = config w /\
  localStorage (App.deleteStation r i w)
    = <[App.STORAGE_KEY_DATA :=
          JSON.stringify_stations (List.filter (keep_other i) (stations r))]>
        (localStorage w) /\
  selectedLocation (App.deleteStation r i w) = selectedLocation w /\
  currentView (App.deleteStation r i w) = currentView w.
Proof. repeat split. Qed.

Lemma updateConfig_fields (c : AppConfig) (w : World) :
  stations (App.updateConfig c w) = stations w /\
  config (App.updateConfig c w) = c /\
  localStorage (App.updateConfig c w)
    = <[App.STORAGE_KEY_CONFIG := JSON.stringify_config c]> (localStorage w).
Proof. repeat split. Qed.

(** What the first half of a submission does: it completes through
    [addStation] of the latest render, or it suspends with the request
    issued and nothing else changed; or the sidebar shows no form and
    nothing happens. *)
Lemma submitForm_cases (f : StationForm.FormState) (uuid : string) (now : number)
      (st : Host.State) :
  let w := Host.app st in
  let st' := Host.handle (Host.SubmitForm f uuid now) st in
  st' = st \/
  (exists loc,
     selectedLocation w = Some loc /\ currentView w = MAP /\
     let p := Host.formProps w loc (googleSheetScriptUrl (config w)) in
     let r := StationForm.newStation p f uuid now in
     (truthy (googleSheetScriptUrl (config w)) = false /\
      Host.app st' = App.addStation w r w /\
      Host.inflight st' = Host.inflight st /\
      Host.mapListener st' = Host.mapListener st) \/
     (truthy (googleSheetScriptUrl (config w)) = true /\
      Host.app st' = sheetService.save_request r (googleSheetScriptUrl (config w)) w /\
      Host.mapListener st' = Host.mapListener st /\
      exists s, Host.inflight st' = Host.inflight st ++ [s] /\
                Host.props s = p /\ Host.record s = r)).
Proof.
  intros w st'. unfold st'. cbn [Host.handle]. fold w. unfold App.renderSidebar.
  destruct (AppView_eqb (currentView w) SETTINGS) eqn:Es; [now left|].
  destruct (selectedLocation w) as [loc|] eqn:El; [|now left].
  destruct (AppView_eqb (currentView w) MAP) eqn:Em; [|now left].
  right. exists loc.
  assert (Hv : currentView w = MAP) by (destruct (currentView w); auto; discriminate).
  split; [reflexivity|]. split; [exact Hv|].
  unfold StationForm.handleSubmit_click.
  cbn [StationForm.scriptUrl Host.formProps StationForm.onSave].
  destruct (truthy (googleSheetScriptUrl (config w))); [right | left].
  - split; [reflexivity|]. split; [reflexivity|]. split; [reflexivity|].
    eexists. split; [reflexivity|]. split; reflexivity.
  - repeat split.
Qed.

(** What the second half does: the console may get a line, and the record
    goes through the [onSave] that the submission holds. *)
Lemma resume_world (p : StationForm.Props) (station : StationData)
      (o : sheetService.FetchOutcome) (f : StationForm.FormState) (w : World) :
  exists w1,
    snd (snd (StationForm.handleSubmit_resume p station o (f, w)))
      = StationForm.onSave p station w1 /\
    stations w1 = stations w /\ config w1 = config w /\
    localStorage w1 = localStorage w /\ network w1 = network w.
Proof.
  unfold StationForm.handleSubmit_resume, sheetService.save_settled.
  destruct o; cbn; eexists; (split; [reflexivity|]); repeat split.
Qed.

Lemma in_sync_data_written (w w' : World) (l : list StationData) :
  stations w' = l -> config w' = config w ->
  localStorage w' = <[App.STORAGE_KEY_DATA := JSON.stringify_stations l]> (localStorage w) ->
  storage_in_sync w -> storage_in_sync w'.
Proof.
  intros Hs Hc Hl [_ Hcfg]. unfold storage_in_sync, getItem in *.
  rewrite Hl, Hs, Hc. split.
  - now rewrite lookup_insert_eq.
  - rewrite lookup_insert_ne by discriminate. exact Hcfg.
Qed.

Lemma in_sync_untouched (w w' : World) :
  stations w' = stations w -> config w' = config w ->
  localStorage w' = localStorage w ->
  storage_in_sync w -> storage_in_sync w'.
Proof.
  intros Hs Hc Hl. unfold storage_in_sync, getItem. now rewrite Hl, Hs, Hc.
Qed.

Lemma handle_in_sync (e : Host.Event) (st : Host.State) :
  storage_in_sync (Host.app st) -> inflight_ok st ->
  storage_in_sync (Host.app (Host.handle e st)) /\ inflight_ok (Host.handle e st).
Proof.
  intros Hw Hp.
  destruct e as [|loc|n|g| |s| |f uuid now|n o|n| |n|open].
  - split; assumption.
  - cbn [Host.handle]. destruct (Host.mapListener st) as [r|]; [|now split].
    split; [|exact Hp]. cbn [Host.setApp Host.app].
    unfold App.handleMapClick. destruct (isSidebarOpen r); exact Hw.
  - cbn [Host.handle]. destruct (nth_error (stations (Host.app st)) n); now split.
  - cbn [Host.handle]. split; [|exact Hp]. destruct g; exact Hw.
  - now split.
  - cbn [Host.handle]. destruct (App.renderSidebar (Host.app st)); try now split.
    split; [|exact Hp]. cbn [Host.setApp Host.app].
    destruct Hw as [Hd _]. unfold storage_in_sync, getItem in *.
    unfold Settings.handleSubmit. cbn.
    rewrite lookup_insert_ne by discriminate.
    split; [exact Hd | now rewrite lookup_insert_eq].
  - cbn [Host.handle]. destruct (App.renderSidebar (Host.app st)); now split.
  - destruct (submitForm_cases f uuid now st)
      as [-> | (loc & _ & _ & [(_ & Ha & Hi & _) | (_ & Ha & _ & s & Hi & Hps & _)])];
      [now split | |].
    + split.
      * rewrite Ha.
        destruct (addStation_fields (Host.app st) (Host.app st)
                    (StationForm.newStation
                       (Host.formProps (Host.app st) loc
                          (googleSheetScriptUrl (config (Host.app st)))) f uuid now))
          as (Hs & Hc & Hl & _).
        eapply in_sync_data_written; eauto.
      * unfold inflight_ok. now rewrite Hi.
    + split.
      * rewrite Ha. exact Hw.
      * unfold inflight_ok. rewrite Hi. apply Forall_app. split; [exact Hp|].
        constructor; [|constructor]. exists (Host.app st).
        unfold saves_through. now rewrite Hps.
  - cbn [Host.handle]. destruct (Host.inflight st !! n) as [s|] eqn:En; [|now split].
    cbn [Host.app Host.inflight]. split.
    + unfold inflight_ok in Hp. rewrite Forall_lookup in Hp.
      destruct (Hp n s En) as [r Hr].
      destruct (resume_world (Host.props s) (Host.record s) o (Host.form s) (Host.app st))
        as (w1 & -> & Hs1 & Hc1 & Hl1 & _).
      rewrite Hr.
      destruct (addStation_fields r w1 (Host.record s)) as (Hs & Hc & Hl & _).
      eapply in_sync_data_written; eauto.
      eapply in_sync_untouched; eauto.
    + unfold inflight_ok. cbn [Host.inflight]. now apply Forall_delete.
  - cbn [Host.handle]. destruct (App.renderSidebar (Host.app st)); try now split.
    destruct (nth_error (stations (Host.app st)) n) as [station|]; [|now split].
    split; [|exact Hp]. cbn [Host.setApp Host.app].
    destruct (deleteStation_fields (Host.app st) (Host.app st) (id station))
      as (Hs & Hc & Hl & _).
    eapply in_sync_data_written; eauto.
  - cbn [Host.handle]. destruct (App.viewListButtonShown (Host.app st)); now split.
  - cbn [Host.handle]. destruct (App.renderSidebar (Host.app st)); try now split.
    destruct (nth_error (stations (Host.app st)) n); now split.
  - now split.
Qed.

(** X1. In every state the application reaches from an empty storage, the
    storage mirrors the state: the data key is absent and the list empty,
    or the key holds the JSON text of the current list; the configuration
    key is absent and the configuration is the initial one, or the key
    holds the JSON text of the current configuration. This holds also
    after a suspended submission has resumed on a changed list. *)
Theorem storage_mirrors_state (st : Host.State) :
  Host.reachable st -> storage_in_sync (Host.app st).
Proof.
  intros Hr.
  assert (G : storage_in_sync (Host.app st) /\ inflight_ok st);
    [|exact (proj1 G)].
  induction Hr as [|e st _ IH].
  - split; [split; reflexivity | constructor].
  - destruct IH. now apply handle_in_sync.
Qed.
End HostFacts.

Lemma storage_mirrors_state_witness :
  storage_in_sync (H := constant_runtime)
    (Host.app
       (Host.run (H := constant_runtime)
          [Host.MapConstructed; Host.OpenSettings; Host.SaveSettings webhook_settings;
           Host.MapClicked clicked;
           Host.SubmitForm filled_form "id-1" 0%float;
           Host.WebhookSettled 0 sheetService.FetchResolved]
          (Host.mounted (App.initial ∅)))).
Proof.
  apply (storage_mirrors_state (H := constant_runtime)).
  cbn [Host.run fold_left]. do 6 apply Host.reachable_step. apply Host.reachable_initial.
Defined.

Section HostFacts2.
Context `{JSRuntime}.

Lemma keep_other_NoDup (i : string) (l : list StationData) :
  List.NoDup (map id l) -> List.NoDup (map id (List.filter (keep_other i) l)).
Proof.
  induction l as [|x l IH]; simpl; intros Hnd; [constructor|].
  apply List.NoDup_cons_iff in Hnd as [Hx Hnd].
  destruct (keep_other i x); simpl; [|auto].
  constructor; [|auto].
  intros Hin. apply Hx. apply in_map_iff in Hin as (y & Ey & Hy).
  apply List.filter_In in Hy as [Hy _]. apply in_map_iff. eauto.
Qed.

Lemma handle_keeps_identities_unique (e : Host.Event) (st : Host.State) :
  match e with
  | Host.SubmitForm _ uuid _ => ~ In uuid (map id (stations (Host.app st)))
  | _ => True
  end ->
  List.NoDup (map id (stations (Host.app st))) -> inflight_unique st ->
  List.NoDup (map id (stations (Host.app (Host.handle e st)))) /\
  inflight_unique (Host.handle e st).
Proof.
  intros Hf Hnd Hp.
  destruct e as [|loc|n|g| |s| |f uuid now|n o|n| |n|open].
  - now split.
  - cbn [Host.handle]. destruct (Host.mapListener st) as [r|]; [|now split].
    split; [|exact Hp]. cbn [Host.setApp Host.app].
    unfold App.handleMapClick. destruct (isSidebarOpen r); exact Hnd.
  - cbn [Host.handle]. destruct (nth_error (stations (Host.app st)) n); now split.
  - cbn [Host.handle]. split; [|exact Hp]. destruct g; exact Hnd.
  - now split.
  - cbn [Host.handle]. destruct (App.renderSidebar (Host.app st)); now split.
  - cbn [Host.handle]. destruct (App.renderSidebar (Host.app st)); now split.
  - destruct (submitForm_cases f uuid now st)
      as [-> | (loc & _ & _ & [(_ & Ha & Hi & _) | (_ & Ha & _ & s & Hi & Hps & Hrs)])];
      [now split | |].
    + split.
      * rewrite Ha. cbn. constructor; assumption.
      * unfold inflight_unique. now rewrite Hi.
    + split.
      * rewrite Ha. exact Hnd.
      * unfold inflight_unique. rewrite Hi. apply Forall_app. split; [exact Hp|].
        constructor; [|constructor]. exists (Host.app st). split.
        -- unfold saves_through. now rewrite Hps.
        -- rewrite Hrs. cbn. constructor; assumption.
  - cbn [Host.handle]. destruct (Host.inflight st !! n) as [s|] eqn:En; [|now split].
    cbn [Host.app Host.inflight]. split.
    + unfold inflight_unique in Hp. rewrite Forall_lookup in Hp.
      destruct (Hp n s En) as (r & Hr & Hu).
      destruct (resume_world (Host.props s) (Host.record s) o (Host.form s) (Host.app st))
        as (w1 & -> & _).
      rewrite Hr. exact Hu.
    + unfold inflight_unique. cbn [Host.inflight]. now apply Forall_delete.
  - cbn [Host.handle]. destruct (App.renderSidebar (Host.app st)); try now split.
    destruct (nth_error (stations (Host.app st)) n) as [station|]; [|now split].
    split; [|exact Hp]. cbn [Host.setApp Host.app].
    destruct (deleteStation_fields (Host.app st) (Host.app st) (id station)) as (Hs & _).
    rewrite Hs. now apply keep_other_NoDup.
  - cbn [Host.handle]. destruct (App.viewListButtonShown (Host.app st)); now split.
  - cbn [Host.handle]. destruct (App.renderSidebar (Host.app st)); try now split.
    destruct (nth_error (stations (Host.app st)) n); now split.
  - now split.
Qed.

(** X2. Along any run of events from a state whose record identities are
    unique and in which no submission is suspended, the identities stay
    unique, provided every submission carries an identity that no record
    of the list has at that time; this holds also when submissions resume
    after other events. *)
Theorem identities_stay_unique (events : list Host.Event) (st : Host.State) :
  List.NoDup (map id (stations (Host.app st))) ->
  Host.inflight st = [] ->
  fresh_identities events st ->
  List.NoDup (map id (stations (Host.app (Host.run events st)))).
Proof.
  intros Hnd Hi Hf.
  assert (Hp : inflight_unique st) by (unfold inflight_unique; rewrite Hi; constructor).
  clear Hi. revert st Hnd Hp Hf.
  induction events as [|e rest IH]; intros st Hnd Hp Hf; [exact Hnd|].
  destruct Hf as [He Hrest]. cbn [Host.run fold_left].
  destruct (handle_keeps_identities_unique e st He Hnd Hp) as [Hnd' Hp'].
  now apply IH.
Qed.

(** X3. Deleting an identity that no record carries leaves the list as it
    is; the storage is still rewritten, with the text of the same list. *)
Theorem deleteStation_absent (w : World) (i : string) :
  ~ In i (map id (stations w)) ->
  stations (App.deleteStation w i w) = stations w /\
  getItem App.STORAGE_KEY_DATA (App.deleteStation w i w)
    = Some (JSON.stringify_stations (stations w)).
Proof.
  intros Hn.
  destruct (deleteStation_fields w w i) as (Hs & _ & Hl & _).
  rewrite (filter_absent i _ Hn) in Hs, Hl.
  split; [exact Hs|]. unfold getItem. rewrite Hl. apply lookup_insert_eq.
Qed.

Lemma keep_other_In (i : string) (l : list StationData) (s : StationData) :
  In s (List.filter (keep_other i) l) <-> In s l /\ id s <> i.
Proof.
  rewrite List.filter_In. unfold keep_other.
  destruct (String.eqb_spec (id s) i); simpl; intuition congruence.
Qed.

(** X4. Whatever the list, after a deletion by identity no record with
    that identity is left, even when several carried it; a record is in the
    new list exactly when it was in the old one under another identity;
    and deleting the same identity again changes nothing. *)
Theorem deleteStation_removes_all (w : World) (i : string) :
  let w' := App.deleteStation w i w in
  ~ In i (map id (stations w')) /\
  (forall s, In s (stations w') <-> In s (stations w) /\ id s <> i) /\
  length (stations w') <= length (stations w) /\
  stations (App.deleteStation w' i w') = stations w' /\
  localStorage (App.deleteStation w' i w') = localStorage w'.
Proof.
  intros w'.
  destruct (deleteStation_fields w w i) as (Hs & _ & Hl & _). fold w' in Hs, Hl.
  assert (Hno : ~ In i (map id (stations w'))).
  { rewrite Hs. intros Hin. apply in_map_iff in Hin as (s & Es & Hin).
    apply keep_other_In in Hin as [_ Hne]. contradiction. }
  split; [exact Hno|]. split.
  { intros s. rewrite Hs. apply keep_other_In. }
  split.
  { rewrite Hs. apply List.filter_length_le. }
  destruct (deleteStation_fields w' w' i) as (Hs' & _ & Hl' & _).
  rewrite (filter_absent i _ Hno) in Hs', Hl'.
  split; [exact Hs'|].
  rewrite Hl', Hl, Hs. apply insert_insert_eq.
Qed.

(** X5. The selection is a single pending click. A click on the map runs
    the [handleMapClick] of the render [r] in which the map was
    constructed: it selects the clicked coordinate in place of any earlier
    selection and switches to the map mode, so that the sidebar of the
    next render holds the form bound to the click; it opens the sidebar
    only when the sidebar was closed in render [r], so when the map was
    constructed with the sidebar open, a click made after the sidebar was
    closed leaves it closed. Cancelling the form clears the selection;
    none of this touches the record list or the storage. *)
Theorem selection_lifecycle (st : Host.State) (r : World) (loc loc2 : Location) :
  Host.mapListener st = Some r ->
  let w := Host.app st in
  let st1 := Host.handle (Host.MapClicked loc) st in
  let w1 := Host.app st1 in
  w1 = App.handleMapClick r loc w /\
  selectedLocation w1 = Some loc /\
  currentView w1 = MAP /\
  isSidebarOpen w1 = (isSidebarOpen w || negb (isSidebarOpen r)) /\
  (isSidebarOpen r = true -> isSidebarOpen w1 = isSidebarOpen w) /\
  stations w1 = stations w /\ localStorage w1 = localStorage w /\
  App.renderSidebar w1 = App.StationFormPanel loc (googleSheetScriptUrl (config w)) /\
  selectedLocation (Host.app (Host.handle (Host.MapClicked loc2) st1)) = Some loc2 /\
  selectedLocation (Host.app (Host.handle Host.CancelForm st1)) = None /\
  stations (Host.app (Host.handle Host.CancelForm st1)) = stations w /\
  localStorage (Host.app (Host.handle Host.CancelForm st1)) = localStorage w.
Proof.
  intros Hm w st1 w1. unfold w1, st1, w. clear w1 st1 w.
  destruct st as [w m p]. cbn [Host.mapListener] in Hm. subst m.
  cbn [Host.handle Host.app Host.mapListener Host.setApp]. unfold App.handleMapClick.
  destruct w as [c sts v mc z sl so ls co al nw],
           r as [c' sts' v' mc' z' sl' so' ls' co' al' nw'].
  cbn. destruct so, so'; cbn; repeat split; intros E; (reflexivity || discriminate E).
Qed.

(** X6. A submission followed by the deletion of the record it added
    gives back the list and the stored text there were before, when the
    identity of the new record was not in the list. *)
Theorem submit_then_delete (st : Host.State) (s : Location) (f : StationForm.FormState)
        (uuid : string) (now : number) (o : sheetService.FetchOutcome) :
  selectedLocation (Host.app st) = Some s ->
  currentView (Host.app st) = MAP ->
  ~ In uuid (map id (stations (Host.app st))) ->
  let w := Host.app st in
  let w1 := Host.app (Host.submit f uuid now o st) in
  let w2 := Host.app (Host.handle (Host.DeleteStation 0) (Host.submit f uuid now o st)) in
  length (stations w1) = S (length (stations w)) /\
  stations w2 = stations w /\
  getItem App.STORAGE_KEY_DATA w2 = Some (JSON.stringify_stations (stations w)).
Proof.
  intros Hs Hv Hfresh w w1 w2.
  destruct (submit_world st s f uuid now o Hs Hv) as (Hst & Hsel & Hview & _ & Hls).
  fold w w1 in Hst, Hsel, Hview, Hls. cbv zeta in Hst, Hls.
  set (r := StationForm.newStation (Host.formProps w s (googleSheetScriptUrl (config w)))
              f uuid now) in *.
  assert (Hside : App.renderSidebar w1 = App.StationListPanel (stations w1)).
  { unfold App.renderSidebar. now rewrite Hview, Hsel. }
  assert (Hw2 : w2 = App.deleteStation w1 uuid w1).
  { unfold w2. cbn [Host.handle]. fold w1. now rewrite Hside, Hst. }
  destruct (deleteStation_fields w1 w1 uuid) as (Hd & _ & Hdl & _).
  rewrite <- Hw2 in Hd, Hdl.
  assert (Hfil : List.filter (keep_other uuid) (stations w1) = stations w).
  { rewrite Hst. cbn [List.filter]. unfold keep_other at 1.
    change (id r) with uuid. rewrite String.eqb_refl. cbn [negb].
    now apply filter_absent. }
  rewrite Hfil in Hd, Hdl.
  split; [now rewrite Hst|]. split; [exact Hd|].
  unfold getItem. rewrite Hdl. apply lookup_insert_eq.
Qed.

(** X7. Looking around writes nothing: along any run of map
    constructions, map clicks, marker clicks, locating, opening the
    settings, cancelling the form, switching views and toggling the
    sidebar, the record list, the configuration, the storage, the network
    log and the console stay as they were; only a failed geolocation
    raises an alert. *)
Theorem navigation_writes_nothing (events : list Host.Event) (st : Host.State) :
  forallb (fun e => negb (writes e)) events = true ->
  let w := Host.app st in
  let w' := Host.app (Host.run events st) in
  stations w' = stations w /\
  config w' = config w /\
  localStorage w' = localStorage w /\
  network w' = network w /\
  console w' = console w /\
  (~ In (Host.LocateMe App.GeoError) events -> alerts w' = alerts w).
Proof.
  revert st. induction events as [|e rest IH]; intros st Hn; [repeat split|].
  cbn [forallb] in Hn. apply andb_prop in Hn as [He Hr].
  specialize (IH (Host.handle e st) Hr). cbv zeta in IH |- *.
  cbn [Host.run fold_left] in IH |- *. fold (Host.run rest (Host.handle e st)).
  destruct IH as (Hs & Hc & Hl & Hnw & Hco & Ha).
  rewrite Hs, Hc, Hl, Hnw, Hco.
  assert (step : stations (Host.app (Host.handle e st)) = stations (Host.app st) /\
                 config (Host.app (Host.handle e st)) = config (Host.app st) /\
                 localStorage (Host.app (Host.handle e st)) = localStorage (Host.app st) /\
                 network (Host.app (Host.handle e st)) = network (Host.app st) /\
                 console (Host.app (Host.handle e st)) = console (Host.app st) /\
                 (e <> Host.LocateMe App.GeoError ->
                  alerts (Host.app (Host.handle e st)) = alerts (Host.app st))).
  { destruct e as [|loc|n|g| |s| |f uuid now|n o|n| |n|open]; try discriminate He;
      cbn [Host.handle].
    - repeat split.
    - destruct (Host.mapListener st) as [r|]; [|repeat split].
      cbn [Host.setApp Host.app]. unfold App.handleMapClick.
      destruct (isSidebarOpen r); repeat split.
    - destruct (nth_error (stations (Host.app st)) n); repeat split.
    - destruct g; repeat split. intros Hg. now elim Hg.
    - repeat split.
    - destruct (App.renderSidebar (Host.app st)); repeat split.
    - destruct (App.viewListButtonShown (Host.app st)); repeat split.
    - destruct (App.renderSidebar (Host.app st)); try (repeat split; fail).
      destruct (nth_error (stations (Host.app st)) n); repeat split.
    - repeat split. }
  destruct step as (Hs1 & Hc1 & Hl1 & Hn1 & Hco1 & Ha1).
  repeat split; try assumption.
  intros Hni. rewrite Ha.
  - apply Ha1. intros E. apply Hni. left. exact E.
  - intros Hi. apply Hni. right. exact Hi.
Qed.



End HostFacts2.

Lemma navigation_writes_nothing_witness :
  let events := [Host.MapConstructed; Host.MapClicked clicked; Host.OpenSettings;
                 Host.ViewList;
                 Host.LocateMe (App.GeoPosition 21.03%float 105.85%float);
                 Host.MarkerClicked 0; Host.CancelForm; Host.ToggleSidebar false] in
  let st := Host.mounted (setStations one_station (App.initial ∅)) in
  let w := Host.app st in
  let w' := Host.app (Host.run (H := constant_runtime) events st) in
  stations w' = stations w /\
  config w' = config w /\
  localStorage w' = localStorage w /\
  network w' = network w /\
  console w' = console w /\
  (~ In (Host.LocateMe App.GeoError) events -> alerts w' = alerts w).
Proof.
  intros events st.
  apply (navigation_writes_nothing (H := constant_runtime) events st). reflexivity.
Defined.

Lemma identities_stay_unique_witness :
  List.NoDup
    (map id (stations (Host.app
       (Host.run (H := constant_runtime)
          [Host.MapConstructed; Host.OpenSettings; Host.SaveSettings webhook_settings;
           Host.MapClicked clicked;
           Host.SubmitForm filled_form "id-1" 0%float;
           Host.MapClicked clicked;
           Host.SubmitForm filled_form "id-2" 0%float;
           Host.WebhookSettled 1 sheetService.FetchResolved;
           Host.WebhookSettled 0 sheetService.FetchResolved;
           Host.DeleteStation 1]
          (Host.mounted (App.initial ∅)))))).
Proof.
  apply (identities_stay_unique (H := constant_runtime)).
  - constructor.
  - reflexivity.
  - cbn. repeat split; intuition discriminate.
Defined.

Lemma deleteStation_absent_witness :
  let w := setStations one_station (App.initial ∅) in
  stations (App.deleteStation (H := constant_runtime) w "zz" w) = stations w /\
  getItem App.STORAGE_KEY_DATA (App.deleteStation (H := constant_runtime) w "zz" w)
    = Some (JSON.stringify_stations (H := constant_runtime) (stations w)).
Proof.
  intros w. apply (deleteStation_absent (H := constant_runtime) w "zz").
  simpl. intuition discriminate.
Defined.

Lemma selection_lifecycle_witness :
  let st := Host.run (H := constant_runtime)
              [Host.MapConstructed; Host.ToggleSidebar false]
              (Host.mounted (App.initial ∅)) in
  let r := App.initial ∅ in
  let w := Host.app st in
  let st1 := Host.handle (H := constant_runtime) (Host.MapClicked clicked) st in
  let w1 := Host.app st1 in
  w1 = App.handleMapClick r clicked w /\
  selectedLocation w1 = Some clicked /\
  currentView w1 = MAP /\
  isSidebarOpen w1 = (isSidebarOpen w || negb (isSidebarOpen r)) /\
  (isSidebarOpen r = true -> isSidebarOpen w1 = isSidebarOpen w) /\
  stations w1 = stations w /\ localStorage w1 = localStorage w /\
  App.renderSidebar w1 = App.StationFormPanel clicked (googleSheetScriptUrl (config w)) /\
  selectedLocation
    (Host.app (Host.handle (H := constant_runtime) (Host.MapClicked clicked) st1))
    = Some clicked /\
  selectedLocation (Host.app (Host.handle (H := constant_runtime) Host.CancelForm st1))
    = None /\
  stations (Host.app (Host.handle (H := constant_runtime) Host.CancelForm st1))
    = stations w /\
  localStorage (Host.app (Host.handle (H := constant_runtime) Host.CancelForm st1))
    = localStorage w.
Proof.
  intros st r.
  apply (selection_lifecycle (H := constant_runtime) st r clicked clicked). reflexivity.
Defined.

Lemma submit_then_delete_witness :
  let st := Host.run (H := constant_runtime) [Host.MapConstructed; Host.MapClicked clicked]
              (Host.mounted (setStations one_station (App.initial ∅))) in
  let w := Host.app st in
  let w1 := Host.app (Host.submit (H := constant_runtime) filled_form "id-1" 0%float
                                  sheetService.FetchResolved st) in
  let w2 := Host.app (Host.handle (H := constant_runtime) (Host.DeleteStation 0)
                        (Host.submit (H := constant_runtime) filled_form "id-1" 0%float
                                     sheetService.FetchResolved st)) in
  length (stations w1) = S (length (stations w)) /\
  stations w2 = stations w /\
  getItem App.STORAGE_KEY_DATA w2
    = Some (JSON.stringify_stations (H := constant_runtime) (stations w)).
Proof.
  intros st.
  apply (submit_then_delete (H := constant_runtime) st clicked filled_form "id-1" 0%float
           sheetService.FetchResolved); [reflexivity | reflexivity |].
  simpl. intuition discriminate.
Defined.


Section LoadFacts.
Context `{JSRuntime}.
Variable JSON_parse_stations : string -> option (list StationData).

(** X8. When each of the two storage keys is missing or holds the empty
    string, the load effect parses nothing, throws nothing and leaves the
    state as it is. *)
Theorem loadPersisted_nothing_stored (w : World) :
  absent_or_empty App.STORAGE_KEY_CONFIG w ->
  absent_or_empty App.STORAGE_KEY_DATA w ->
  App.loadPersisted JSON_parse_stations w = Normal w.
Proof.
  unfold absent_or_empty, App.loadPersisted. intros Hc Hd.
  destruct (getItem App.STORAGE_KEY_CONFIG w) as [c|]; [subst c; cbn [truthy]|];
    (destruct (getItem App.STORAGE_KEY_DATA w) as [t|]; [subst t|]; reflexivity).
Qed.
End LoadFacts.

Lemma loadPersisted_nothing_stored_witness :
  App.loadPersisted (fun _ => None)
    (App.initial (<[App.STORAGE_KEY_DATA := EmptyString]> ∅))
  = Normal (App.initial (<[App.STORAGE_KEY_DATA := EmptyString]> ∅)).
Proof.
  apply (loadPersisted_nothing_stored (fun _ => None)).
  - exact I.
  - reflexivity.
Defined.

Section SettingsFacts.
Context `{JSRuntime}.

(** X9. Saving the settings form, when the sidebar shows it, replaces the
    whole configuration by the two fields of the form, writes its JSON
    text under the configuration key and returns to the map mode; opening
    the settings again shows the fields just saved; the record list and
    its storage key are untouched. *)
Theorem settings_save (st : Host.State) (s : Settings.SettingsState) :
  currentView (Host.app st) = SETTINGS ->
  let w := Host.app st in
  let w' := Host.app (Host.handle (Host.SaveSettings s) st) in
  config w' = {| googleMapsApiKey := Settings.mapsKey s;
                 googleSheetScriptUrl := Settings.scriptUrl s |} /\
  Settings.mount (config w') = s /\
  getItem App.STORAGE_KEY_CONFIG w' = Some (JSON.stringify_config (config w')) /\
  currentView w' = MAP /\
  stations w' = stations w /\
  getItem App.STORAGE_KEY_DATA w' = getItem App.STORAGE_KEY_DATA w /\
  selectedLocation w' = selectedLocation w.
Proof.
  intros Hv w w'. unfold w'. cbn [Host.handle]. fold w. unfold App.renderSidebar.
  fold w in Hv. rewrite Hv. cbn [AppView_eqb Host.setApp Host.app].
  unfold Settings.handleSubmit, getItem. cbn.
  destruct s as [k u]. repeat split.
  - apply lookup_insert_eq.
  - apply lookup_insert_ne. discriminate.
Qed.
End SettingsFacts.

Lemma settings_save_witness :
  let s := {| Settings.mapsKey := "K"; Settings.scriptUrl := "https://script.example/exec" |} in
  let st := Host.run (H := constant_runtime) [Host.OpenSettings]
              (Host.mounted (App.initial ∅)) in
  let w := Host.app st in
  let w' := Host.app (Host.handle (H := constant_runtime) (Host.SaveSettings s) st) in
  config w' = {| googleMapsApiKey := "K";
                 googleSheetScriptUrl := "https://script.example/exec" |} /\
  Settings.mount (config w') = s /\
  getItem App.STORAGE_KEY_CONFIG w' = Some (JSON.stringify_config (config w')) /\
  currentView w' = MAP /\
  stations w' = stations w /\
  getItem App.STORAGE_KEY_DATA w' = getItem App.STORAGE_KEY_DATA w /\
  selectedLocation w' = selectedLocation w.
Proof.
  intros s st.
  apply (settings_save (H := constant_runtime) st s). reflexivity.
Defined.

(** ** The sheet service *)

Section SheetFacts.
Context `{JSRuntime}.
Local Open Scope string_scope.

(** X10. Without a webhook URL the sheet service does nothing: it returns
    [false], issues no request and logs nothing. With a URL it issues
    exactly one request, and it returns [true] exactly when that request
    resolved. *)
Theorem saveToGoogleSheetScript_result (station : StationData) (url : string)
        (o : sheetService.FetchOutcome) (w : World) :
  sheetService.saveToGoogleSheetScript station EmptyString o w = (Normal false, w) /\
  (fst (sheetService.saveToGoogleSheetScript station url o w) = Normal true
   <-> truthy url = true /\ o = sheetService.FetchResolved) /\
  network (snd (sheetService.saveToGoogleSheetScript station url o w))
    = (network w ++ if truthy url
                    then [Fetch url "POST" "no-cors" (sheetService.payload station)]
                    else [])%list.
Proof.
  split; [reflexivity|].
  unfold sheetService.saveToGoogleSheetScript, sheetService.save_body.
  destruct (truthy url); cbn [negb]; [destruct o|]; cbn; rewrite ?app_nil_r;
    (split; [split; [intros E; inversion E; auto | intros [? ?]; congruence] | reflexivity]).
Qed.

(** X11. The request carries the seven form fields [id], [name],
    [address], [lat], [lng], [description] and [imageCount], and of the
    images only their number: two records that differ in nothing but the
    content of equally many images give the same payload. *)
Theorem payload_ignores_image_contents (s1 s2 : StationData) :
  id s1 = id s2 -> name s1 = name s2 -> address s1 = address s2 ->
  location s1 = location s2 -> description s1 = description s2 ->
  length (images s1) = length (images s2) ->
  sheetService.payload s1 = sheetService.payload s2 /\
  map fst (sheetService.payload s1)
    = ["id"; "name"; "address"; "lat"; "lng"; "description"; "imageCount"]%list.
Proof.
  intros Hi Hn Ha Hl Hd Hlen. unfold sheetService.payload.
  rewrite Hi, Hn, Ha, Hl, Hd, Hlen. split; reflexivity.
Qed.

End SheetFacts.

Lemma payload_ignores_image_contents_witness :
  let s1 := {| id := "a"; name := "A"; address := "B"; location := clicked;
               description := EmptyString; images := ["data:image/png;base64,QUJD"];
               timestamp := 0%float |} in
  let s2 := {| id := "a"; name := "A"; address := "B"; location := clicked;
               description := EmptyString; images := ["data:image/png;base64,REVG"];
               timestamp := 1%float |} in
  sheetService.payload (H := constant_runtime) s1
    = sheetService.payload (H := constant_runtime) s2 /\
  map fst (sheetService.payload (H := constant_runtime) s1)
    = ["id"; "name"; "address"; "lat"; "lng"; "description"; "imageCount"]%list.
Proof.
  intros s1 s2.
  apply (payload_ignores_image_contents (H := constant_runtime) s1 s2); reflexivity.
Defined.

(** ** The captioning service and the form *)

Section CaptionFacts.
Context `{JSRuntime}.

(** X12. The description returned is never the empty string: it is the
    text of the response when that is non-empty, [No description
    generated.] when the response has no text or an empty one, and the
    fallback text when the call is rejected. With at
    least one image exactly one call is issued, with one part per image;
    only a failure writes to the console. *)
Theorem generateStationDescription_outcomes
        (img : string) (rest : list string) (loc : Location)
        (o : geminiService.GenOutcome) (w : World) :
  let res := geminiService.generateStationDescription (img :: rest) loc o w in
  fst res
    = Normal (match o with
              | geminiService.GenResolved (Some (String c t)) => String c t
              | geminiService.GenResolved _ => "No description generated."
              | geminiService.GenRejected _ => geminiService.fallbackDescription
              end) /\
  (forall imgs o' w', fst (geminiService.generateStationDescription imgs loc o' w')
                      <> Normal EmptyString) /\
  network (snd res)
    = network w ++ [GenerateContent "gemini-3-flash-preview"
                      (map geminiService.inlineData (img :: rest))
                      (geminiService.promptText loc)] /\
  console (snd res)
    = console w ++ match o with
                   | geminiService.GenRejected err => [("Gemini Analysis Error: " ++ err)%string]
                   | geminiService.GenResolved _ => []
                   end.
Proof.
  intros res. unfold res, geminiService.generateStationDescription,
                geminiService.generate_body.
  split; [destruct o as [[[|c t]|]|err]; reflexivity|].
  split.
  { intros imgs o' w'. destruct imgs as [|i r]; [discriminate|].
    destruct o' as [[[|c t]|]|err]; discriminate. }
  split; destruct o as [[[|c t]|]|err]; cbn; rewrite ?app_nil_r; reflexivity.
Qed.

Lemma generate_normal (imgs : list string) (loc : Location)
      (o : geminiService.GenOutcome) (w : World) :
  exists s, fst (geminiService.generateStationDescription imgs loc o w) = Normal s
            /\ s <> EmptyString.
Proof.
  unfold geminiService.generateStationDescription, geminiService.generate_body.
  destruct imgs as [|i r]; [eexists; split; [reflexivity | discriminate]|].
  destruct o as [[[|c t]|]|err]; eexists; (split; [reflexivity | discriminate]).
Qed.

(** X13. The analysis button, pressed on a form without images, does
    nothing at all. With images it completes normally, replaces the
    description by the non-empty text the service returned, resets the
    analysing flag and leaves the name, the address, the images and the
    readers in flight as they are; the images analysed are those of the
    render that created the handler. *)
Theorem handleGeminiAnalysis_result (p : StationForm.Props) (r f : StationForm.FormState)
        (o : geminiService.GenOutcome) (w : World) :
  let res := StationForm.handleGeminiAnalysis p r o (f, w) in
  fst res = Normal tt /\
  (StationForm.images r = [] -> snd res = (f, w)) /\
  (StationForm.images r <> [] ->
   fst (geminiService.generateStationDescription
          (StationForm.images r) (StationForm.location p) o w)
     = Normal (StationForm.description (fst (snd res))) /\
   StationForm.description (fst (snd res)) <> EmptyString /\
   StationForm.isAnalyzing (fst (snd res)) = false /\
   StationForm.name (fst (snd res)) = StationForm.name f /\
   StationForm.address (fst (snd res)) = StationForm.address f /\
   StationForm.images (fst (snd res)) = StationForm.images f /\
   StationForm.reading (fst (snd res)) = StationForm.reading f /\
   snd (snd res)
     = snd (geminiService.generateStationDescription
              (StationForm.images r) (StationForm.location p) o w)).
Proof.
  intros res. unfold res, StationForm.handleGeminiAnalysis.
  destruct (StationForm.images r) as [|i rest] eqn:Ei.
  - split; [reflexivity|]. split; [reflexivity|]. intros Hne. now elim Hne.
  - destruct (generate_normal (i :: rest) (StationForm.location p) o w) as (s & Es & Hs).
    destruct (geminiService.generateStationDescription (i :: rest)
                (StationForm.location p) o w) as [c w1].
    cbn [fst] in Es. subst c. cbn.
    split; [reflexivity|]. split; [discriminate|].
    intros _. repeat split. exact Hs.
Qed.
End CaptionFacts.

(** ** The images of the form *)

Lemma filteri_ext {A} (p q : nat -> bool) (i0 : nat) (l : list A) :
  (forall i, p i = q i) -> StationForm.filteri p i0 l = StationForm.filteri q i0 l.
Proof.
  intros E. revert i0. induction l as [|x l IH]; intros i0; [reflexivity|].
  cbn [StationForm.filteri]. now rewrite E, IH.
Qed.

Lemma filteri_above {A} (k j : nat) (l : list A) :
  k < j -> StationForm.filteri (fun i => negb (Nat.eqb i k)) j l = l.
Proof.
  revert j. induction l as [|y l IH]; intros j Hj; [reflexivity|].
  cbn [StationForm.filteri].
  destruct (Nat.eqb_spec j k); [lia|]. cbn [negb]. f_equal. apply IH. lia.
Qed.

Lemma filteri_delete {A} (index i0 : nat) (l : list A) :
  StationForm.filteri (fun i => negb (Nat.eqb i (i0 + index))) i0 l = delete index l.
Proof.
  revert index i0. induction l as [|x l IH]; intros index i0; [reflexivity|].
  cbn [StationForm.filteri]. destruct index as [|index].
  - rewrite Nat.add_0_r, Nat.eqb_refl. cbn [negb].
    change (delete 0 (x :: l)) with l. apply filteri_above. lia.
  - destruct (Nat.eqb_spec i0 (i0 + S index)); [lia|]. cbn [negb].
    change (delete (S index) (x :: l)) with (x :: delete index l). f_equal.
    rewrite <- (IH index (S i0)). apply filteri_ext. intros i.
    now rewrite Nat.add_succ_r.
Qed.

(** X14. Removing the image at an index of the list deletes that one
    image and keeps the others in their order; an index past the end
    changes nothing. The readers in flight and the text fields are left
    alone. *)
Theorem removeImage_deletes_at_index (index : nat) (f : StationForm.FormState) :
  StationForm.images (StationForm.removeImage index f)
    = delete index (StationForm.images f) /\
  (forall img, StationForm.images f !! index = Some img ->
     S (length (StationForm.images (StationForm.removeImage index f)))
       = length (StationForm.images f) /\
     StationForm.images f
       = take index (StationForm.images f) ++ img :: drop (S index) (StationForm.images f) /\
     StationForm.images (StationForm.removeImage index f)
       = take index (StationForm.images f) ++ drop (S index) (StationForm.images f)) /\
  (length (StationForm.images f) <= index -> StationForm.removeImage index f = f) /\
  StationForm.reading (StationForm.removeImage index f) = StationForm.reading f /\
  StationForm.name (StationForm.removeImage index f) = StationForm.name f /\
  StationForm.description (StationForm.removeImage index f) = StationForm.description f.
Proof.
  assert (Hd : StationForm.images (StationForm.removeImage index f)
               = delete index (StationForm.images f)).
  { unfold StationForm.removeImage. cbn.
    exact (filteri_delete index 0 (StationForm.images f)). }
  split; [exact Hd|]. split; [|split].
  - intros img Hi. rewrite Hd. split; [|split].
    + rewrite length_delete by eauto. apply lookup_lt_Some in Hi. lia.
    + symmetry. now apply take_drop_middle.
    + apply delete_take_drop.
  - intros Hge.
    assert (E : StationForm.removeImage index f
                = StationForm.setImages (delete index (StationForm.images f)) f).
    { unfold StationForm.removeImage. f_equal.
      exact (filteri_delete index 0 (StationForm.images f)). }
    rewrite E, delete_take_drop, take_ge, drop_ge, app_nil_r by lia. now destruct f.
  - repeat split.
Qed.

(** How many files an upload keeps. *)
Lemma slice0_take {A} (files : list A) (k : nat) :
  StationForm.slice0 files (4 - Z.of_nat k)
  = take (if Nat.leb k 4 then 4 - k else length files - (k - 4)) files.
Proof.
  unfold StationForm.slice0.
  destruct (Z.ltb_spec (4 - Z.of_nat k) 0) as [Hneg|Hpos];
    destruct (Nat.leb_spec k 4) as [Hk|Hk]; try lia.
  - f_equal. lia.
  - destruct (Nat.le_ge_cases (4 - k) (length files)) as [Hle|Hge].
    + f_equal. lia.
    + rewrite !take_ge by lia. reflexivity.
Qed.

(** X15. An upload without a file list changes nothing. Otherwise the
    handler created by render [r] starts one reader per kept file and
    changes nothing else: with at most four images in that render it keeps
    the first files up to the number of free slots, four less the images of
    the render, however many readers are already in flight; with more than
    four images it keeps all the files but the last as many as the images
    exceed four. *)
Theorem handleImageUpload_keeps (r f : StationForm.FormState) (files : list string) :
  let k := length (StationForm.images r) in
  let f' := StationForm.handleImageUpload r (Some files) f in
  StationForm.handleImageUpload r None f = f /\
  StationForm.reading f'
    = StationForm.reading f
      ++ take (if Nat.leb k 4 then 4 - k else length files - (k - 4)) files /\
  StationForm.images f' = StationForm.images f /\
  StationForm.name f' = StationForm.name f /\
  StationForm.address f' = StationForm.address f /\
  StationForm.description f' = StationForm.description f /\
  (k <= 4 -> length (StationForm.reading f') <= length (StationForm.reading f) + (4 - k)) /\
  (4 < k -> k <= 4 + length files ->
   length (StationForm.reading f') = length (StationForm.reading f) + length files - (k - 4)).
Proof.
  intros k f'. split; [reflexivity|].
  assert (Hr : StationForm.reading f'
               = StationForm.reading f
                 ++ take (if Nat.leb k 4 then 4 - k else length files - (k - 4)) files).
  { unfold f', StationForm.handleImageUpload. cbn. now rewrite slice0_take. }
  split; [exact Hr|]. repeat split; clearbody f' k.
  - intros Hk. rewrite Hr, length_app, length_take.
    destruct (Nat.leb_spec k 4); lia.
  - intros Hk1 Hk2. rewrite Hr, length_app, length_take.
    destruct (Nat.leb_spec k 4); lia.
Qed.

(** X16. When a reader in flight finishes, its result leaves the readers
    and becomes the last image: the images and the results in flight,
    taken together, are the same as before up to order, so no file is lost
    or loaded twice; the other readers keep their order. A reader that is
    not in flight changes nothing. *)
Theorem onloadend_moves_one_result (i : nat) (f : StationForm.FormState) :
  (forall result, StationForm.reading f !! i = Some result ->
     StationForm.images (StationForm.onloadend i f) = StationForm.images f ++ [result] /\
     StationForm.reading (StationForm.onloadend i f) = delete i (StationForm.reading f) /\
     S (length (StationForm.reading (StationForm.onloadend i f)))
       = length (StationForm.reading f)) /\
  (length (StationForm.reading f) <= i -> StationForm.onloadend i f = f) /\
  StationForm.images (StationForm.onloadend i f)
    ++ StationForm.reading (StationForm.onloadend i f)
    ≡ₚ StationForm.images f ++ StationForm.reading f.
Proof.
  unfold StationForm.onloadend. split; [|split].
  - intros result Hi. rewrite Hi. cbn. repeat split.
    rewrite length_delete by eauto. apply lookup_lt_Some in Hi. lia.
  - intros Hge. now rewrite lookup_ge_None_2.
  - destruct (StationForm.reading f !! i) as [result|] eqn:Hi; [|reflexivity].
    cbn. rewrite <- app_assoc. apply Permutation_app_head. cbn.
    symmetry. now apply delete_Permutation.
Qed.

(** ** The image data sent to the captioning service *)

Section InlineData.
Local Open Scope string_scope.

Lemma has_char_cons (c x : ascii) (s : string) :
  has_char c (String x s) = false -> Ascii.eqb c x = false /\ has_char c s = false.
Proof. cbn. now intros [? ?]%orb_false_iff. Qed.

(** A text without a comma does not start with the separator. *)
Lemma strip_prefix_no_comma (s : string) :
  has_char "," s = false -> strip_prefix "base64," s = None.
Proof.
  intros Hs.
  do 6 (destruct s as [|? s]; [reflexivity|];
        apply has_char_cons in Hs as [_ Hs];
        cbn [strip_prefix];
        match goal with |- (if ?b then _ else _) = _ => destruct b; [|reflexivity] end).
  destruct s as [|c s]; [reflexivity|].
  apply has_char_cons in Hs as [Hc _]. cbn [strip_prefix]. now rewrite Hc.
Qed.

Lemma cut_no_comma (s : string) :
  has_char "," s = false -> cut "base64," s = None.
Proof.
  induction s as [|c s IH]; intros Hs; [reflexivity|].
  cbn [cut]. rewrite (strip_prefix_no_comma _ Hs).
  apply has_char_cons in Hs as [_ Hs]. now rewrite (IH Hs).
Qed.

(** Nor does a non-empty text without a comma, followed by the separator. *)
Lemma strip_prefix_before_separator (c : ascii) (p d : string) :
  has_char "," (String c p) = false ->
  strip_prefix "base64," (String c (p ++ "base64," ++ d)) = None.
Proof.
  intros Hs. apply has_char_cons in Hs as [_ Hs].
  cbn [strip_prefix].
  destruct (Ascii.eqb "b" c); [|reflexivity].
  do 5 (destruct p as [|? p];
        [cbn; reflexivity|];
        apply has_char_cons in Hs as [_ Hs];
        cbn [String.append strip_prefix];
        match goal with |- (if ?b then _ else _) = _ => destruct b; [|reflexivity] end).
  destruct p as [|x p]; [cbn; reflexivity|].
  apply has_char_cons in Hs as [Hc _]. cbn [String.append strip_prefix]. now rewrite Hc.
Qed.

Lemma cut_at_separator (p d : string) :
  has_char "," p = false ->
  cut "base64," (p ++ "base64," ++ d) = Some (p, d).
Proof.
  induction p as [|c p IH]; intros Hp; [reflexivity|].
  change (String c p ++ "base64," ++ d) with (String c (p ++ "base64," ++ d)).
  cbn [cut]. rewrite (strip_prefix_before_separator c p d Hp).
  apply has_char_cons in Hp as [_ Hp]. now rewrite (IH Hp).
Qed.

(** X17. Of a data URL, that is a header without comma, the separator
    [base64,] and a payload without comma, the service sends the payload
    alone; an image text that holds no comma, hence no separator, is sent
    as it is. *)
Theorem inlineData_of_data_url (header payload : string) :
  has_char "," header = false ->
  has_char "," payload = false ->
  geminiService.inlineData (header ++ "base64," ++ payload) = payload /\
  geminiService.inlineData payload = payload.
Proof.
  intros Hh Hp. unfold geminiService.inlineData, includes, split_at1.
  rewrite (cut_at_separator header payload Hh), !(cut_no_comma payload Hp).
  split; reflexivity.
Qed.
End InlineData.

Lemma inlineData_of_data_url_witness :
  geminiService.inlineData ("data:image/jpeg;" ++ "base64," ++ "QUJD")%string = "QUJD" /\
  geminiService.inlineData "QUJD" = "QUJD".
Proof.
  apply (inlineData_of_data_url "data:image/jpeg;" "QUJD"); reflexivity.
Defined.

(** ** Reading an exported line back *)

Section CSVReader.
Local Open Scope string_scope.

Lemma plain_cons (c : ascii) (s : string) :
  plain (String c s) ->
  Ascii.eqb c "," = false /\ Ascii.eqb c dquote = false /\ plain s.
Proof.
  intros [H1 H2]. apply has_char_cons in H1 as [H1 H1'], H2 as [H2 H2'].
  rewrite Ascii.eqb_sym in H1. rewrite Ascii.eqb_sym in H2.
  repeat split; assumption.
Qed.

Lemma add_char_cons (c : ascii) (p : string) (r : option (list string)) :
  add_char c (option_map (cons p) r) = option_map (cons (String c p)) r.
Proof. now destruct r. Qed.

Lemma read_plain_comma (p t : string) :
  plain p -> read_plain (p ++ String "," t) = option_map (cons p) (read_line t).
Proof.
  induction p as [|c p IH]; intros Hp.
  - cbn [String.append read_plain]. change (Ascii.eqb "," ",") with true. cbv iota.
    unfold new_field, read_line. destruct t as [|c' t']; reflexivity.
  - apply plain_cons in Hp as (Hc & Hq & Hp).
    change (String c p ++ String "," t) with (String c (p ++ String "," t)).
    cbn [read_plain]. rewrite Hc, Hq, (IH Hp). apply add_char_cons.
Qed.

Lemma read_plain_end (p : string) : plain p -> read_plain p = Some [p]%list.
Proof.
  induction p as [|c p IH]; intros Hp; [reflexivity|].
  apply plain_cons in Hp as (Hc & Hq & Hp).
  cbn [read_plain]. now rewrite Hc, Hq, (IH Hp).
Qed.

Lemma read_line_plain (p : string) :
  plain p -> forall t, read_line (p ++ String "," t) = option_map (cons p) (read_line t).
Proof.
  intros Hp t. rewrite <- (read_plain_comma p t Hp).
  destruct p as [|c p]; [reflexivity|].
  apply plain_cons in Hp as (_ & Hq & _).
  change (String c p ++ String "," t) with (String c (p ++ String "," t)).
  unfold read_line. now rewrite Hq.
Qed.

Lemma read_line_plain_end (p : string) : plain p -> read_line p = Some [p]%list.
Proof.
  intros Hp. rewrite <- (read_plain_end p Hp).
  destruct p as [|c p]; [reflexivity|].
  apply plain_cons in Hp as (_ & Hq & _). unfold read_line. now rewrite Hq.
Qed.

Lemma read_quoted_comma (x t : string) :
  read_quoted (replace_dquote x ++ String dquote (String "," t))
  = option_map (cons x) (read_line t).
Proof.
  induction x as [|c x IH].
  - cbn [replace_dquote String.append read_quoted].
    rewrite Ascii.eqb_refl. change (Ascii.eqb "," dquote) with false.
    change (Ascii.eqb "," ",") with true. cbv iota.
    unfold new_field, read_line. destruct t as [|c' t']; reflexivity.
  - cbn [replace_dquote]. destruct (Ascii.eqb c dquote) eqn:E.
    + apply Ascii.eqb_eq in E. subst c.
      change (String dquote (String dquote (replace_dquote x)) ++ String dquote (String "," t))
        with (String dquote (String dquote
                (replace_dquote x ++ String dquote (String "," t)))).
      cbn [read_quoted]. rewrite !Ascii.eqb_refl, IH. apply add_char_cons.
    + change (String c (replace_dquote x) ++ String dquote (String "," t))
        with (String c (replace_dquote x ++ String dquote (String "," t))).
      cbn [read_quoted]. rewrite E, IH. apply add_char_cons.
Qed.

Lemma read_quoted_end (x : string) :
  read_quoted (replace_dquote x ++ str1 dquote) = Some [x]%list.
Proof.
  induction x as [|c x IH].
  - cbn [replace_dquote String.append read_quoted str1]. now rewrite Ascii.eqb_refl.
  - cbn [replace_dquote]. destruct (Ascii.eqb c dquote) eqn:E.
    + apply Ascii.eqb_eq in E. subst c.
      change (String dquote (String dquote (replace_dquote x)) ++ str1 dquote)
        with (String dquote (String dquote (replace_dquote x ++ str1 dquote))).
      cbn [read_quoted]. now rewrite !Ascii.eqb_refl, IH.
    + change (String c (replace_dquote x) ++ str1 dquote)
        with (String c (replace_dquote x ++ str1 dquote)).
      cbn [read_quoted]. now rewrite E, IH.
Qed.

Lemma read_line_quoted (x t : string) :
  read_line (sheetService.quoted x ++ String "," t) = option_map (cons x) (read_line t).
Proof.
  unfold sheetService.quoted.
  change (String dquote (replace_dquote x ++ str1 dquote) ++ String "," t)
    with (String dquote ((replace_dquote x ++ str1 dquote) ++ String "," t)).
  rewrite append_assoc. unfold read_line. rewrite Ascii.eqb_refl.
  apply read_quoted_comma.
Qed.
End CSVReader.

Section CSVRoundTrip.
Context `{JSRuntime}.
Local Open Scope string_scope.

(** Reading the line of a station back gives its seven cells, the quoted
    ones without their quotes, whatever the name, the address and the
    description hold. *)
Lemma read_csv_line (s : StationData) :
  plain (id s) ->
  plain (Number_toString (lat (location s))) ->
  plain (Number_toString (lng (location s))) ->
  plain (Date_toISOString (timestamp s)) ->
  read_line (csv_line s)
  = Some [ id s; name s; address s;
           Number_toString (lat (location s)); Number_toString (lng (location s));
           description s; Date_toISOString (timestamp s) ]%list.
Proof.
  intros Hi Hla Hln Hts. unfold csv_line.
  cbn [String.append].
  rewrite (read_line_plain _ Hi), read_line_quoted, read_line_quoted,
    (read_line_plain _ Hla), (read_line_plain _ Hln), read_line_quoted,
    (read_line_plain_end _ Hts).
  reflexivity.
Qed.

(** The row of a record, when there is one, prints as its line. *)
Lemma row_line (s : StationData) (cells : list string) :
  sheetService.row s = Normal cells ->
  valid_time (timestamp s) = true /\ join "," cells = csv_line s.
Proof.
  intros E. destruct (valid_time (timestamp s)) eqn:Hv.
  - rewrite (row_valid s Hv) in E. injection E as <-. now split.
  - rewrite (row_invalid s Hv) in E. discriminate.
Qed.

(** X18. The line of a record determines its cells: when the identities
    and the printed numbers and dates hold neither comma nor double quote,
    two records whose rows are exported with the same line have the same
    identity, name, address, description and the same printed coordinates
    and timestamp, whatever commas, quotes or line breaks the three free
    texts hold. *)
Theorem csv_line_determines_cells (s1 s2 : StationData) (cells1 cells2 : list string) :
  sheetService.row s1 = Normal cells1 -> sheetService.row s2 = Normal cells2 ->
  plain (id s1) -> plain (id s2) ->
  plain (Number_toString (lat (location s1))) -> plain (Number_toString (lat (location s2))) ->
  plain (Number_toString (lng (location s1))) -> plain (Number_toString (lng (location s2))) ->
  plain (Date_toISOString (timestamp s1)) -> plain (Date_toISOString (timestamp s2)) ->
  join "," cells1 = join "," cells2 ->
  id s1 = id s2 /\ name s1 = name s2 /\ address s1 = address s2 /\
  description s1 = description s2 /\
  Number_toString (lat (location s1)) = Number_toString (lat (location s2)) /\
  Number_toString (lng (location s1)) = Number_toString (lng (location s2)) /\
  Date_toISOString (timestamp s1) = Date_toISOString (timestamp s2).
Proof.
  intros Hr1 Hr2 Hi1 Hi2 Hla1 Hla2 Hln1 Hln2 Ht1 Ht2 E.
  destruct (row_line s1 cells1 Hr1) as [_ L1].
  destruct (row_line s2 cells2 Hr2) as [_ L2].
  rewrite L1, L2 in E.
  pose proof (read_csv_line s1 Hi1 Hla1 Hln1 Ht1) as R1.
  pose proof (read_csv_line s2 Hi2 Hla2 Hln2 Ht2) as R2.
  rewrite E, R2 in R1. injection R1 as -> -> -> -> -> -> ->.
  repeat split.
Qed.
End CSVRoundTrip.

Lemma csv_line_determines_cells_witness :
  let s1 := {| id := "a"; name := tank_name; address := "1, Main St";
               location := clicked; description := EmptyString; images := [];
               timestamp := 0%float |} in
  let s2 := {| id := "a"; name := tank_name; address := "1, Main St";
               location := clicked; description := EmptyString;
               images := ["data:image/png;base64,QUJD"]; timestamp := 0%float |} in
  id s1 = id s2 /\ name s1 = name s2 /\ address s1 = address s2 /\
  description s1 = description s2 /\
  Number_toString (JSRuntime := constant_runtime) (lat (location s1))
    = Number_toString (JSRuntime := constant_runtime) (lat (location s2)) /\
  Number_toString (JSRuntime := constant_runtime) (lng (location s1))
    = Number_toString (JSRuntime := constant_runtime) (lng (location s2)) /\
  Date_toISOString (JSRuntime := constant_runtime) (timestamp s1)
    = Date_toISOString (JSRuntime := constant_runtime) (timestamp s2).
Proof.
  intros s1 s2.
  apply (csv_line_determines_cells (H := constant_runtime) s1 s2
           [ "a"; sheetService.quoted tank_name; sheetService.quoted "1, Main St";
             "0"; "0"; sheetService.quoted EmptyString; "1970-01-01T00:00:00.000Z" ]
           [ "a"; sheetService.quoted tank_name; sheetService.quoted "1, Main St";
             "0"; "0"; sheetService.quoted EmptyString; "1970-01-01T00:00:00.000Z" ]);
    try (split; reflexivity); reflexivity.
Defined.

(** ** The effects of the map container *)

Module MapLemmas.
Import MapContainer MapFacts.

Lemma emits_weaken (ks ks' : list Kind) (f : MapState -> MapState) :
  (forall k, In k ks -> In k ks') -> emits ks f -> emits ks' f.
Proof.
  intros Hsub Hf a. destruct (Hf a) as (calls & E & Hc).
  exists calls. split; [exact E|].
  eapply Forall_impl; [exact Hc|]. cbn. auto.
Qed.

Lemma emits_silent (ks : list Kind) (f : MapState -> MapState) :
  (forall a, log (f a) = log a) -> emits ks f.
Proof. intros Hf a. exists []. split; [now rewrite Hf, app_nil_r | constructor]. Qed.

Lemma emits_call (c : LibCall) : emits [kind_of c] (call c).
Proof.
  intros a. exists [c]. split; [now destruct a|].
  repeat constructor.
Qed.

(** What a list of statements emits, and that it ends in [exec]. *)
Lemma emits_exec (ks : list Kind) (stmts : list (MapState -> MapState)) (a : MapState) :
  Forall (emits ks) stmts ->
  exists calls, log (exec stmts a) = log a ++ calls /\
                Forall (fun c => In (kind_of c) ks) calls.
Proof.
  intros Hf. revert a. induction Hf as [|f rest Hfr _ IH]; intros a.
  - exists []. split; [now rewrite app_nil_r | constructor].
  - destruct (Hfr a) as (c1 & E1 & H1). destruct (IH (f a)) as (c2 & E2 & H2).
    exists (c1 ++ c2). split.
    + change (exec (f :: rest) a) with (exec rest (f a)).
      now rewrite E2, E1, app_assoc.
    + apply Forall_app; auto.
Qed.

Lemma inert_exec (stmts : list (MapState -> MapState)) (a : MapState) :
  Forall inert stmts ->
  googleScriptLoaded (exec stmts a) = googleScriptLoaded a /\
  window_google_maps (exec stmts a) = window_google_maps a /\
  window_L (exec stmts a) = window_L a /\
  googleMapRef (exec stmts a) = googleMapRef a /\
  leafletMapRef (exec stmts a) = leafletMapRef a /\
  container (exec stmts a) = container a /\
  head_scripts (exec stmts a) = head_scripts a /\
  rendered (exec stmts a) = rendered a.
Proof.
  intros Hf. revert a. induction Hf as [|f rest Hfr _ IH]; intros a.
  - repeat split.
  - change (exec (f :: rest) a) with (exec rest (f a)).
    destruct (Hfr a) as (H1 & H2 & H3 & H4 & H5 & H6 & H7 & H8).
    destruct (IH (f a)) as (G1 & G2 & G3 & G4 & G5 & G6 & G7 & G8).
    rewrite G1, G2, G3, G4, G5, G6, G7, G8. repeat split; assumption.
Qed.

(** The statements of the pan, marker and selection-marker effects. *)
Lemma inert_call (c : LibCall) : inert (call c).
Proof. intros a. now destruct a. Qed.

Lemma inert_marker_remove (m : Marker) : inert (marker_remove m).
Proof. intros a. now destruct a. Qed.

Lemma inert_set_googleMarkersRef (v : list Marker) : inert (set_googleMarkersRef v).
Proof. intros a. now destruct a. Qed.

Lemma inert_set_leafletMarkersRef (v : list Marker) : inert (set_leafletMarkersRef v).
Proof. intros a. now destruct a. Qed.

Lemma inert_set_leafletTempMarkerRef (v : option TempMarker) :
  inert (set_leafletTempMarkerRef v).
Proof. intros a. now destruct a. Qed.

Lemma inert_google_marker (g : nat) (r : Render) (s : StationData) :
  inert (google_marker g r s).
Proof. intros a. now destruct a. Qed.

Lemma inert_leaflet_marker (l : nat) (r : Render) (s : StationData) :
  inert (leaflet_marker l r s).
Proof. intros a. now destruct a. Qed.

Lemma inert_google_temp (g : nat) (loc : Location) : inert (google_temp g loc).
Proof. intros a. now destruct a. Qed.

Lemma inert_leaflet_temp (l : nat) (loc : Location) : inert (leaflet_temp l loc).
Proof. intros a. now destruct a. Qed.

Lemma emits_marker_remove (m : Marker) : emits [KMarker] (marker_remove m).
Proof. apply (emits_call (MarkerRemove m)). Qed.

Lemma emits_set_googleMarkersRef ks (v : list Marker) : emits ks (set_googleMarkersRef v).
Proof. apply emits_silent. intros a. now destruct a. Qed.

Lemma emits_set_leafletMarkersRef ks (v : list Marker) : emits ks (set_leafletMarkersRef v).
Proof. apply emits_silent. intros a. now destruct a. Qed.

Lemma emits_set_leafletTempMarkerRef ks (v : option TempMarker) :
  emits ks (set_leafletTempMarkerRef v).
Proof. apply emits_silent. intros a. now destruct a. Qed.

Lemma emits_google_marker (g : nat) (r : Render) (s : StationData) :
  emits [KMarker] (google_marker g r s).
Proof.
  intros a. destruct a. eexists [_; _]. split; [cbn; rewrite <- app_assoc; reflexivity|].
  repeat constructor.
Qed.

Lemma emits_leaflet_marker (l : nat) (r : Render) (s : StationData) :
  emits [KMarker] (leaflet_marker l r s).
Proof.
  intros a. destruct a. eexists [_; _]. split; [cbn; rewrite <- app_assoc; reflexivity|].
  repeat constructor.
Qed.

Lemma emits_google_temp (g : nat) (loc : Location) : emits [KTemp] (google_temp g loc).
Proof. intros a. destruct a. eexists [_]. split; [reflexivity | repeat constructor]. Qed.

Lemma emits_leaflet_temp (l : nat) (loc : Location) : emits [KTemp] (leaflet_temp l loc).
Proof. intros a. destruct a. eexists [_]. split; [reflexivity | repeat constructor]. Qed.

Lemma emits_view (m : nat) (c : Location) (z : number) : emits [KView] (call (MapView m c z)).
Proof. apply (emits_call (MapView m c z)). Qed.

Lemma emits_temp_remove (t : TempMarker) : emits [KTemp] (call (TempRemove t)).
Proof. apply (emits_call (TempRemove t)). Qed.

Lemma Forall_map_all {A} (P : (MapState -> MapState) -> Prop)
      (f : A -> MapState -> MapState) (l : list A) :
  (forall x, P (f x)) -> Forall P (map f l).
Proof. intros Hf. induction l; simpl; constructor; auto. Qed.

Create HintDb effects.
#[local] Hint Resolve inert_call inert_marker_remove inert_set_googleMarkersRef
  inert_set_leafletMarkersRef inert_set_leafletTempMarkerRef inert_google_marker
  inert_leaflet_marker inert_google_temp inert_leaflet_temp
  emits_marker_remove emits_set_googleMarkersRef emits_set_leafletMarkersRef
  emits_set_leafletTempMarkerRef emits_google_marker emits_leaflet_marker
  emits_google_temp emits_leaflet_temp emits_view emits_temp_remove : effects.

Ltac effects :=
  repeat match goal with
         | |- Forall _ [] => apply List.Forall_nil
         | |- Forall _ (_ :: _) => apply List.Forall_cons
         | |- Forall _ (_ ++ _) => apply List.Forall_app; split
         | |- Forall _ (map _ _) => apply Forall_map_all; intro
         | |- inert _ => solve [auto with effects]
         | |- emits _ _ => solve [auto with effects]
         end.

(** The six effects that neither load the script nor construct a map are
    inert and emit calls of their own kind only. *)
Lemma quiet_effect (e : Effect) (r : Render) (a : MapState) :
  e <> LoadScript -> e <> InitGoogle -> e <> InitLeaflet ->
  Forall inert (body e r a) /\ Forall (emits (kinds e)) (body e r a).
Proof.
  intros H1 H2 H3. destruct e; try contradiction; cbn [body kinds].
  - unfold panGoogle. destruct (googleMapRef a); [|split; effects].
    destruct (truthy (apiKey (props r))); split; effects.
  - unfold googleMarkers. destruct (googleMapRef a); [|split; effects].
    destruct (truthy (apiKey (props r))); split; effects.
  - unfold googleTemp. destruct (googleMapRef a); [|split; effects].
    destruct (truthy (apiKey (props r))); [|split; effects].
    destruct (googleTempMarkerRef a), (selectedLocation (props r)); split; effects.
  - unfold panLeaflet. destruct (leafletMapRef a); [|split; effects].
    destruct (negb (truthy (apiKey (props r)))); split; effects.
  - unfold leafletMarkers. destruct (leafletMapRef a); [|split; effects].
    destruct (negb (truthy (apiKey (props r))) && window_L a); split; effects.
  - unfold leafletTemp. destruct (leafletMapRef a); [|split; effects].
    destruct (negb (truthy (apiKey (props r))) && window_L a); [|split; effects].
    destruct (leafletTempMarkerRef a), (selectedLocation (props r)); split; effects.
Qed.

(** The script effect touches the loaded flag and the scripts only. *)
Lemma loadScript_exec (r : Render) (a : MapState) :
  let a' := exec (loadScript r a) a in
  log a' = log a /\
  googleMapRef a' = googleMapRef a /\
  leafletMapRef a' = leafletMapRef a /\
  container a' = container a /\
  window_google_maps a' = window_google_maps a /\
  window_L a' = window_L a /\
  rendered a' = rendered a /\
  (googleScriptLoaded a' = true ->
   googleScriptLoaded a = true \/ window_google_maps a = true) /\
  (googleScriptLoaded a = true -> googleScriptLoaded a' = true).
Proof.
  unfold loadScript.
  destruct (truthy (apiKey (props r))); cbn [negb]; [|cbn; tauto].
  destruct (window_google_maps a) eqn:Ew; destruct a; cbn in *; subst; tauto.
Qed.

(** The Google effect either does nothing, or runs with a key and a loaded
    script from an empty [googleMapRef] and ends with the new map in it and
    [leafletMapRef] empty. *)
Lemma initGoogle_exec (r : Render) (a : MapState) :
  let a' := exec (initGoogle r a) a in
  googleScriptLoaded a' = googleScriptLoaded a /\
  window_google_maps a' = window_google_maps a /\
  window_L a' = window_L a /\
  rendered a' = rendered a /\
  head_scripts a' = head_scripts a /\
  (exists calls, log a' = log a ++ calls /\
                 Forall (fun c => In (kind_of c) [KMap; KView]) calls) /\
  (initGoogle r a = [] \/
   (googleMapRef a = None /\ truthy (apiKey (props r)) = true /\ loaded r = true /\
    googleMapRef a' = Some (next a) /\ leafletMapRef a' = None)).
Proof.
  unfold initGoogle.
  destruct (googleMapRef a) as [g|] eqn:Eg.
  { cbn. repeat split; auto. exists []. split; [now rewrite app_nil_r | constructor]. }
  destruct (truthy (apiKey (props r))) eqn:Ek; cbn [andb];
    [destruct (loaded r) eqn:El|].
  2,3: cbn; repeat split; auto; exists []; (split; [now rewrite app_nil_r | constructor]).
  destruct (leafletMapRef a) as [l|] eqn:Em;
    destruct a as [gsl rd gm gms gt lm lms lt wg wl hs c lg nx]; cbn in *; subst;
    do 5 (split; [reflexivity|]); (split; [|right; repeat split]).
  - eexists [_; _; _; _]. split; [rewrite <- !app_assoc; reflexivity|].
    repeat (apply List.Forall_cons; [cbn; tauto|]); apply List.Forall_nil.
  - eexists [_; _; _]. split; [rewrite <- !app_assoc; reflexivity|].
    repeat (apply List.Forall_cons; [cbn; tauto|]); apply List.Forall_nil.
Qed.

Lemma initLeaflet_exec (r : Render) (a : MapState) :
  let a' := exec (initLeaflet r a) a in
  googleScriptLoaded a' = googleScriptLoaded a /\
  window_google_maps a' = window_google_maps a /\
  window_L a' = window_L a /\
  rendered a' = rendered a /\
  head_scripts a' = head_scripts a /\
  (exists calls, log a' = log a ++ calls /\
                 Forall (fun c => In (kind_of c) [KMap; KView]) calls) /\
  (initLeaflet r a = [] \/
   (leafletMapRef a = None /\ truthy (apiKey (props r)) = false /\ window_L a = true /\
    googleMapRef a' = None /\ leafletMapRef a' = Some (next a))).
Proof.
  unfold initLeaflet.
  destruct (leafletMapRef a) as [l|] eqn:Em.
  { cbn. repeat split; auto. exists []. split; [now rewrite app_nil_r | constructor]. }
  destruct (truthy (apiKey (props r))) eqn:Ek; cbn [negb andb];
    [|destruct (window_L a) eqn:El].
  1,3: cbn; repeat split; auto; exists []; (split; [now rewrite app_nil_r | constructor]).
  destruct (googleMapRef a) as [g|] eqn:Eg;
    destruct a as [gsl rd gm gms gt lm lms lt wg wl hs c lg nx]; cbn in *; subst;
    do 5 (split; [reflexivity|]); (split; [|right; repeat split]).
  - eexists [_; _; _; _]. split; [rewrite <- !app_assoc; reflexivity|].
    repeat (apply List.Forall_cons; [cbn; tauto|]); apply List.Forall_nil.
  - eexists [_; _; _; _]. split; [rewrite <- !app_assoc; reflexivity|].
    repeat (apply List.Forall_cons; [cbn; tauto|]); apply List.Forall_nil.
Qed.

Lemma grows_refl (Q : LibCall -> Prop) (a : MapState) : grows Q a a.
Proof. exists []. split; [now rewrite app_nil_r | constructor]. Qed.

Lemma grows_trans (Q : LibCall -> Prop) (a b c : MapState) :
  grows Q a b -> grows Q b c -> grows Q a c.
Proof.
  intros (c1 & E1 & H1) (c2 & E2 & H2). exists (c1 ++ c2).
  split; [now rewrite E2, E1, app_assoc | now apply Forall_app].
Qed.

Lemma grows_same_log (Q : LibCall -> Prop) (a b : MapState) :
  log b = log a -> grows Q a b.
Proof. intros E. exists []. split; [now rewrite E, app_nil_r | constructor]. Qed.

Lemma grows_impl (Q Q' : LibCall -> Prop) (a b : MapState) :
  (forall c, Q c -> Q' c) -> grows Q a b -> grows Q' a b.
Proof.
  intros Hq (calls & E & H). exists calls. split; [exact E|].
  eapply Forall_impl; eauto.
Qed.

Lemma grows_calls_since (Q : LibCall -> Prop) (a b : MapState) :
  grows Q a b -> Forall Q (calls_since a b).
Proof. intros (calls & E & H). unfold calls_since. now rewrite E, drop_app_length. Qed.

Ltac quiet_case Hi He :=
  match goal with
  | |- context [body ?e ?r ?a] =>
      destruct (quiet_effect e r a) as [Hi He]; [discriminate | discriminate | discriminate |]
  end.

(** The calls of every effect are of its kinds. *)
Lemma effect_kinds (e : Effect) (r : Render) (a : MapState) :
  grows (fun c => In (kind_of c) (kinds e)) a (exec (body e r a) a) /\
  rendered (exec (body e r a) a) = rendered a /\
  window_google_maps (exec (body e r a) a) = window_google_maps a /\
  window_L (exec (body e r a) a) = window_L a.
Proof.
  destruct e;
    try (quiet_case Hi He;
         destruct (inert_exec _ a Hi) as (_ & Hwg & Hwl & _ & _ & _ & _ & Hrd);
         split; [exact (emits_exec _ _ a He) | repeat split; assumption]).
  - destruct (loadScript_exec r a) as (Hl & _ & _ & _ & Hwg & Hwl & Hrd & _).
    split; [now apply grows_same_log | repeat split; assumption].
  - destruct (initGoogle_exec r a) as (_ & Hwg & Hwl & Hrd & _ & Hc & _).
    split; [exact Hc | repeat split; assumption].
  - destruct (initLeaflet_exec r a) as (_ & Hwg & Hwl & Hrd & _ & Hc & _).
    split; [exact Hc | repeat split; assumption].
Qed.

(** *** The library is there before the map *)

Lemma effect_library (e : Effect) (r : Render) (a : MapState) :
  library_before_map a ->
  (loaded r = true -> googleScriptLoaded a = true) ->
  library_before_map (exec (body e r a) a) /\
  (loaded r = true -> googleScriptLoaded (exec (body e r a) a) = true).
Proof.
  intros [J1 J2] Hl.
  destruct e;
    try (quiet_case Hi He;
         destruct (inert_exec _ a Hi) as (Hg & Hwg & _ & Hgm & _);
         unfold library_before_map; rewrite Hg, Hwg, Hgm; auto); cbn [body].
  - destruct (loadScript_exec r a) as (_ & Hgm & _ & _ & Hwg & _ & _ & Hup & Hmono).
    unfold library_before_map. rewrite Hgm, Hwg.
    split; [split|]; auto.
    intros H'. destruct (Hup H'); auto.
  - destruct (initGoogle_exec r a) as (Hg & Hwg & _ & _ & _ & _ & [E | (_ & _ & El & _)]).
    + rewrite E. cbn. unfold library_before_map. auto.
    + unfold library_before_map. rewrite Hg, Hwg. auto.
  - destruct (initLeaflet_exec r a) as (Hg & Hwg & _ & _ & _ & _ & [E | (_ & _ & _ & Hgm & _)]).
    + rewrite E. cbn. unfold library_before_map. auto.
    + unfold library_before_map. rewrite Hg, Hwg, Hgm. repeat split; auto.
Qed.

Lemma commit_library (es : list Effect) (old : option Render) (r : Render) (a : MapState) :
  library_before_map a ->
  (loaded r = true -> googleScriptLoaded a = true) ->
  library_before_map (commit es old r a).
Proof.
  revert a. induction es as [|e rest IH]; intros a Ha Hl; [exact Ha|].
  cbn [commit]. destruct (fires e old r).
  - destruct (effect_library e r a Ha Hl) as [Ha' Hl']. now apply IH.
  - now apply IH.
Qed.

Lemma render_library (p : Props) (a : MapState) :
  library_before_map a -> library_before_map (render p a).
Proof.
  intros Ha. unfold render. apply commit_library.
  - destruct a; exact Ha.
  - cbn. destruct a; cbn. auto.
Qed.

Lemma settle_library (a : MapState) :
  library_before_map a -> library_before_map (settle a).
Proof.
  intros Ha. unfold settle. destruct (rendered a) as [r|]; [|exact Ha].
  destruct (Bool.eqb (loaded r) (googleScriptLoaded a)); [exact Ha|].
  now apply render_library.
Qed.

Lemma handle_library (e : Event) (a : MapState) :
  library_before_map a -> library_before_map (handle e a).
Proof.
  intros Ha. destruct e as [p| |]; cbn [handle].
  - now apply settle_library, render_library.
  - destruct (head_scripts a); [exact Ha|]. apply settle_library.
    destruct a; split; cbn; auto.
  - destruct a; exact Ha.
Qed.
End MapLemmas.

Section MapLibraryClaim.
Import MapContainer MapFacts MapLemmas.

(** X19. A Google map is constructed only after the Google script has
    loaded: in every state the component reaches, a non-empty
    [googleMapRef] goes with [googleScriptLoaded] set, and that flag goes
    with the library being present, so the effects that call the library
    under the guard of [googleMapRef] find it. *)
Theorem google_map_needs_library (st : MapState) :
  reachable st ->
  (googleMapRef st <> None -> googleScriptLoaded st = true) /\
  (googleScriptLoaded st = true -> window_google_maps st = true) /\
  (googleMapRef st <> None -> window_google_maps st = true).
Proof.
  intros Hr.
  assert (H : library_before_map st).
  { induction Hr as [b | e st _ IH]; [split; [discriminate | intros Hn; now elim Hn]|].
    now apply handle_library. }
  destruct H as [H1 H2]. auto.
Qed.
End MapLibraryClaim.

Lemma google_map_needs_library_witness :
  (MapContainer.googleMapRef commercial_state <> None ->
   MapContainer.googleScriptLoaded commercial_state = true) /\
  (MapContainer.googleScriptLoaded commercial_state = true ->
   MapContainer.window_google_maps commercial_state = true) /\
  (MapContainer.googleMapRef commercial_state <> None ->
   MapContainer.window_google_maps commercial_state = true).
Proof.
  apply (google_map_needs_library commercial_state).
  unfold commercial_state. do 4 apply MapContainer.reachable_handle.
  apply MapContainer.reachable_unmounted.
Defined.

Module MapLemmas2.
Import MapContainer MapFacts MapLemmas.

Definition no_map_call (c : LibCall) : Prop := kind_of c <> KMap.
Definition no_marker_call (c : LibCall) : Prop := kind_of c <> KMarker.

(** *** A live map is kept *)

Lemma live_same (p : Props) (a a' : MapState) :
  googleMapRef a' = googleMapRef a -> leafletMapRef a' = leafletMapRef a ->
  live p a' = live p a.
Proof. intros Hg Hl. unfold live. now rewrite Hg, Hl. Qed.

Lemma effect_live (e : Effect) (r : Render) (a : MapState) :
  live (props r) a = true ->
  let a' := exec (body e r a) a in
  googleMapRef a' = googleMapRef a /\
  leafletMapRef a' = leafletMapRef a /\
  container a' = container a /\
  grows no_map_call a a'.
Proof.
  intros Hlive a'. unfold a'. clear a'.
  pose proof (effect_kinds e r a) as (Hk & _).
  destruct e;
    try (quiet_case Hi He;
         destruct (inert_exec _ a Hi) as (_ & _ & _ & Hgm & Hlm & Hc & _);
         refine (conj Hgm (conj Hlm (conj Hc _)));
         eapply grows_impl; [|exact Hk];
         intros c Hin Hm; cbn in Hin; rewrite Hm in Hin; intuition discriminate);
    cbn [body] in *.
  - destruct (loadScript_exec r a) as (Hl & Hgm & Hlm & Hc & _).
    refine (conj Hgm (conj Hlm (conj Hc _))). now apply grows_same_log.
  - destruct (initGoogle_exec r a) as (_ & _ & _ & _ & _ & _ & [E | (Hn & Hk' & _)]).
    + rewrite E. cbn. repeat split. apply grows_refl.
    + unfold live in Hlive. rewrite Hk', Hn in Hlive. discriminate.
  - destruct (initLeaflet_exec r a) as (_ & _ & _ & _ & _ & _ & [E | (Hn & Hk' & _)]).
    + rewrite E. cbn. repeat split. apply grows_refl.
    + unfold live in Hlive. rewrite Hk', Hn in Hlive. discriminate.
Qed.

Lemma commit_live (es : list Effect) (old : option Render) (r : Render) (a : MapState) :
  live (props r) a = true ->
  googleMapRef (commit es old r a) = googleMapRef a /\
  leafletMapRef (commit es old r a) = leafletMapRef a /\
  container (commit es old r a) = container a /\
  grows no_map_call a (commit es old r a).
Proof.
  revert a. induction es as [|e rest IH]; intros a Hlive.
  - repeat split. apply grows_refl.
  - cbn [commit]. destruct (fires e old r); [|now apply IH].
    destruct (effect_live e r a Hlive) as (Hg & Hl & Hc & Hgr).
    destruct (IH (exec (body e r a) a)) as (Hg' & Hl' & Hc' & Hgr').
    { now rewrite (live_same _ _ _ Hg Hl). }
    rewrite Hg', Hl', Hc'. repeat split; auto.
    eapply grows_trans; eauto.
Qed.

Lemma commit_rendered (es : list Effect) (old : option Render) (r : Render) (a : MapState) :
  rendered (commit es old r a) = rendered a.
Proof.
  revert a. induction es as [|e rest IH]; intros a; [reflexivity|].
  cbn [commit]. destruct (fires e old r); [|apply IH].
  rewrite IH. now destruct (effect_kinds e r a) as (_ & Hrd & _).
Qed.

Lemma render_rendered (p : Props) (a : MapState) :
  rendered (render p a) = Some {| props := p; loaded := googleScriptLoaded a |}.
Proof. unfold render. rewrite commit_rendered. now destruct a. Qed.

Lemma render_live (p : Props) (a : MapState) :
  live p a = true ->
  googleMapRef (render p a) = googleMapRef a /\
  leafletMapRef (render p a) = leafletMapRef a /\
  container (render p a) = container a /\
  grows no_map_call a (render p a).
Proof.
  intros Hlive. unfold render.
  set (r := {| props := p; loaded := googleScriptLoaded a |}).
  set (a1 := set_rendered (Some r) a).
  assert (H1 : googleMapRef a1 = googleMapRef a /\ leafletMapRef a1 = leafletMapRef a /\
               container a1 = container a /\ log a1 = log a) by now destruct a.
  destruct H1 as (Hg & Hl & Hc & Hlog).
  destruct (commit_live effects (rendered a) r a1) as (Hg' & Hl' & Hc' & Hgr').
  { change (props r) with p. now rewrite (live_same _ _ _ Hg Hl). }
  rewrite Hg', Hl', Hc'. refine (conj Hg (conj Hl (conj Hc _))).
  eapply grows_trans; [apply grows_same_log; exact Hlog | exact Hgr'].
Qed.

(** *** No station-marker call without the stations effect *)

Lemma effect_no_marker (e : Effect) (r : Render) (a : MapState) :
  is_markers_effect e = false ->
  grows no_marker_call a (exec (body e r a) a).
Proof.
  intros He. destruct (effect_kinds e r a) as (Hk & _).
  eapply grows_impl; [|exact Hk]. intros c Hin Hm. unfold no_marker_call in *.
  rewrite Hm in Hin. destruct e; cbn in Hin, He; try discriminate; intuition discriminate.
Qed.

Lemma commit_no_marker (es : list Effect) (old : option Render) (r : Render) (a : MapState) :
  fires GoogleMarkers old r = false ->
  fires LeafletMarkers old r = false ->
  grows no_marker_call a (commit es old r a).
Proof.
  intros Fg Fl. revert a. induction es as [|e rest IH]; intros a; [apply grows_refl|].
  cbn [commit]. destruct (fires e old r) eqn:Fe; [|apply IH].
  eapply grows_trans; [|apply IH]. apply effect_no_marker.
  destruct e; try reflexivity; congruence.
Qed.

Lemma render_no_marker (p : Props) (a : MapState) :
  fires GoogleMarkers (rendered a) {| props := p; loaded := googleScriptLoaded a |} = false ->
  fires LeafletMarkers (rendered a) {| props := p; loaded := googleScriptLoaded a |} = false ->
  grows no_marker_call a (render p a).
Proof.
  intros Fg Fl. unfold render.
  eapply grows_trans; [|apply commit_no_marker; assumption].
  apply grows_same_log. now destruct a.
Qed.

(** The stations effects do not fire between two renders with the same
    props. *)
Lemma markers_same_props (p : Props) (b b' : bool) (e : Effect) :
  is_markers_effect e = true ->
  fires e (Some {| props := p; loaded := b |}) {| props := p; loaded := b' |} = false.
Proof.
  intros He. destruct e; try discriminate; cbn;
    now rewrite !Nat.eqb_refl, String.eqb_refl.
Qed.

Lemma settle_no_marker (a : MapState) : grows no_marker_call a (settle a).
Proof.
  unfold settle. destruct (rendered a) as [[p b]|] eqn:Er; [|apply grows_refl].
  cbn [loaded props]. destruct (Bool.eqb b (googleScriptLoaded a)); [apply grows_refl|].
  apply render_no_marker; rewrite Er; now apply markers_same_props.
Qed.

Lemma settle_live (p : Props) (b : bool) (a : MapState) :
  rendered a = Some {| props := p; loaded := b |} ->
  live p a = true ->
  googleMapRef (settle a) = googleMapRef a /\
  leafletMapRef (settle a) = leafletMapRef a /\
  container (settle a) = container a /\
  grows no_map_call a (settle a).
Proof.
  intros Er Hlive. unfold settle. rewrite Er. cbn [loaded props].
  destruct (Bool.eqb b (googleScriptLoaded a));
    [repeat split; apply grows_refl | now apply render_live].
Qed.
End MapLemmas2.

Section MapClaims.
Import MapContainer MapFacts MapLemmas MapLemmas2.

(** X20. While the map of the backend that the key selects is
    constructed, a render constructs nothing: whatever else its props
    hold, the two map refs and the container are as before and no map is
    constructed or removed, and no click listener or tile layer is added;
    the click listener of the map stays the callback it was constructed
    with. *)
Theorem live_map_is_kept (p : Props) (st : MapState) :
  live p st = true ->
  let st' := handle (Rendered p) st in
  googleMapRef st' = googleMapRef st /\
  leafletMapRef st' = leafletMapRef st /\
  container st' = container st /\
  Forall (fun c => kind_of c <> KMap) (calls_since st st').
Proof.
  intros Hlive st'. unfold st'. cbn [handle].
  destruct (render_live p st Hlive) as (Hg & Hl & Hc & Hgr).
  destruct (settle_live p (googleScriptLoaded st) (render p st)) as (Hg' & Hl' & Hc' & Hgr').
  { apply render_rendered. }
  { now rewrite (live_same _ _ _ Hg Hl). }
  rewrite Hg', Hl', Hc'. repeat split; auto.
  apply (grows_calls_since no_map_call). eapply grows_trans; eauto.
Qed.

(** X21. When the Google script loads, no station marker is added or
    removed, whatever the state: the map may be constructed in that commit,
    but the stations effect does not run, its dependencies being those of
    the last render; the markers of the records are drawn on a map
    constructed in that commit only by a later render that changes one of
    those dependencies. *)
Theorem script_load_draws_no_marker (st : MapState) :
  churn st (handle ScriptOnload st) = [] /\
  Forall (fun c => kind_of c <> KMarker) (calls_since st (handle ScriptOnload st)).
Proof.
  assert (G : grows no_marker_call st (handle ScriptOnload st)).
  { cbn [handle]. destruct (head_scripts st); [apply grows_refl|].
    eapply grows_trans; [|apply settle_no_marker].
    apply grows_same_log. now destruct st. }
  split; [|exact (grows_calls_since _ _ _ G)].
  destruct G as (calls & E & Hc). rewrite (MarkerSyncFacts.churn_appended _ _ _ E).
  clear E. induction Hc as [|c calls Hk _ IH]; [reflexivity|].
  cbn [List.filter]. destruct c; cbn in Hk |- *; try exact IH; now elim Hk.
Qed.

(** X22. A render by the parent with the stations array, the key and the
    marker callback of the previous render adds and removes no station
    marker, whatever else changed (the centre, the zoom, the selection,
    the map callback). *)
Theorem render_without_marker_deps (p : Props) (r : Render) (st : MapState) :
  rendered st = Some r ->
  stations_ref (props r) = stations_ref p ->
  apiKey (props r) = apiKey p ->
  onMarkerClick (props r) = onMarkerClick p ->
  churn st (handle (Rendered p) st) = [].
Proof.
  intros Er Hs Hk Hm.
  assert (G : grows no_marker_call st (handle (Rendered p) st)).
  { cbn [handle]. eapply grows_trans; [|apply settle_no_marker].
    apply render_no_marker; rewrite Er; cbn;
      now rewrite Hs, Hk, Hm, !Nat.eqb_refl, String.eqb_refl. }
  destruct G as (calls & E & Hc). rewrite (MarkerSyncFacts.churn_appended _ _ _ E).
  clear E. induction Hc as [|c calls Hc _ IH]; [reflexivity|].
  cbn [List.filter]. destruct c; cbn in Hc |- *; try exact IH; now elim Hc.
Qed.
End MapClaims.

Lemma live_map_is_kept_witness :
  let p := props_of_render 3 "K" [] in
  let st' := MapContainer.handle (MapContainer.Rendered p) commercial_state in
  MapContainer.googleMapRef st' = MapContainer.googleMapRef commercial_state /\
  MapContainer.leafletMapRef st' = MapContainer.leafletMapRef commercial_state /\
  MapContainer.container st' = MapContainer.container commercial_state /\
  Forall (fun c => MapFacts.kind_of c <> MapFacts.KMap)
         (MapFacts.calls_since commercial_state st').
Proof.
  intros p.
  apply (live_map_is_kept p commercial_state). vm_compute. reflexivity.
Defined.

Lemma render_without_marker_deps_witness :
  let r := {| MapContainer.props := props_of_render 2 "K" one_station;
              MapContainer.loaded := true |} in
  let p := {| MapContainer.apiKey := "K";
              MapContainer.center := clicked;
              MapContainer.center_ref := 1;
              MapContainer.zoom := 15%float;
              MapContainer.stations := one_station;
              MapContainer.stations_ref := 0;
              MapContainer.onMapClick := 3;
              MapContainer.onMarkerClick := 2;
              MapContainer.selectedLocation := Some clicked;
              MapContainer.selected_ref := 1 |} in
  MapContainer.churn commercial_state
    (MapContainer.handle (MapContainer.Rendered p) commercial_state) = [].
Proof.
  intros r p.
  apply (render_without_marker_deps p r commercial_state);
    [vm_compute; reflexivity | reflexivity | reflexivity | reflexivity].
Defined.
